(** * mlens.parallel.estimation: a shallow embedding of the layer
      estimation engine and the properties of its fault handling, slicing,
      cache layout and score aggregation.

    Conventions of the embedding.

    - Numbers (array entries, scores, clock readings, the poll interval and
      the time limit) are integers: the engine moves them around and compares
      clock readings, it never rounds.  The clock counts tenths of a second
      and time passes only in [sleep].  [np.mean] and [np.std] are kept
      symbolic.
    - [x], [X] and [P] are dense two-dimensional arrays, stored as the list
      of their rows; [y] is one-dimensional.  The sparse-matrix branch of
      [_slice_array] is outside the model.
    - A Python call that can raise returns [exn + A]; code that also touches
      the cache directory, the shared prediction matrix, the warning log or
      the clock lives in the monad [M] over [world].
    - [parallel(...)] runs its tasks one after the other, in generator order,
      and surfaces the first exception.
    - Console output ([safe_print], [print_time]) is not modelled. *)

From stdpp Require Import gmap strings list fin_maps pretty.
From Stdlib Require Import ZArith Lia.

Local Open Scope Z_scope.
Local Open Scope string_scope.

(** ** Exceptions and warnings *)

Inductive exn_class :=
  | FitFailedError | PredictFailedError | NotFittedError
  | ParallelProcessingError
  | FileNotFoundError | TypeError | AttributeError | IndexError
  | ValueError | KeyError | RuntimeError.

Record exn := Exn { exn_cls : exn_class; exn_msg : string }.

Inductive warn_class :=
  | FitFailedWarning | PredictFailedWarning | ParallelProcessingWarning.

Record warning := Warning { warn_cls : warn_class; warn_msg : string }.

#[global] Instance exn_class_eq_dec : EqDecision exn_class.
Proof. solve_decision. Defined.

#[global] Instance warn_class_eq_dec : EqDecision warn_class.
Proof. solve_decision. Defined.

Definition class_name (c : exn_class) : string :=
  match c with
  | FitFailedError => "FitFailedError"
  | PredictFailedError => "PredictFailedError"
  | NotFittedError => "NotFittedError"
  | ParallelProcessingError => "ParallelProcessingError"
  | FileNotFoundError => "FileNotFoundError"
  | TypeError => "TypeError"
  | AttributeError => "AttributeError"
  | IndexError => "IndexError"
  | ValueError => "ValueError"
  | KeyError => "KeyError"
  | RuntimeError => "RuntimeError"
  end.

(** ** The [%] operator on strings

    The engine builds every message and every cache key with [fmt % args].
    The operator consumes one argument per conversion and fails with a
    [TypeError] when the arguments run out or are left over. *)

Inductive pyarg :=
  | AStr (s : string)
  | ANum (z : Z)
  | ATime (z : Z)
  | ANone
  | AExn (e : exn)
  | AClass (c : string).

(** A float of seconds, held in tenths, with one decimal. *)
Definition tenths (z : Z) : string :=
  (if decide (z < 0) then "-" else "")
  ++ pretty (Z.abs z / 10) ++ "." ++ pretty (Z.abs z mod 10).

Definition py_str (a : pyarg) : string :=
  match a with
  | AStr s => s
  | ANum z => pretty z
  | ATime z => tenths z
  | ANone => "None"
  | AExn e => exn_msg e
  | AClass c => "<class '" ++ c ++ "'>"
  end.

(** [repr] of a [str]: between single quotes, unless the text holds a single
    quote and no double quote, in which case between double quotes; inside,
    the backslash and the chosen quote are escaped, tab, newline and carriage
    return are written [\t], [\n], [\r], and any other control character
    [\xhh]. *)
Definition chr (n : nat) : string := String (Ascii.ascii_of_nat n) "".

Fixpoint has_code (n : nat) (s : string) : bool :=
  match s with
  | EmptyString => false
  | String c r => Nat.eqb (Ascii.nat_of_ascii c) n || has_code n r
  end.

Definition hex2 (n : nat) : string :=
  String.substring (n / 16) 1 "0123456789abcdef"
  ++ String.substring (n mod 16) 1 "0123456789abcdef".

Definition repr_char (q : nat) (c : Ascii.ascii) : string :=
  let n := Ascii.nat_of_ascii c in
  if Nat.eqb n 92 then chr 92 ++ chr 92
  else if Nat.eqb n q then chr 92 ++ chr q
  else if Nat.eqb n 9 then chr 92 ++ "t"
  else if Nat.eqb n 10 then chr 92 ++ "n"
  else if Nat.eqb n 13 then chr 92 ++ "r"
  else if Nat.ltb n 32 || Nat.eqb n 127 then chr 92 ++ "x" ++ hex2 n
  else String c "".

Fixpoint repr_body (q : nat) (s : string) : string :=
  match s with
  | EmptyString => ""
  | String c r => repr_char q c ++ repr_body q r
  end.

Definition repr_str (s : string) : string :=
  let q := if has_code 39 s && negb (has_code 34 s) then 34%nat else 39%nat in
  chr q ++ repr_body q s ++ chr q.

(** [repr] of an exception is its class and, between brackets, the [repr] of
    its arguments.  An [exn] holds the class and [str(e)]: an empty text is
    an exception raised without argument, [Class()]; the text of a [KeyError]
    is already the [repr] of its key; any other text is the one message the
    exception was raised with. *)
Definition repr_exn (e : exn) : string :=
  class_name (exn_cls e) ++ "("
  ++ (if String.eqb (exn_msg e) "" then ""
      else match exn_cls e with
           | KeyError => exn_msg e
           | _ => repr_str (exn_msg e)
           end)
  ++ ")".

Definition py_repr (a : pyarg) : string :=
  match a with
  | AStr s => repr_str s
  | AExn e => repr_exn e
  | _ => py_str a
  end.

Definition too_few : exn :=
  Exn TypeError "not enough arguments for format string".
Definition too_many : exn :=
  Exn TypeError "not all arguments converted during string formatting".
Definition not_a_number : exn :=
  Exn TypeError "a real number is required".

Definition is_char (c : Ascii.ascii) (d : string) : bool :=
  String.eqb (String c "") d.

(** One conversion: [render] turns the next argument into text. *)
Definition convert (render : pyarg -> exn + string) (args : list pyarg)
    (k : list pyarg -> exn + string) : exn + string :=
  match args with
  | [] => inl too_few
  | a :: args' =>
      match render a with
      | inl e => inl e
      | inr s =>
          match k args' with
          | inl e => inl e
          | inr t => inr (s ++ t)
          end
      end
  end.

(** [%i] truncates; [%.1f] keeps one decimal. *)
Definition render_i (a : pyarg) : exn + string :=
  match a with
  | ANum z => inr (pretty z)
  | ATime z => inr (pretty (Z.quot z 10))
  | _ => inl not_a_number
  end.

Definition render_f (a : pyarg) : exn + string :=
  match a with
  | ANum z => inr (pretty z ++ ".0")
  | ATime z => inr (tenths z)
  | _ => inl not_a_number
  end.

(** The conversions the engine uses: [%s], [%r], [%i] and [%.1f]. *)
Fixpoint py_format (fmt : string) (args : list pyarg) : exn + string :=
  match fmt with
  | EmptyString =>
      match args with
      | [] => inr ""
      | _ :: _ => inl too_many
      end
  | String c rest =>
      if is_char c "%" then
        match rest with
        | String d rest1 =>
            if is_char d "s" then
              convert (fun a => inr (py_str a)) args (py_format rest1)
            else if is_char d "r" then
              convert (fun a => inr (py_repr a)) args (py_format rest1)
            else if is_char d "i" then
              convert render_i args (py_format rest1)
            else if is_char d "." then
              match rest1 with
              | String _ (String _ rest3) =>
                  convert render_f args (py_format rest3)
              | _ => inl (Exn ValueError "incomplete format")
              end
            else inl (Exn ValueError "unsupported format character")
        | EmptyString => inl (Exn ValueError "incomplete format")
        end
      else
        match py_format rest args with
        | inl e => inl e
        | inr t => inr (String c t)
        end
  end.

Definition nl : string := String (Ascii.ascii_of_nat 10) "".

(** ** [_name]: the prefix of every diagnostic *)

Definition _name (layer_name case : option string) : string :=
  match layer_name, case with
  | None, None => ""
  | Some l, Some c => "[" ++ l ++ " | " ++ c ++ " ] "
  | Some l, None => "[" ++ l ++ "] "
  | None, Some c => "[" ++ c ++ "] "
  end.

(** ** Results of fallible pure calls *)

Definition ebind {A B} (m : exn + A) (k : A -> exn + B) : exn + B :=
  match m with
  | inl e => inl e
  | inr a => k a
  end.

Notation "'let?' x ':=' m 'in' k" := (ebind m (fun x => k))
  (at level 10, x pattern, m at level 100, k at level 200).

Definition or_raise {A} (c : exn_class) (msg : string) (o : option A)
    : exn + A :=
  match o with
  | Some a => inr a
  | None => inl (Exn c msg)
  end.

(** ** numpy arrays and indexing *)

Abbreviation matrix := (list (list Z)).

Inductive ndarray :=
  | Vec (v : list Z)
  | Mat (m : matrix).

(** [np.arange(a, b)]. *)
Definition arange (a b : Z) : list Z :=
  (fun k : nat => a + Z.of_nat k) <$> seq 0 (Z.to_nat (b - a)).

(** An integer index into an axis of length [n]: negative indices count
    from the end, anything outside [-n, n) is an [IndexError]. *)
Definition wrap_index (n : nat) (i : Z) : option nat :=
  if decide (0 <= i < Z.of_nat n) then Some (Z.to_nat i)
  else if decide (- Z.of_nat n <= i < 0) then Some (Z.to_nat (i + Z.of_nat n))
  else None.

(** [x[idx]] for an integer index array on the first axis. *)
Definition np_take {A} (x : list A) (idx : list Z) : exn + list A :=
  or_raise IndexError "index is out of bounds"
    (mapM (fun i => wrap_index (length x) i ≫= (x !!.)) idx).

(** Broadcasting a value with [k] leading entries to [n] of them. *)
Definition broadcast {A} (n : nat) (p : list A) : exn + list A :=
  if decide (length p = n) then inr p
  else match p with
       | [v] => inr (replicate n v)
       | _ =>
           inl (Exn ValueError
                  "shape mismatch: value array could not be broadcast")
       end.

Definition set_cell (P : matrix) (r : nat) (c : Z) (v : Z) : option matrix :=
  row ← P !! r;
  j ← wrap_index (length row) c;
  Some (<[r := <[j := v]> row]> P).

(** Cells are written in order: when an index repeats, the last value
    stays. *)
Fixpoint set_cells (P : matrix) (cells : list (nat * Z * Z)) : option matrix :=
  match cells with
  | [] => Some P
  | (r, c, v) :: cs => P' ← set_cell P r c v; set_cells P' cs
  end.

(** [P[rows, col] = v] for an index array [rows], an integer [col] and a
    one-dimensional [v].  A failed assignment leaves [P] as it was. *)
Definition setitem_col (P : matrix) (rows : list Z) (col : Z) (v : list Z)
    : exn + matrix :=
  let? rs := or_raise IndexError "index is out of bounds"
               (mapM (wrap_index (length P)) rows) in
  let? vs := broadcast (length rs) v in
  or_raise IndexError "index is out of bounds"
    (set_cells P ((fun '(r, x) => (r, col, x)) <$> zip rs vs)).

(** [P[np.ix_(rows, cols)] = m] for a two-dimensional [m]. *)
Definition setitem_ix (P : matrix) (rows cols : list Z) (m : matrix)
    : exn + matrix :=
  let? rs := or_raise IndexError "index is out of bounds"
               (mapM (wrap_index (length P)) rows) in
  let? ms := broadcast (length rs) m in
  or_raise IndexError "index is out of bounds"
    (set_cells P
       (zip rs ms ≫= fun '(r, vals) =>
          (fun '(c, x) => (r, c, x)) <$> zip cols vals)).

(** [m.shape[1]] of a two-dimensional array. *)
Definition shape1 (m : matrix) : Z := Z.of_nat (length (hd [] m)).

(** [P[:, col] = v] and [P[:, cols] = m]: every row is addressed. *)
Definition all_rows (P : matrix) : list Z := arange 0 (Z.of_nat (length P)).

(** ** Index specifications and [_slice_array] *)

Inductive index_spec :=
  | Range (a b : Z)
  | Ranges (l : list (Z * Z)).

Definition resolve_index (idx : option index_spec) : exn + option (list Z) :=
  match idx with
  | None => inr None
  | Some (Ranges []) => inl (Exn IndexError "tuple index out of range")
  | Some (Ranges l) =>
      inr (Some (concat ((fun '(t0, t1) => arange t0 t1) <$> l)))
  | Some (Range a b) => inr (Some (arange a b))
  end.

Definition _slice_array (x : matrix) (y : option (list Z))
    (idx : option index_spec)
    : exn + (matrix * option (list Z) * option (list Z)) :=
  let? idx := resolve_index idx in
  let? x := match idx with
            | Some i => np_take x i
            | None => inr x
            end in
  let? y := match y with
            | Some yv =>
                match idx with
                | Some i => let? ys := np_take yv i in inr (Some ys)
                | None => inr (Some yv)
                end
            | None => inr None
            end in
  inr (x, y, idx).

(** ** Learnable objects

    The engine only calls [fit], [transform] and [predict] or
    [predict_proba]; each call returns or raises. *)

Record fitted_tr := FittedTr {
  tr_class : string;
  tr_transform : matrix -> exn + matrix }.

Record transformer := Transformer {
  tr_fit : matrix -> option (list Z) -> exn + fitted_tr }.

Record fitted_est := FittedEst {
  est_predict : matrix -> exn + ndarray;
  est_predict_proba : option (matrix -> exn + ndarray) }.

Record estimator := Estimator {
  est_fit : matrix -> option (list Z) -> exn + fitted_est }.

(** [getattr(est, attr)(x)]; [est] is [None] after a fit that failed under
    the non-raising policy. *)
Definition getattr_call (est : option fitted_est) (attr : string) (x : matrix)
    : exn + ndarray :=
  match est with
  | None =>
      inl (Exn AttributeError
             ("'NoneType' object has no attribute '" ++ attr ++ "'"))
  | Some f =>
      if String.eqb attr "predict" then est_predict f x
      else if String.eqb attr "predict_proba" then
        match est_predict_proba f with
        | Some g => g x
        | None =>
            inl (Exn AttributeError "object has no attribute 'predict_proba'")
        end
      else inl (Exn AttributeError ("object has no attribute '" ++ attr ++ "'"))
  end.

Definition scorer_t : Type := option (list Z) -> ndarray -> exn + Z.

(** ** The cache directory *)

Inductive payload :=
  | TPayload (steps : list (string * fitted_tr))
  | EPayload (inst_name : string) (est : option fitted_est)
             (idx : option index_spec * Z) (s : option Z).

(** [os.path.join(dir, f)]. *)
Definition path_join (dir f : string) : string :=
  if String.prefix "/" f then f
  else if String.eqb dir "" then f
  else if String.eqb (String.substring (String.length dir - 1)%nat 1 dir) "/"
       then dir ++ f
       else dir ++ "/" ++ f.

(** ** The world a task runs in

    [cache] holds the files written so far; [pending] lists files that other
    workers will have written at the given clock reading; [P] is the shared
    prediction matrix; [log] collects the warnings, oldest first. *)

Record world := World {
  cache : gmap string payload;
  pending : list (Z * string * payload);
  P : matrix;
  log : list warning;
  clock : Z }.

Definition with_P (w : world) (P' : matrix) : world :=
  World (cache w) (pending w) P' (log w) (clock w).

Definition with_cache (w : world) (c : gmap string payload) : world :=
  World c (pending w) (P w) (log w) (clock w).

Definition with_log (w : world) (l : list warning) : world :=
  World (cache w) (pending w) (P w) l (clock w).

(** The files visible at the current clock reading. *)
Definition fs (w : world) : gmap string payload :=
  foldl (fun m '(t, k, v) => if decide (t <= clock w) then <[k := v]> m else m)
        (cache w) (pending w).

Inductive outcome (A : Type) :=
  | Ok (a : A)
  | Raise (e : exn)
  | Diverge.
Arguments Ok {A} a.
Arguments Raise {A} e.
Arguments Diverge {A}.

Definition M (A : Type) : Type := world -> outcome A * world.

Definition ret {A} (a : A) : M A := fun w => (Ok a, w).

Definition bind {A B} (m : M A) (k : A -> M B) : M B :=
  fun w => match m w with
           | (Ok a, w') => k a w'
           | (Raise e, w') => (Raise e, w')
           | (Diverge, w') => (Diverge, w')
           end.

Notation "'let*' x ':=' m 'in' k" := (bind m (fun x => k))
  (at level 10, x pattern, m at level 100, k at level 200).

Definition raise {A} (e : exn) : M A := fun w => (Raise e, w).

Definition diverge {A} : M A := fun w => (Diverge, w).

Definition lift {A} (r : exn + A) : M A :=
  match r with
  | inl e => raise e
  | inr a => ret a
  end.

(** [try: m except classes: h]. *)
Definition try_except {A} (m : M A) (classes : list exn_class)
    (h : exn -> M A) : M A :=
  fun w => match m w with
           | (Raise e, w') =>
               if decide (exn_cls e ∈ classes) then h e w' else (Raise e, w')
           | r => r
           end.

Definition format (fmt : string) (args : list pyarg) : M string :=
  lift (py_format fmt args).

Definition warn (c : warn_class) (msg : string) : M unit :=
  fun w => (Ok tt, with_log w (log w ++ [Warning c msg])).

Definition time_ : M Z := fun w => (Ok (clock w), w).

(** [sleep(s)] lets exactly [s] ticks pass, and nothing else takes time: the
    clock is a logical one.  A real sleep lasts at least [s] and the
    statements between two sleeps take time too, so the readings of
    [time()] in the code lie above those of this clock: a count of polls or
    a clock reading obtained here is that of the idealised schedule, and a
    test [time() - ts > lim] that is an equality here ([n * s = lim]) is
    already true in the code. *)
Definition sleep (s : Z) : M unit :=
  if decide (s < 0) then
    raise (Exn ValueError "sleep length must be non-negative")
  else fun w =>
         (Ok tt, World (cache w) (pending w) (P w) (log w) (clock w + s)).

Definition os_path_exists (f : string) : M bool :=
  fun w => (Ok (bool_decide (is_Some (fs w !! f))), w).

(** Modelled from the spec: [pickle_load] and [pickle_save] of [mlens.utils]
    are the cache store's [load(key)], which fails with a not-found condition
    when the key is absent, and [save(key, payload)]. *)
Definition pickle_load (f : string) : M payload :=
  fun w => match fs w !! f with
           | Some v => (Ok v, w)
           | None =>
               (Raise (Exn FileNotFoundError
                         ("[Errno 2] No such file or directory: '" ++ f ++ "'")),
                w)
           end.

(** Modelled from the spec: see [pickle_load]. *)
Definition pickle_save (obj : payload) (f : string) : M unit :=
  fun w => (Ok tt, with_cache w (<[f := obj]> (cache w))).

Definition read_P : M matrix := fun w => (Ok (P w), w).

Definition write_P (P' : matrix) : M unit :=
  fun w => (Ok tt, with_P w P').

Definition case_arg (case : option string) : pyarg :=
  match case with
  | Some c => AStr c
  | None => ANone
  end.

(** ** Fault-wrapped stage functions *)

Definition load_error_msg : string :=
  "The file %s cannot be found after %i seconds of "
  ++ "waiting. Check that time to fit transformers is "
  ++ "sufficiently fast to complete fitting before "
  ++ "fitting estimators. Consider reducing the "
  ++ "preprocessing intensity in the ensemble, or "
  ++ "increase the '__lim__' attribute to wait extend "
  ++ "period of waiting on transformation to complete."
  ++ " Details:" ++ nl ++ "%r".

Definition wait_fmt : string :=
  "Transformer %s not found in cache (%s). "
  ++ "Will check every %.1f seconds for %i seconds "
  ++ "before aborting. ".

(** The polling loop of [_load_trans]: [while not os.path.exists(dir)].
    One unit of [fuel] is one test of the loop condition. *)
Fixpoint _load_trans_poll (fuel : nat) (dir : string) (case : option string)
    (s lim : Z) (msg : string) (raise_on_exception : bool) (ts : Z)
    : M payload :=
  match fuel with
  | O => diverge
  | S fuel' =>
      let* found := os_path_exists dir in
      if found : bool then pickle_load dir
      else
        let* _ := sleep s in
        let* now := time_ in
        if decide (now - ts > lim) then
          if raise_on_exception then
            let* m := format load_error_msg [AStr msg] in
            raise (Exn ParallelProcessingError m)
          else
            let* m := format wait_fmt
                        [case_arg case; AStr dir; ATime s; ATime lim] in
            let* _ := warn ParallelProcessingWarning m in
            let* ts' := time_ in
            _load_trans_poll fuel' dir case s lim msg true ts'
        else _load_trans_poll fuel' dir case s lim msg raise_on_exception ts
  end.

Definition _load_trans (fuel : nat) (dir : string) (case : option string)
    (ivals : Z * Z) (raise_on_exception : bool) : M payload :=
  let s := fst ivals in
  let lim := snd ivals in
  try_except (pickle_load dir) [FileNotFoundError; TypeError]
    (fun exc =>
       let msg := exn_msg exc in
       if raise_on_exception then
         let* m := format load_error_msg [AStr msg] in
         raise (Exn ParallelProcessingError m)
       else
         let* ts := time_ in
         _load_trans_poll fuel dir case s lim msg raise_on_exception ts).

Definition _fit_tr (x : matrix) (y : option (list Z)) (tr : transformer)
    (tr_name : string) (case layer_name : option string) : M fitted_tr :=
  match tr_fit tr x y with
  | inr f => ret f
  | inl e =>
      let s := _name layer_name case in
      let* m := format ("%sFitting transformer [%s] failed. Details:" ++ nl
                        ++ "%r")
                  [AStr s; AStr tr_name; AExn e] in
      raise (Exn FitFailedError m)
  end.

Definition _transform_tr (x : matrix) (tr : fitted_tr) (tr_name : string)
    (case layer_name : option string) : M matrix :=
  match tr_transform tr x with
  | inr x' => ret x'
  | inl e =>
      let s := _name layer_name case in
      let* m := format ("%sTransformation with transformer [%s] of type (%s) "
                        ++ "failed. Details:" ++ nl ++ "%r")
                  [AStr s; AStr tr_name; AClass (tr_class tr); AExn e] in
      raise (Exn FitFailedError m)
  end.

Definition _fit_est (x : matrix) (y : option (list Z)) (est : estimator)
    (raise_on_exception : bool) (inst_name : string)
    (case layer_name : option string) : M (option fitted_est) :=
  match est_fit est x y with
  | inr f => ret (Some f)
  | inl e =>
      let s := _name layer_name case in
      if raise_on_exception then
        let* m := format ("%sCould not fit estimator '%s'. Details:" ++ nl
                          ++ "%r")
                    [AStr s; AStr inst_name; AExn e] in
        raise (Exn FitFailedError m)
      else
        let* m := format ("%sCould not fit estimator '%s'. Will drop from "
                          ++ "ensemble. Details:" ++ nl ++ "%r")
                    [AStr s; AStr inst_name; AExn e] in
        let* _ := warn FitFailedWarning m in
        ret None
  end.

Definition _predict_est (x : matrix) (est : option fitted_est)
    (raise_on_exception : bool) (inst_name : string)
    (case name : option string) (attr : string) : M (option ndarray) :=
  match getattr_call est attr x with
  | inr p => ret (Some p)
  | inl e =>
      let s := _name name case in
      if raise_on_exception then
        let* m := format ("%sCould not call '%s' with estimator '%s'. "
                          ++ "Details:" ++ nl ++ "%r")
                    [AStr s; AStr attr; AStr inst_name; AExn e] in
        raise (Exn PredictFailedError m)
      else
        let* m := format ("%sCould not call '%s' with estimator '%s'. "
                          ++ "Predictions set to 0. Details:" ++ nl ++ "%r")
                    [AStr s; AStr attr; AStr inst_name; AExn e] in
        let* _ := warn PredictFailedWarning m in
        ret None
  end.

(** The loop [for tr_name, tr in tr_list: x = _transform_tr(...)], which the
    source repeats in [predict_est], [predict_fold_est] and twice in
    [fit_est]. *)
Fixpoint transform_loop (tr_list : list (string * fitted_tr)) (x : matrix)
    (case name : option string) : M matrix :=
  match tr_list with
  | [] => ret x
  | (tr_name, tr) :: rest =>
      let* x' := _transform_tr x tr tr_name case name in
      transform_loop rest x' case name
  end.

(** [p.shape] of the value a prediction wrapper returned. *)
Definition shape_of (p : option ndarray) : M ndarray :=
  match p with
  | Some a => ret a
  | None =>
      raise (Exn AttributeError "'NoneType' object has no attribute 'shape'")
  end.

(** The handle [pred] of a task: the shared matrix, or [None]. *)
Inductive pred_ref := SharedP.

Definition pred_shape0 (pred : option pred_ref) : M Z :=
  match pred with
  | Some SharedP => let* p := read_P in ret (Z.of_nat (length p))
  | None =>
      raise (Exn AttributeError "'NoneType' object has no attribute 'shape'")
  end.

(** [tei -= rebase] on the resolved index. *)
Definition isub (tei : option (list Z)) (rebase : Z) : M (list Z) :=
  match tei with
  | Some l => ret ((fun i => i - rebase) <$> l)
  | None =>
      raise (Exn TypeError
               "unsupported operand type(s) for -=: 'NoneType' and 'int'")
  end.

(** The two assignment branches on [len(p.shape)]: one column for a
    one-dimensional [p], the columns [col .. col + p.shape[1] - 1] otherwise. *)
Definition assign (P0 : matrix) (rows : list Z) (col : Z) (p : ndarray)
    : exn + matrix :=
  match p with
  | Vec v => setitem_col P0 rows col v
  | Mat m =>
      let cols := arange col (col + shape1 m) in
      setitem_ix P0 rows cols m
  end.

Definition assign_rows (rows : list Z) (col : Z) (p : ndarray) : M unit :=
  let* P0 := read_P in
  let* P1 := lift (assign P0 rows col p) in
  write_P P1.

(** A cached value read where a list of steps is iterated.  Files of steps
    end in [__t] and estimator files in [__e], so the other kind is never
    met; unpacking it fails. *)
Definition as_steps (v : payload) : M (list (string * fitted_tr)) :=
  match v with
  | TPayload steps => ret steps
  | EPayload _ _ _ _ =>
      raise (Exn ValueError "not enough values to unpack (expected 2)")
  end.

(** ** Tasks *)

Definition predict_est (case : option string)
    (tr_list : list (string * fitted_tr)) (inst_name : string)
    (est : option fitted_est) (xtest : matrix) (pred : pred_ref) (col : Z)
    (name : option string) (attr : string) : M unit :=
  let* xtest := transform_loop tr_list xtest case name in
  let* p := _predict_est xtest est true inst_name case name attr in
  let* a := shape_of p in
  let* P0 := read_P in
  assign_rows (all_rows P0) col a.

Definition predict_fold_est (case : option string)
    (tr_list : list (string * fitted_tr)) (inst_name : string)
    (est : option fitted_est) (xtest : matrix) (pred : pred_ref)
    (idx : option index_spec * Z) (name : option string) (attr : string)
    : M unit :=
  let tei := fst idx in
  let col := snd idx in
  let* (x, _, tei) := lift (_slice_array xtest None tei) in
  let* x := transform_loop tr_list x case name in
  let* p := _predict_est x est true inst_name case name attr in
  let* n := pred_shape0 (Some pred) in
  let rebase := Z.of_nat (length xtest) - n in
  let* tei := isub tei rebase in
  let* a := shape_of p in
  assign_rows tei col a.

(** The loop of [fit_trans]; [multi] is [len(inst) > 1]. *)
Fixpoint fit_trans_loop (multi : bool) (inst : list (string * transformer))
    (x : matrix) (y : option (list Z)) (case name : option string)
    : M (list (string * fitted_tr)) :=
  match inst with
  | [] => ret []
  | (tr_name, tr) :: rest =>
      let* tr := _fit_tr x y tr tr_name case name in
      let* x := if multi then _transform_tr x tr tr_name case name
                else ret x in
      let* out := fit_trans_loop multi rest x y case name in
      ret ((tr_name, tr) :: out)
  end.

Definition fit_trans (dir : string) (case : option string)
    (inst : list (string * transformer)) (X : matrix) (y : list Z)
    (idx : option index_spec) (name : option string) : M unit :=
  let* (x, y, _) := lift (_slice_array X (Some y) idx) in
  let* out := fit_trans_loop (bool_decide (1 < length inst)%nat) inst x y
                case name in
  let* k := format "%s__t" [case_arg case] in
  pickle_save (TPayload out) (path_join dir k).

Definition try_score (scorer : option scorer_t) (z : option (list Z))
    (p : ndarray) : option Z :=
  match scorer with
  | Some f => match f z p with
              | inr s => Some s
              | inl _ => None
              end
  | None => None
  end.

Definition fit_est (fuel : nat) (dir : string) (case : option string)
    (inst_name : string) (inst : estimator) (X : matrix) (y : list Z)
    (pred : option pred_ref)
    (idx : option index_spec * option index_spec * Z)
    (raise_on_exception preprocess : bool) (name : option string)
    (ivals : Z * Z) (attr : string) (scorer : option scorer_t) : M unit :=
  let '(idx0, idx1, idx2) := idx in
  let* (x, z, _) := lift (_slice_array X (Some y) idx0) in
  let* tr_list :=
    if preprocess then
      let* k := format "%s__t" [case_arg case] in
      let* v := _load_trans fuel (path_join dir k) case ivals
                  raise_on_exception in
      as_steps v
    else ret [] in
  let* x := transform_loop tr_list x case name in
  let* est := _fit_est x z inst raise_on_exception inst_name case name in
  let* (idx, s) :=
    match idx1 with
    | Some _ =>
        let tei := idx1 in
        let col := idx2 in
        let* (x, z, tei) := lift (_slice_array X (Some y) tei) in
        let* x := transform_loop tr_list x case name in
        let* p := _predict_est x est raise_on_exception inst_name case name
                    attr in
        let* n := pred_shape0 pred in
        let rebase := Z.of_nat (length X) - n in
        let* tei := isub tei rebase in
        let* a := shape_of p in
        let* _ := assign_rows tei col a in
        let s := try_score scorer z a in
        ret ((idx1, idx2), s)
    | None => ret ((None, idx2), None)
    end in
  let* k := format "%s__%s__e" [case_arg case; AStr inst_name] in
  pickle_save (EPayload inst_name est idx s) (path_join dir k).

(** What the combined loop hands to [_fit]: a wrapped list of steps or an
    estimator. *)
Inductive instance :=
  | ITrans (l : list (string * transformer))
  | IEst (e : estimator).

(** [_fit] forwards the keywords its target declares.  The caller
    never supplies [attr], which [fit_est] requires. *)
Definition _fit (dir : string) (case : option string) (inst_name : string)
    (inst : instance) (X : matrix) (y : list Z) (tri : option index_spec)
    (name : option string) : M unit :=
  if String.eqb inst_name "__trans__" then
    match inst with
    | ITrans l => fit_trans dir case l X y tri name
    | IEst _ => raise (Exn TypeError "object is not iterable")
    end
  else
    raise (Exn TypeError
             "fit_est() missing 1 required positional argument: 'attr'").

(** ** Loading fitted instances: the two branches of [_assemble] *)

Fixpoint map_M {A B} (f : A -> M B) (l : list A) : M (list B) :=
  match l with
  | [] => ret []
  | a :: rest =>
      let* b := f a in
      let* bs := map_M f rest in
      ret (b :: bs)
  end.

(** [parallel(task for ...)]: the tasks in generator order. *)
Fixpoint for_each {A} (f : A -> M unit) (l : list A) : M unit :=
  match l with
  | [] => ret tt
  | a :: rest => let* _ := f a in for_each f rest
  end.

Definition t_item : Type :=
  option string * option index_spec * option index_spec
  * list (string * transformer).

Definition e_item : Type :=
  option string * option index_spec * option index_spec
  * list (string * estimator).

Definition est_info : Type :=
  string * option fitted_est * (option index_spec * Z).

Definition est_entry : Type := option string * est_info.

(** [suffix is 't']. *)
Definition _assemble_t (dir : string) (instance_list : option (list t_item))
    : M (option (list (option string * payload))) :=
  match instance_list with
  | None => ret None
  | Some l =>
      let* r := map_M (fun tup : t_item =>
                         let '(case, _, _, _) := tup in
                         let* k := format "%s__%s" [case_arg case; AStr "t"] in
                         let* v := pickle_load (path_join dir k) in
                         ret (case, v)) l in
      ret (Some r)
  end.

(** [loaded[:-1]] and [loaded[-1]] of an estimator file. *)
Definition split_loaded (v : payload) : M (est_info * option Z) :=
  match v with
  | EPayload n est idx s => ret ((n, est, idx), s)
  | TPayload _ => raise (Exn TypeError "not an estimator entry")
  end.

(** The other branch. *)
Definition _assemble_e (dir : string) (instance_list : list e_item)
    : M (list est_entry * list (string * option Z)) :=
  let* r := map_M (fun '(case, etup0) =>
                     let* k := format "%s__%s__%s"
                                 [case_arg case; AStr etup0; AStr "e"] in
                     let* loaded := pickle_load (path_join dir k) in
                     let* (info, s) := split_loaded loaded in
                     let* c := match case with
                               | Some _ => format "%s___" [case_arg case]
                               | None => ret "___"
                               end in
                     ret ((case, info), (c ++ etup0, s)))
              (instance_list ≫= fun tup : e_item =>
                 let '(case, _, _, insts) := tup in
                 (fun etup : string * estimator => (case, fst etup)) <$> insts)
  in
  ret (fst <$> r, snd <$> r).

(** ** Strings and dictionaries of the score table *)

(** [s.split(sep)] for a non-empty [sep]: cut at the leftmost occurrences.
    [skip] counts the characters of a separator still to be passed over and
    [cur] is the piece read so far. *)
Fixpoint split_go (sep : string) (skip : nat) (cur s : string) : list string :=
  match s with
  | EmptyString => [cur]
  | String ch rest =>
      match skip with
      | S k => split_go sep k cur rest
      | O =>
          if String.prefix sep s then
            cur :: split_go sep (String.length sep - 1)%nat "" rest
          else split_go sep 0 (cur ++ String ch "") rest
      end
  end.

Definition py_split (sep s : string) : list string := split_go sep 0 "" s.

(** [sep.join(parts)]. *)
Fixpoint py_join (sep : string) (parts : list string) : string :=
  match parts with
  | [] => ""
  | [p] => p
  | p :: rest => p ++ sep ++ py_join sep rest
  end.

(** [sub in s]. *)
Fixpoint py_in (sub s : string) : bool :=
  String.prefix sub s
  || match s with
     | EmptyString => false
     | String _ rest => py_in sub rest
     end.

(** [a, b = parts]. *)
Definition unpack2 (parts : list string) : exn + (string * string) :=
  match parts with
  | [a; b] => inr (a, b)
  | [] | [_] => inl (Exn ValueError "not enough values to unpack (expected 2)")
  | _ => inl (Exn ValueError "too many values to unpack (expected 2)")
  end.

(** [l[:-1]]. *)
Definition init {A} (l : list A) : list A := take (length l - 1)%nat l.

(** A [dict] keeps its keys in insertion order; assignment to a present key
    keeps its place. *)
Fixpoint dict_set {V} (k : string) (v : V) (d : list (string * V))
    : list (string * V) :=
  match d with
  | [] => [(k, v)]
  | (k', v') :: rest =>
      if String.eqb k k' then (k, v) :: rest
      else (k', v') :: dict_set k v rest
  end.

Fixpoint dict_get {V} (k : string) (d : list (string * V)) : option V :=
  match d with
  | [] => None
  | (k', v') :: rest => if String.eqb k k' then Some v' else dict_get k rest
  end.

(** ** Score reduction *)

(** The values of [np.mean(v)] and [np.std(v)], kept as terms. *)
Inductive npval :=
  | np_mean (v : list Z)
  | np_std (v : list Z).

(** [np.mean(v), np.std(v)]: arithmetic on a [None] is a [TypeError]. *)
Definition np_mean_std (v : list (option Z)) : exn + (npval * npval) :=
  match mapM id v with
  | Some nums => inr (np_mean nums, np_std nums)
  | None =>
      inl (Exn TypeError "unsupported operand type(s) for +: 'NoneType'")
  end.

Definition _mean_score (v : list (option Z)) (raise_ : bool) (k : string)
    (layer_name : option string) : M (option (npval * npval)) :=
  match np_mean_std v with
  | inr r => ret (Some r)
  | inl e =>
      let s := _name layer_name None in
      let* msg := format ("%sCould not score instance %s. Details" ++ nl
                          ++ "%r")
                    [AStr s; AStr k; AExn e] in
      if raise_ then raise (Exn ParallelProcessingError msg)
      else
        let* _ := warn ParallelProcessingWarning msg in
        ret None
  end.

(** ** The layer and the estimation engine *)

Inductive est_container :=
  | EList (l : list est_entry)
  | EDict (d : list (string * list est_entry))
  | EOther (l : list est_entry).

Definition score_table : Type := list (string * option (npval * npval)).

Module Layer.

Record t := mk {
  name : option string;
  verbose : Z;
  raise_on_exception : bool;
  proba : bool;
  scorer : option scorer_t;
  ival : option Z;
  lim : option Z;
  n_pred : nat;
  n_prep : nat;
  cls : string;
  preprocessing_ : option (list (option string * payload));
  estimators_ : option est_container;
  scores_ : option score_table }.

Definition set_raise_on_exception (b : bool) (l : t) : t :=
  mk (name l) (verbose l) b (proba l) (scorer l) (ival l) (lim l) (n_pred l)
     (n_prep l) (cls l) (preprocessing_ l) (estimators_ l) (scores_ l).

Definition set_fitted (prep : option (list (option string * payload)))
    (ests : est_container) (s : option score_table) (l : t) : t :=
  mk (name l) (verbose l) (raise_on_exception l) (proba l) (scorer l)
     (ival l) (lim l) (n_pred l) (n_prep l) (cls l) prep (Some ests)
     (match s with
      | Some _ => s
      | None => scores_ l
      end).

End Layer.

(** Modelled from the spec: [check_is_fitted] of [mlens.utils] fails with
    [NotFittedError] when [predict] or [transform] is invoked on a layer
    whose [estimators_] was never set. *)
Definition check_is_fitted (l : Layer.t) : M est_container :=
  match Layer.estimators_ l with
  | Some c => ret c
  | None =>
      raise (Exn NotFittedError "This instance is not fitted yet.")
  end.

(** [self.layer.estimators_], read as an attribute. *)
Definition get_estimators_ (l : Layer.t) : M est_container :=
  match Layer.estimators_ l with
  | Some c => ret c
  | None =>
      raise (Exn AttributeError
               "'Layer' object has no attribute 'estimators_'")
  end.

Definition c_key : Type := option string * string.

(** [_strip(cases, fitted_estimators)]. *)
Definition _strip (cases : list (option string))
    (fitted_estimators : list est_entry) : list est_entry :=
  filter (fun tup => tup.1 ∈ cases) fitted_estimators.

(** [_wrap(folded_list)]. *)
Definition _wrap (folded_list : list t_item)
    : list (option string * option index_spec * option index_spec
            * list (string * instance)) :=
  (fun tup : t_item =>
     let '(case, tri, tei, instance_list) := tup in
     (case, tri, None, [("__trans__", ITrans instance_list)]))
  <$> folded_list.

(** The nested generator [for case, tri, tei, l in items for n, i in l]. *)
Definition tasks_of {I} (items : list (option string * option index_spec
                                       * option index_spec * list (string * I)))
    : list (option string * option index_spec * option index_spec * string * I) :=
  items ≫= fun '(case, tri, tei, l) =>
    (fun '(n, i) => (case, tri, tei, n, i)) <$> l.

Module BaseEstimator.

Record slots := mk {
  verbose : Z;
  layer : Layer.t;
  raise_ : bool;
  name : option string;
  proba : bool;
  ivals : Z * Z;
  dual : bool;
  e : list e_item;
  t : option (list t_item);
  c : gmap c_key Z;
  scorer : option scorer_t }.

(** [__init__]; the lists and the column ids come from the subclass's
    [_format_instance_list] and [_get_col_id].  Clock readings count tenths
    of a second, so the defaults 0.1 and 600 read 1 and 6000. *)
Definition __init__ (layer : Layer.t) (dual : bool)
    (_format_instance_list : list e_item * option (list t_item))
    (_get_col_id : gmap c_key Z) : slots :=
  mk (Layer.verbose layer) layer (Layer.raise_on_exception layer)
     (Layer.name layer) (Layer.proba layer)
     (default 1 (Layer.ival layer), default 6000 (Layer.lim layer))
     dual (fst _format_instance_list) (snd _format_instance_list)
     _get_col_id (Layer.scorer layer).

Definition with_layer (s : slots) (l : Layer.t) : slots :=
  mk (verbose s) l (raise_ s) (name s) (proba s) (ivals s) (dual s) (e s)
     (t s) (c s) (scorer s).

(** The two loops of [_build_scores] that fill [scores]. *)
Fixpoint shell (s : list (string * option Z))
    (scores : list (string * list (option Z)))
    : exn + list (string * list (option Z)) :=
  match s with
  | [] => inr scores
  | (k, v) :: rest =>
      let? (case_name, est_name) := unpack2 (py_split "___" k) in
      let name := if String.eqb case_name "" then est_name
                  else case_name ++ "__" ++ est_name in
      shell rest (dict_set name [] scores)
  end.

Fixpoint populate (s : list (string * option Z))
    (scores : list (string * list (option Z)))
    : exn + list (string * list (option Z)) :=
  match s with
  | [] => inr scores
  | (k, v) :: rest =>
      let? (case_name, est_name) := unpack2 (py_split "___" k) in
      let est_name := py_join "__" (init (py_split "__" est_name)) in
      let name := if negb (py_in "__" case_name) then est_name
                  else hd "" (py_split "__" case_name) ++ "__" ++ est_name in
      let? l := or_raise KeyError ("'" ++ name ++ "'") (dict_get name scores) in
      populate rest (dict_set name (l ++ [v])%list scores)
  end.

Definition _build_scores (self : slots) (s : list (string * option Z))
    : M score_table :=
  let n_pred := Layer.n_pred (layer self) in
  let* scores := lift (shell (take n_pred s) []) in
  let* scores := lift (populate (drop n_pred s) scores) in
  map_M (fun '(k, v) =>
           let* r := _mean_score v (raise_ self) k (name self) in
           ret (k, r))
        scores.

Definition _assemble (self : slots) (dir : string) : M slots :=
  let* prep := _assemble_t dir (t self) in
  let* (ests, s) := _assemble_e dir (e self) in
  let* sc :=
    if bool_decide (is_Some (scorer self))
       && negb (String.eqb (Layer.cls (layer self)) "full")
    then let* r := _build_scores self s in ret (Some r)
    else ret None in
  ret (with_layer self (Layer.set_fitted prep (EList ests) sc (layer self))).

Definition c_lookup (self : slots) (case : option string) (inst_name : string)
    : M Z :=
  lift (or_raise KeyError ("(" ++ py_repr (case_arg case) ++ ", '"
                           ++ inst_name ++ "')")
          (c self !! (case, inst_name))).

Definition fit (fuel : nat) (self : slots) (X : matrix) (y : list Z)
    (dir : string) : M slots :=
  let pred_method := if proba self then "predict_proba" else "predict" in
  let preprocess := bool_decide (is_Some (t self)) in
  let y := if decide (length X < length y)%nat
           then drop (length y - length X) y else y in
  let* _ :=
    if dual self then
      let* _ :=
        match t self with
        | Some tl =>
            for_each (fun tup : t_item =>
                        let '(case, tri, _, instance_list) := tup in
                        fit_trans dir case instance_list X y tri (name self))
                     tl
        | None => ret tt
        end in
      for_each (fun '(case, tri, tei, inst_name, instance) =>
                  let* col := c_lookup self case inst_name in
                  fit_est fuel dir case inst_name instance X y
                    (match tei with
                     | Some _ => Some SharedP
                     | None => None
                     end)
                    (tri, tei, col) (raise_ self) preprocess (name self)
                    (ivals self) pred_method (scorer self))
               (tasks_of (e self))
    else
      match t self with
      | None => raise (Exn TypeError "'NoneType' object is not iterable")
      | Some tl =>
          for_each (fun '(case, tri, tei, inst_name, instance) =>
                      let* _ := if negb (String.eqb inst_name "__trans__")
                                then c_lookup self case inst_name
                                else ret 0 in
                      _fit dir case inst_name instance X y tri
                        (Layer.name (layer self)))
                   (tasks_of
                      (_wrap tl
                       ++ ((fun tup : e_item =>
                              let '(case, tri, tei, l) := tup in
                              (case, tri, tei,
                               (fun '(n, i) => (n, IEst i)) <$> l))
                           <$> e self))%list)
      end in
  _assemble self dir.

Definition _check_fitted (self : slots) : M unit :=
  let* ests := check_is_fitted (layer self) in
  let* empty :=
    match ests with
    | EList l => ret (Some (bool_decide (length l = 0%nat)))
    | EDict d =>
        ret (Some (existsb (fun '(_, e) => bool_decide (length e = 0%nat)) d))
    | EOther _ => ret None
    end in
  match empty with
  | Some true =>
      raise (Exn NotFittedError
               "Cannot predict as no estimators weresuccessfully fitted.")
  | _ => ret tt
  end.

(** [dict(pairs)[case]]: the last pair with the key wins. *)
Definition prep_lookup (prep : list (option string * payload))
    (case : option string) : M payload :=
  lift (or_raise KeyError (py_repr (case_arg case))
          (snd <$> last (filter (fun kv => kv.1 = case) prep))).

(** [seq[a:b]] of the container; a dict cannot be sliced. *)
Definition slice_container (ests : est_container)
    (f : list est_entry -> list est_entry) : M (list est_entry) :=
  match ests with
  | EList l | EOther l => ret (f l)
  | EDict _ => raise (Exn TypeError "unhashable type: 'slice'")
  end.

Definition _retrieve (self : slots) (s : string)
    : M (option (list (option string * payload)) * list est_entry) :=
  let n_pred := Layer.n_pred (layer self) in
  let n_prep := Nat.max (Layer.n_prep (layer self)) 1 in
  let* ests := get_estimators_ (layer self) in
  if String.eqb s "full" then
    let* ests := slice_container ests (take n_pred) in
    ret (take n_prep <$> Layer.preprocessing_ (layer self), ests)
  else if String.eqb s "fold" then
    let* ests := slice_container ests (drop n_pred) in
    ret (drop n_prep <$> Layer.preprocessing_ (layer self), ests)
  else
    raise (Exn ValueError ("Argument not understood. Only 'full' and 'fold' "
                           ++ "are acceptable argument values.")).

Definition tr_list_of (prep : option (list (option string * payload)))
    (case : option string) : M (list (string * fitted_tr)) :=
  match prep with
  | Some d => let* v := prep_lookup d case in as_steps v
  | None => ret []
  end.

Definition predict (self : slots) (X : matrix) : M unit :=
  let* _ := _check_fitted self in
  let pred_method := if proba self then "predict_proba" else "predict" in
  let* (prep, ests) := _retrieve self "full" in
  for_each (fun entry : est_entry =>
              let '(case, (inst_name, est, (_, col))) := entry in
              let* tr_list := tr_list_of prep case in
              predict_est case tr_list inst_name est X SharedP col (name self)
                pred_method)
           ests.

Definition transform (self : slots) (X : matrix) : M unit :=
  let* _ := _check_fitted self in
  let pred_method := if proba self then "predict_proba" else "predict" in
  let* (prep, ests) := _retrieve self "fold" in
  for_each (fun entry : est_entry =>
              let '(case, (est_name, est, idx)) := entry in
              let* tr_list := tr_list_of prep case in
              predict_fold_est case tr_list est_name est X SharedP idx
                (name self) pred_method)
           ests.

End BaseEstimator.

(** ** Reading the results of a run *)

(** The class of the exception a run ended with, if any. *)
Definition raised_class {A} (r : outcome A * world) : option exn_class :=
  match r.1 with
  | Raise e => Some (exn_cls e)
  | _ => None
  end.

(** The categories of the warnings in a world's log, oldest first. *)
Definition warned (w : world) : list warn_class := warn_cls <$> log w.

(** The rows [a .. b-1] of [x], in order. *)
Definition rows_between {A} (x : list A) (a b : Z) : list A :=
  take (Z.to_nat (b - a)) (drop (Z.to_nat a) x).

(** A chain of fitted steps applied to [x]: the transformed data, or the
    first step that raised with what it raised. *)
Fixpoint apply_steps (tr_list : list (string * fitted_tr)) (x : matrix)
    : (string * fitted_tr * exn) + matrix :=
  match tr_list with
  | [] => inr x
  | (tr_name, tr) :: rest =>
      match tr_transform tr x with
      | inl e => inl (tr_name, tr, e)
      | inr x' => apply_steps rest x'
      end
  end.

(** The fits (and, for a pipeline of several steps, the transforms) of
    [fit_trans], without the wrappers: the fitted steps, or what the first
    failing call raised. *)
Fixpoint fit_chain (multi : bool) (inst : list (string * transformer))
    (x : matrix) (y : option (list Z)) : exn + list (string * fitted_tr) :=
  match inst with
  | [] => inr []
  | (tr_name, tr) :: rest =>
      let? f := tr_fit tr x y in
      let? x' := if multi then tr_transform f x else inr x in
      let? out := fit_chain multi rest x' y in
      inr ((tr_name, f) :: out)
  end.

(** The cell [P[r, c]]. *)
Definition cell (P : matrix) (r : nat) (c : Z) : option Z :=
  row ← P !! r; j ← wrap_index (length row) c; row !! j.

(** ** What a computation leaves untouched

    [preserves f m]: the component [f] of the world is the same after [m],
    however [m] ends. *)

Definition preserves {A B} (f : world -> B) (m : M A) : Prop :=
  forall w, f (m w).2 = f w.

(** ** The layout of the cache *)

(** The key schemes of the cache entries, inside the directory [dir]: the
    case name followed by [__t] for the steps of a case, and the case name,
    [__], the instance name and [__e] for an estimator.  A case that is
    [None] is written [None]. *)
Definition tkey (dir : string) (case : option string) : string :=
  path_join dir (py_str (case_arg case) ++ "__t").

Definition ekey (dir : string) (case : option string) (inst_name : string)
    : string :=
  path_join dir (py_str (case_arg case) ++ "__" ++ inst_name ++ "__e").

(** The fitted object a task caches for [inst]: what [inst.fit] returned on
    some data, or [None] when it raised and the policy is not to raise. *)
Definition fitted_by (inst : estimator) (raise_on_exception : bool)
    (est : option fitted_est) : Prop :=
  exists x z,
    match est_fit inst x z with
    | inr f => est = Some f
    | inl _ => est = None /\ raise_on_exception = false
    end.

(** A view of the world that only depends on the files. *)
Definition file_view {C} (f : world -> C) : Prop :=
  forall w P' l c, f (World (cache w) (pending w) P' l c) = f w.

(** The key of a score: the case, [___] and the instance name. *)
Definition score_key (case : option string) (inst_name : string) : string :=
  match case with
  | Some c => (c ++ "___") ++ inst_name
  | None => "___" ++ inst_name
  end.

(** ** Score aggregation *)

(** The table [_build_scores] returns for the grouped scores when it does
    not raise: every key, with [None] where the reduction failed. *)
Definition reduce_table (groups : list (string * list (option Z)))
    : score_table :=
  (fun '(k, v) => (k, match np_mean_std v with
                      | inr r => Some r
                      | inl _ => None
                      end)) <$> groups.

(** A group whose reduction to (mean, std) fails. *)
Definition fails (g : string * list (option Z)) : Prop :=
  exists e, np_mean_std g.2 = inl e.

(** The grouping of [_build_scores]: its first two loops. *)
Definition grouped (self : BaseEstimator.slots) (s : list (string * option Z))
    : exn + list (string * list (option Z)) :=
  let n_pred := Layer.n_pred (BaseEstimator.layer self) in
  let? scores := BaseEstimator.shell (take n_pred s) [] in
  BaseEstimator.populate (drop n_pred s) scores.

#[global] Instance fails_dec g : Decision (fails g).
Proof.
  unfold fails. destruct (np_mean_std g.2) as [e|r].
  - left. by exists e.
  - right. by intros [e He].
Defined.

(** ** Sample objects *)

Module Sample.

(** Predicts the first feature of every row. *)
Definition first_col : fitted_est :=
  FittedEst (fun x => inr (Vec (hd 0 <$> x))) None.

(** Fits on anything. *)
Definition good_est : estimator := Estimator (fun _ _ => inr first_col).

(** Never fits. *)
Definition bad_est : estimator :=
  Estimator (fun _ _ => inl (Exn ValueError "cannot fit")).

(** Fits on three rows or more only. *)
Definition needs3_est : estimator :=
  Estimator (fun x _ => if decide (3 <= length x)%nat then inr first_col
                        else inl (Exn ValueError "too few samples")).

(** Fits, then cannot predict. *)
Definition mute : fitted_est :=
  FittedEst (fun _ => inl (Exn RuntimeError "cannot predict")) None.
Definition mute_est : estimator := Estimator (fun _ _ => inr mute).

(** Adds one to every entry. *)
Definition plus1 : fitted_tr :=
  FittedTr "Plus1" (fun x => inr (map (map (Z.add 1)) x)).
Definition plus1_tr : transformer := Transformer (fun _ _ => inr plus1).

(** Fits, then cannot transform; and one that cannot fit. *)
Definition stuck : fitted_tr :=
  FittedTr "Stuck" (fun _ => inl (Exn ValueError "cannot transform")).
Definition unfit_tr : transformer :=
  Transformer (fun _ _ => inl (Exn ValueError "cannot fit")).

Definition X : matrix := [[1]; [2]; [3]].
Definition y : list Z := [1; 0; 1].
Definition X7 : matrix := [[10]; [11]; [12]; [13]; [14]; [15]; [16]].
Definition y7 : list Z := [0; 1; 2; 3; 4; 5; 6].

(** An empty cache, and a prediction matrix of zeros with two columns. *)
Definition w0 : world := World ∅ [] [[0; 0]; [0; 0]; [0; 0]] [] 0.

(** The same with only the two most recent rows. *)
Definition w_short : world := World ∅ [] [[0; 0]; [0; 0]] [] 0.

(** A cache that holds the steps of case [c]. *)
Definition w_steps (steps : list (string * fitted_tr)) : world :=
  World {[ tkey "cache" (Some "c") := TPayload steps ]} []
        [[0; 0]; [0; 0]; [0; 0]] [] 0.

(** The transformer file of case [c] is being written by another worker and
    lands at clock reading 5. *)
Definition w_late : world :=
  World ∅ [(5, tkey "cache" (Some "c"), TPayload [("plus1", plus1)])]
        [[0; 0]; [0; 0]; [0; 0]] [] 0.

Definition mean_scorer : scorer_t := fun _ _ => inr 1.

Definition layer (raise_on_exception : bool) (scorer : option scorer_t)
    (n_pred : nat) : Layer.t :=
  Layer.mk (Some "layer-1") 0 raise_on_exception false scorer None None n_pred
           0 "stack" None None None.

Definition cols : gmap c_key Z :=
  <[(None, "good") := 0]> (<[(None, "bad") := 1]>
  (<[(None, "good__0") := 0]> (<[(None, "picky") := 1]>
  (<[(None, "picky__0") := 1]> ∅)))).

(** One case without preprocessing and two estimators fitted on all the
    data; [bad] cannot be fitted. *)
Definition engine_full : BaseEstimator.slots :=
  BaseEstimator.__init__ (layer false None 2) true
    ([(None, None, None, [("good", good_est); ("bad", bad_est)])], None) cols.

(** Two estimators fitted on all the data and once more on the fold that
    trains on rows 1 and 2 and predicts row 0; [picky] cannot be fitted on
    the two rows of the fold. *)
Definition engine_fold : BaseEstimator.slots :=
  BaseEstimator.__init__ (layer false None 2) true
    ([(None, None, None, [("good", good_est); ("picky", needs3_est)]);
      (None, Some (Range 1 3), Some (Range 0 1),
       [("good__0", good_est); ("picky__0", needs3_est)])], None) cols.

Definition entry (n : string) : est_entry :=
  (None, (n, Some first_col, (None, 0))).

(** A layer whose [estimators_] is a dict with a fitted group and an empty
    one, and the plain lists. *)
Definition engine_with (ests : est_container) : BaseEstimator.slots :=
  BaseEstimator.__init__
    (Layer.mk (Some "layer-1") 0 false false None None None 1 0 "stack" None
              (Some ests) None)
    true ([], None) cols.

(** Scores of one estimator without preprocessing: the full fit first, then
    two folds, none of which could be scored. *)
Definition unscored : list (string * option Z) :=
  [("___est", None); ("___est__0", None); ("___est__1", None)].

Definition engine_scores (raise_on_exception : bool) : BaseEstimator.slots :=
  BaseEstimator.__init__ (layer raise_on_exception (Some mean_scorer) 1) true
    ([], None) cols.

End Sample.

(** The instances listed in [estimators_], with whether each entry holds a
    fitted object. *)
Definition listed (l : Layer.t) : list (option string * string * bool) :=
  match Layer.estimators_ l with
  | Some (EList es) | Some (EOther es) =>
      (fun e : est_entry => (e.1, e.2.1.1, bool_decide (is_Some e.2.1.2))) <$> es
  | _ => []
  end.

(** ** Waiting for the transformers of a case *)

(** The file [f] is not in the cache and no worker is going to write it. *)
Definition never_written (w : world) (f : string) : bool :=
  match cache w !! f with
  | None => forallb (fun e : Z * string * payload => negb (String.eqb e.1.2 f))
                    (pending w)
  | Some _ => false
  end.

(** The world after [d] ticks of sleep. *)
Definition tick (w : world) (d : Z) : world :=
  World (cache w) (pending w) (P w) (log w) (clock w + d).

(** The number of polls in one timeout window: the first whose elapsed time
    exceeds [lim]. *)
Definition polls (s lim : Z) : nat := S (Z.to_nat (lim / s)).

(** The text of the warning of [_load_trans]. *)
Definition wait_msg (case : option string) (dir : string) (s lim : Z)
    : string :=
  match py_format wait_fmt [case_arg case; AStr dir; ATime s; ATime lim] with
  | inr m => m
  | inl _ => ""
  end.

(** ** Further views of a run *)

(** The dimensions of a matrix: the length of each of its rows. *)
Definition shape (m : matrix) : list nat := length <$> m.

(** A view of the world that depends neither on the log nor on the clock. *)
Definition quiet_view {C} (f : world -> C) : Prop :=
  forall w l c, f (World (cache w) (pending w) (P w) l c) = f w.

(** The row indices an index specification resolves to (none when it
    cannot be resolved). *)
Definition held_out (tei : option index_spec) : list Z :=
  match resolve_index tei with
  | inr (Some l) => l
  | _ => []
  end.

(** What a run did to the matrix of [w0]: nothing, or one assignment of some
    prediction at [rows] and [col]. *)
Definition wrote_at {A} (w0 : world) (rows : list Z) (col : Z)
    (r : outcome A * world) : Prop :=
  P r.2 = P w0 \/ exists p, assign (P w0) rows col p = inr (P r.2).

(** A computation that always ends: it returns or it raises. *)
Definition ends {A} (m : M A) : Prop := forall w, (m w).1 <> Diverge.

(** ** Further sample objects *)

Module Fixtures.

(** The engine of [Sample.engine_full] with the combined loop of [fit]
    ([dual] off), without and with a list of preprocessing cases. *)
Definition engine_combined (t : option (list t_item)) : BaseEstimator.slots :=
  BaseEstimator.mk 0 (Sample.layer false None 1) false (Some "layer-1") false
    (1, 6000) false [(None, None, None, [("good", Sample.good_est)])] t
    Sample.cols None.

(** One estimator fitted on all the data, no preprocessing, no scorer. *)
Definition engine_one : BaseEstimator.slots :=
  BaseEstimator.mk 0 (Sample.layer false None 1) false (Some "layer-1") false
    (1, 6000) true [(None, None, None, [("good", Sample.good_est)])] None
    Sample.cols None.

(** One case [c] with one step and one estimator, both fitted on all the
    data. *)
Definition engine_prep : BaseEstimator.slots :=
  BaseEstimator.mk 0 (Sample.layer false None 1) false (Some "layer-1") false
    (1, 6000) true [(Some "c", None, None, [("good", Sample.good_est)])]
    (Some [(Some "c", None, None, [("plus1", Sample.plus1_tr)])])
    {[ (Some "c", "good") := 0 ]} None.

(** Fits to a step that cannot transform. *)
Definition stuck_tr : transformer := Transformer (fun _ _ => inr Sample.stuck).

(** Scores of one estimator without preprocessing: the full fit first, then
    two folds. *)
Definition scored : list (string * option Z) :=
  [("___est", Some 1); ("___est__0", Some 2); ("___est__1", Some 3)].

End Fixtures.

(** ** A file that another worker is writing *)

(** The files visible in the cache of [w] when the clock reads [c]. *)
Definition fs_at (w : world) (c : Z) : gmap string payload :=
  fs (World (cache w) (pending w) (P w) (log w) c).

(** The file [f] is absent until the clock reads [t0] and holds [v] from
    then on. *)
Definition arrives (w : world) (f : string) (t0 : Z) (v : payload) : Prop :=
  forall c, fs_at w c !! f = if decide (t0 <= c) then Some v else None.

(** ** What a call may add *)

(** [w'] comes after [w]: the files of [w] are still there (possibly
    rewritten), the clock has not gone back, the warnings of [w] are the
    first warnings of [w'], and the writes of the other workers are as
    announced. *)
Definition extends (w w' : world) : Prop :=
  pending w' = pending w
  /\ dom (cache w) ⊆ dom (cache w')
  /\ clock w <= clock w'
  /\ log w `prefix_of` log w'.

(** [m] only ever adds: the world after it comes after the world before. *)
Definition grows {A} (m : M A) : Prop := forall w, extends w (m w).2.

(** The call came to an end: it returned or it raised. *)
Definition ended {A} (o : outcome A) : bool :=
  match o with
  | Diverge => false
  | _ => true
  end.

(** ** The tasks of a fit and the entries of the fitted layer *)

Definition est_task : Type :=
  option string * option index_spec * option index_spec * string * estimator.

(** The file an estimator task writes. *)
Definition task_key (dir : string) (task : est_task) : string :=
  ekey dir task.1.1.1.1 task.1.2.

(** The entry of [estimators_] that stands for a task of the engine [self]:
    the task's case and instance name, what the instance was fitted to, the
    task's held-out index and its column. *)
Definition listed_as (self : BaseEstimator.slots) (task : est_task)
    (entry : est_entry) : Prop :=
  let '(case, tri, tei, n, inst) := task in
  exists est col,
    entry = (case, (n, est, (tei, col)))
    /\ BaseEstimator.c self !! (case, n) = Some col
    /\ fitted_by inst (BaseEstimator.raise_ self) est.

(** ** Names and score keys *)

(** The character [_]. *)
Abbreviation underscore :=
  (Ascii.Ascii true true true true true false true false).

(** A name without an underscore. *)
Fixpoint plain (s : string) : bool :=
  match s with
  | EmptyString => true
  | String c rest => negb (is_char c "_") && plain rest
  end.

(** The scores [_assemble] hands to [_build_scores] for a layer without
    preprocessing: one for each estimator fitted on all the data, then one
    for each fold task, named after its estimator and its fold. *)
Definition score_list (names : list string) (full : list (option Z))
    (folds : list (string * string * option Z)) : list (string * option Z) :=
  (zip_with (fun n v => (score_key None n, v)) names full
   ++ ((fun f : string * string * option Z =>
          (score_key None (f.1.1 ++ "__" ++ f.1.2), f.2)) <$> folds))%list.

(** The scores of the folds of the estimator [n], in the order of the
    folds. *)
Definition scores_of (n : string) (folds : list (string * string * option Z))
    : list (option Z) :=
  snd <$> filter (fun f : string * string * option Z => f.1.1 = n) folds.

(** ** The text of a diagnostic *)


(** ** The tasks of [predict] and [transform] *)

(** What [predict] hands to [parallel] for one entry of the full-data part
    of [estimators_], and what [transform] hands over for one entry of the
    fold part; [prep] is the part of [preprocessing_] that [_retrieve]
    returned. *)
Definition predict_task (self : BaseEstimator.slots)
    (prep : option (list (option string * payload))) (X : matrix)
    (entry : est_entry) : M unit :=
  let '(case, (inst_name, est, (_, col))) := entry in
  let* tr_list := BaseEstimator.tr_list_of prep case in
  predict_est case tr_list inst_name est X SharedP col
    (BaseEstimator.name self)
    (if BaseEstimator.proba self then "predict_proba" else "predict").

Definition transform_task (self : BaseEstimator.slots)
    (prep : option (list (option string * payload))) (X : matrix)
    (entry : est_entry) : M unit :=
  let '(case, (est_name, est, idx)) := entry in
  let* tr_list := BaseEstimator.tr_list_of prep case in
  predict_fold_est case tr_list est_name est X SharedP idx
    (BaseEstimator.name self)
    (if BaseEstimator.proba self then "predict_proba" else "predict").

(** A fitted layer under the lenient policy: [good] and [mute] fitted on all
    the data, then on the fold that predicts row 0; [mute] cannot predict. *)
Definition engine_mute : BaseEstimator.slots :=
  BaseEstimator.__init__
    (Layer.mk (Some "layer-1") 0 false false None None None 2 0 "stack" None
       (Some (EList [(None, ("good", Some Sample.first_col, (None, 0)));
                     (None, ("mute", Some Sample.mute, (None, 1)));
                     (None, ("good__0", Some Sample.first_col,
                             (Some (Range 0 1), 0)));
                     (None, ("mute__0", Some Sample.mute,
                             (Some (Range 0 1), 1)))]))
       None)
    true ([], None) Sample.cols.

(** * Checks of the primitives *)

Example py_format_three :
  py_format "%s__%s__%s" [AStr "case"; AStr "est"; AStr "e"]
  = inr "case__est__e".
Proof. reflexivity. Qed.

Example py_format_none : py_format "%s__t" [ANone] = inr "None__t".
Proof. reflexivity. Qed.

Example repr_of_plain_text : py_repr (AStr "est") = "'est'".
Proof. reflexivity. Qed.

Example repr_of_text_with_apostrophes :
  py_repr (AExn (Exn AttributeError
                   "'NoneType' object has no attribute 'predict'"))
  = "AttributeError(" ++ chr 34
    ++ "'NoneType' object has no attribute 'predict'" ++ chr 34 ++ ")".
Proof. reflexivity. Qed.

Example repr_of_text_with_both_quotes :
  py_repr (AStr ("it's " ++ chr 34 ++ "x" ++ chr 34))
  = "'it" ++ chr 92 ++ "'s " ++ chr 34 ++ "x" ++ chr 34 ++ "'".
Proof. reflexivity. Qed.

Example repr_of_control_characters :
  py_repr (AStr ("a" ++ nl ++ "b" ++ chr 7))
  = "'a" ++ chr 92 ++ "nb" ++ chr 92 ++ "x07'".
Proof. reflexivity. Qed.

Example repr_without_argument :
  py_repr (AExn (Exn ValueError "")) = "ValueError()".
Proof. reflexivity. Qed.

Example repr_of_key_error :
  py_repr (AExn (Exn KeyError "(None, 'est')")) = "KeyError((None, 'est'))".
Proof. reflexivity. Qed.

Example py_format_short :
  py_format "%s after %i seconds: %r" [AStr "f"] = inl too_few.
Proof. reflexivity. Qed.

Example slice_two_ranges :
  _slice_array [[10]; [11]; [12]; [13]; [14]; [15]; [16]] None
    (Some (Ranges [(0, 2); (5, 7)]))
  = inr ([[10]; [11]; [15]; [16]], None, Some [0; 1; 5; 6]).
Proof. reflexivity. Qed.

Example split_fold_key :
  py_split "___" "case__0___est__0" = ["case__0"; "est__0"].
Proof. reflexivity. Qed.

Example join_init :
  py_join "__" (init (py_split "__" "a__b__0")) = "a__b".
Proof. reflexivity. Qed.

(** * Properties *)

(** ** The monad *)

Lemma bind_Ok {A B} (m : M A) (k : A -> M B) w a w' :
  m w = (Ok a, w') -> bind m k w = k a w'.
Proof. intros H. unfold bind. by rewrite H. Qed.

Lemma bind_Raise {A B} (m : M A) (k : A -> M B) w e w' :
  m w = (Raise e, w') -> bind m k w = (Raise e, w').
Proof. intros H. unfold bind. by rewrite H. Qed.

Lemma bind_Ok_inv {A B} (m : M A) (k : A -> M B) w b w' :
  bind m k w = (Ok b, w') ->
  exists a w1, m w = (Ok a, w1) /\ k a w1 = (Ok b, w').
Proof.
  unfold bind. destruct (m w) as [[a|e|] w1]; intros H; try discriminate.
  by exists a, w1.
Qed.

Lemma lift_inr {A} (a : A) w : lift (inr a) w = (Ok a, w).
Proof. reflexivity. Qed.

Lemma lift_inl {A} (e : exn) w : lift (inl e : exn + A) w = (Raise e, w).
Proof. reflexivity. Qed.

Lemma format_inr fmt args m w :
  py_format fmt args = inr m -> format fmt args w = (Ok m, w).
Proof. intros H. unfold format. by rewrite H. Qed.

(** ** Formatting of the keys and messages *)

Lemma tkey_format case :
  py_format "%s__t" [case_arg case] = inr (py_str (case_arg case) ++ "__t").
Proof. reflexivity. Qed.

Lemma tkey_format2 case :
  py_format "%s__%s" [case_arg case; AStr "t"]
  = inr (py_str (case_arg case) ++ "__t").
Proof. reflexivity. Qed.

Lemma ekey_format case inst_name :
  py_format "%s__%s__e" [case_arg case; AStr inst_name]
  = inr (py_str (case_arg case) ++ "__" ++ inst_name ++ "__e").
Proof. reflexivity. Qed.

Lemma ekey_format3 case inst_name :
  py_format "%s__%s__%s" [case_arg case; AStr inst_name; AStr "e"]
  = inr (py_str (case_arg case) ++ "__" ++ inst_name ++ "__e").
Proof. reflexivity. Qed.

Lemma load_error_format msg : py_format load_error_msg [AStr msg] = inl too_few.
Proof. reflexivity. Qed.

(** ** The stage wrappers *)

Lemma _fit_tr_ok x y tr tr_name case layer_name f w :
  tr_fit tr x y = inr f ->
  _fit_tr x y tr tr_name case layer_name w = (Ok f, w).
Proof. intros H. unfold _fit_tr. by rewrite H. Qed.

Lemma _fit_tr_raises x y tr tr_name case layer_name e w :
  tr_fit tr x y = inl e ->
  exists m, _fit_tr x y tr tr_name case layer_name w
            = (Raise (Exn FitFailedError m), w).
Proof. intros H. unfold _fit_tr. rewrite H. eexists. reflexivity. Qed.

Lemma _transform_tr_ok x tr tr_name case layer_name x' w :
  tr_transform tr x = inr x' ->
  _transform_tr x tr tr_name case layer_name w = (Ok x', w).
Proof. intros H. unfold _transform_tr. by rewrite H. Qed.

Lemma _transform_tr_raises x tr tr_name case layer_name e w :
  tr_transform tr x = inl e ->
  exists m, _transform_tr x tr tr_name case layer_name w
            = (Raise (Exn FitFailedError m), w).
Proof. intros H. unfold _transform_tr. rewrite H. eexists. reflexivity. Qed.

Lemma transform_loop_ok tr_list : forall x case name x' w,
  apply_steps tr_list x = inr x' ->
  transform_loop tr_list x case name w = (Ok x', w).
Proof.
  induction tr_list as [|[tr_name tr] rest IH]; intros x case name x' w H.
  - simpl in *. by inversion H.
  - simpl in *. destruct (tr_transform tr x) as [e|x1] eqn:E; [discriminate|].
    rewrite (bind_Ok _ _ _ _ _ (_transform_tr_ok _ _ _ _ _ _ _ E)).
    by apply IH.
Qed.

Lemma transform_loop_raises tr_list : forall x case name bad w,
  apply_steps tr_list x = inl bad ->
  exists m, transform_loop tr_list x case name w
            = (Raise (Exn FitFailedError m), w).
Proof.
  induction tr_list as [|[tr_name tr] rest IH]; intros x case name bad w H.
  - discriminate.
  - simpl in *. destruct (tr_transform tr x) as [e|x1] eqn:E.
    + destruct (_transform_tr_raises x tr tr_name case name e w E) as [m Hm].
      exists m. by rewrite (bind_Raise _ _ _ _ _ Hm).
    + rewrite (bind_Ok _ _ _ _ _ (_transform_tr_ok _ _ _ _ _ _ _ E)).
      by eapply IH.
Qed.

Lemma fit_trans_loop_ok multi inst : forall x y case name out w,
  fit_chain multi inst x y = inr out ->
  fit_trans_loop multi inst x y case name w = (Ok out, w).
Proof.
  induction inst as [|[tr_name tr] rest IH]; intros x y case name out w H.
  - simpl in *. by inversion H.
  - simpl in *. destruct (tr_fit tr x y) as [e|f] eqn:E; [discriminate|].
    simpl in H.
    rewrite (bind_Ok _ _ _ _ _ (_fit_tr_ok _ _ _ _ _ _ _ _ E)).
    destruct multi; simpl in H.
    + destruct (tr_transform f x) as [e|x1] eqn:E1; [discriminate|].
      simpl in H.
      rewrite (bind_Ok _ _ _ _ _ (_transform_tr_ok _ _ _ _ _ _ _ E1)).
      destruct (fit_chain true rest x1 y) as [e|o] eqn:E2; [discriminate|].
      simpl in H. inversion H; subst.
      by rewrite (bind_Ok _ _ _ _ _ (IH _ _ case name _ w E2)).
    + destruct (fit_chain false rest x y) as [e|o] eqn:E2; [discriminate|].
      simpl in H. inversion H; subst.
      unfold bind at 1; simpl.
      by rewrite (bind_Ok _ _ _ _ _ (IH _ _ case name _ w E2)).
Qed.

Lemma fit_trans_loop_raises multi inst : forall x y case name e w,
  fit_chain multi inst x y = inl e ->
  exists m, fit_trans_loop multi inst x y case name w
            = (Raise (Exn FitFailedError m), w).
Proof.
  induction inst as [|[tr_name tr] rest IH]; intros x y case name e w H.
  - discriminate.
  - simpl in *. destruct (tr_fit tr x y) as [e1|f] eqn:E.
    { destruct (_fit_tr_raises x y tr tr_name case name e1 w E) as [m Hm].
      exists m. by rewrite (bind_Raise _ _ _ _ _ Hm). }
    simpl in H.
    rewrite (bind_Ok _ _ _ _ _ (_fit_tr_ok _ _ _ _ _ _ _ _ E)).
    destruct multi; simpl in H.
    + destruct (tr_transform f x) as [e1|x1] eqn:E1.
      { destruct (_transform_tr_raises x f tr_name case name e1 w E1)
          as [m Hm].
        exists m. by rewrite (bind_Raise _ _ _ _ _ Hm). }
      simpl in H.
      rewrite (bind_Ok _ _ _ _ _ (_transform_tr_ok _ _ _ _ _ _ _ E1)).
      destruct (fit_chain true rest x1 y) as [e2|o] eqn:E2; [|discriminate].
      destruct (IH _ _ case name _ w E2) as [m Hm].
      exists m. by rewrite (bind_Raise _ _ _ _ _ Hm).
    + destruct (fit_chain false rest x y) as [e2|o] eqn:E2; [|discriminate].
      destruct (IH _ _ case name _ w E2) as [m Hm].
      exists m. unfold bind at 1; simpl.
      by rewrite (bind_Raise _ _ _ _ _ Hm).
Qed.

Lemma pickle_load_found f v w : fs w !! f = Some v -> pickle_load f w = (Ok v, w).
Proof. intros H. unfold pickle_load. by rewrite H. Qed.

Lemma _load_trans_readable fuel dir case ivals raise_on_exception v w :
  fs w !! dir = Some v ->
  _load_trans fuel dir case ivals raise_on_exception w = (Ok v, w).
Proof.
  intros H. unfold _load_trans, try_except.
  by rewrite (pickle_load_found _ _ _ H).
Qed.

(** C4.  A transformer whose [fit] or [transform] raises makes its wrapper
    raise [FitFailedError], and so the stage that called it: [fit_trans]
    caches nothing, and [fit_est] raises it for either value of
    [raise_on_exception], without emitting a warning. *)
Theorem transformer_failure_is_always_raised
    (raise_on_exception : bool) (x : matrix) (y : option (list Z))
    (tr : transformer) (ftr : fitted_tr) (tr_name : string)
    (case layer_name : option string) (w : world) :
  (forall e, tr_fit tr x y = inl e ->
     raised_class (_fit_tr x y tr tr_name case layer_name w)
       = Some FitFailedError
     /\ (_fit_tr x y tr tr_name case layer_name w).2 = w)
  /\ (forall e, tr_transform ftr x = inl e ->
        raised_class (_transform_tr x ftr tr_name case layer_name w)
          = Some FitFailedError
        /\ (_transform_tr x ftr tr_name case layer_name w).2 = w)
  /\ (forall dir inst X labels idx x0 y0 i0 e,
        _slice_array X (Some labels) idx = inr (x0, y0, i0) ->
        fit_chain (bool_decide (1 < length inst)%nat) inst x0 y0 = inl e ->
        raised_class (fit_trans dir case inst X labels idx layer_name w)
          = Some FitFailedError
        /\ (fit_trans dir case inst X labels idx layer_name w).2 = w)
  /\ (forall fuel dir inst_name inst X labels pred idx0 idx1 idx2 ivals attr
             scorer x0 z0 i0 steps bad,
        _slice_array X (Some labels) idx0 = inr (x0, z0, i0) ->
        fs w !! path_join dir (py_str (case_arg case) ++ "__t")
          = Some (TPayload steps) ->
        apply_steps steps x0 = inl bad ->
        let run := fit_est fuel dir case inst_name inst X labels pred
                     (idx0, idx1, idx2) raise_on_exception true layer_name
                     ivals attr scorer w in
        raised_class run = Some FitFailedError /\ run.2 = w).
Proof.
  repeat split.
  - destruct (_fit_tr_raises x y tr tr_name case layer_name e w H) as [m ->].
    reflexivity.
  - destruct (_fit_tr_raises x y tr tr_name case layer_name e w H) as [m ->].
    reflexivity.
  - destruct (_transform_tr_raises x ftr tr_name case layer_name e w H)
      as [m ->].
    reflexivity.
  - destruct (_transform_tr_raises x ftr tr_name case layer_name e w H)
      as [m ->].
    reflexivity.
  - unfold fit_trans. rewrite H.
    rewrite (bind_Ok _ _ _ _ _ (lift_inr _ _)).
    destruct (fit_trans_loop_raises _ _ _ _ case layer_name _ w H0) as [m Hm].
    by rewrite (bind_Raise _ _ _ _ _ Hm).
  - unfold fit_trans. rewrite H.
    rewrite (bind_Ok _ _ _ _ _ (lift_inr _ _)).
    destruct (fit_trans_loop_raises _ _ _ _ case layer_name _ w H0) as [m Hm].
    by rewrite (bind_Raise _ _ _ _ _ Hm).
  - unfold fit_est. rewrite H.
    rewrite (bind_Ok _ _ _ _ _ (lift_inr _ _)).
    destruct (transform_loop_raises _ _ case layer_name _ w H1) as [m Hm].
    erewrite bind_Ok; last first.
    { erewrite bind_Ok; last by apply format_inr, tkey_format.
      erewrite bind_Ok; last by apply _load_trans_readable.
      reflexivity. }
    by rewrite (bind_Raise _ _ _ _ _ Hm).
  - unfold fit_est. rewrite H.
    rewrite (bind_Ok _ _ _ _ _ (lift_inr _ _)).
    destruct (transform_loop_raises _ _ case layer_name _ w H1) as [m Hm].
    erewrite bind_Ok; last first.
    { erewrite bind_Ok; last by apply format_inr, tkey_format.
      erewrite bind_Ok; last by apply _load_trans_readable.
      reflexivity. }
    by rewrite (bind_Raise _ _ _ _ _ Hm).
Qed.

(** ** Slicing *)

Lemma length_arange a b : length (arange a b) = Z.to_nat (b - a).
Proof. unfold arange. by rewrite length_fmap, length_seq. Qed.

Lemma lookup_arange a b (k : nat) :
  (k < Z.to_nat (b - a))%nat -> arange a b !! k = Some (a + Z.of_nat k).
Proof.
  intros H. unfold arange. rewrite list_lookup_fmap, lookup_seq_lt by done.
  reflexivity.
Qed.

Lemma wrap_index_in_range n i :
  0 <= i < Z.of_nat n -> wrap_index n i = Some (Z.to_nat i).
Proof. intros H. unfold wrap_index. by rewrite decide_True. Qed.

Lemma length_rows_between {A} (x : list A) a b :
  0 <= a -> b <= Z.of_nat (length x) ->
  length (rows_between x a b) = Z.to_nat (b - a).
Proof.
  intros Ha Hb. unfold rows_between. rewrite length_take, length_drop. lia.
Qed.

Lemma lookup_rows_between {A} (x : list A) a b (k : nat) :
  (k < Z.to_nat (b - a))%nat ->
  rows_between x a b !! k = x !! (Z.to_nat a + k)%nat.
Proof.
  intros H. unfold rows_between. rewrite lookup_take_lt by done.
  by rewrite lookup_drop.
Qed.

Lemma NoDup_arange a b : NoDup (arange a b).
Proof.
  unfold arange. apply NoDup_fmap_2; [|apply NoDup_seq].
  intros k1 k2 Hk. lia.
Qed.

Lemma Forall_arange_ge a b : Forall (fun c => a <= c) (arange a b).
Proof.
  unfold arange. apply Forall_fmap, Forall_forall. intros k _. simpl. lia.
Qed.

(** Indexing with [arange(a, b)] inside the array gives the rows [a .. b-1]. *)
Lemma np_take_arange {A} (x : list A) a b :
  0 <= a -> b <= Z.of_nat (length x) ->
  np_take x (arange a b) = inr (rows_between x a b).
Proof.
  intros Ha Hb. unfold np_take.
  assert (mapM (fun i => wrap_index (length x) i ≫= (x !!.)) (arange a b)
          = Some (rows_between x a b)) as ->; [|done].
  apply mapM_Some, Forall2_same_length_lookup. split.
  - by rewrite length_arange, length_rows_between.
  - intros k i r Hi Hr.
    assert (k < Z.to_nat (b - a))%nat as Hk.
    { apply lookup_lt_Some in Hi. by rewrite length_arange in Hi. }
    rewrite lookup_arange in Hi by done. inversion Hi; subst i.
    rewrite lookup_rows_between in Hr by done.
    rewrite wrap_index_in_range by lia. simpl.
    replace (Z.to_nat (a + Z.of_nat k)) with (Z.to_nat a + k)%nat by lia.
    done.
Qed.




(** ** Frames *)

Lemma preserves_bind {A B C} (f : world -> C) (m : M A) (k : A -> M B) :
  preserves f m -> (forall a, preserves f (k a)) -> preserves f (bind m k).
Proof.
  intros Hm Hk w. unfold bind. specialize (Hm w).
  destruct (m w) as [[a|e|] w1]; simpl in *; try done.
  by rewrite Hk.
Qed.

Lemma preserves_try_except {A C} (f : world -> C) (m : M A) cl h :
  preserves f m -> (forall e, preserves f (h e)) ->
  preserves f (try_except m cl h).
Proof.
  intros Hm Hh w. unfold try_except. specialize (Hm w).
  destruct (m w) as [[a|e|] w1]; simpl in *; try done.
  case_decide; [|done]. by rewrite Hh.
Qed.

Lemma preserves_lift {A C} (f : world -> C) (r : exn + A) :
  preserves f (lift r).
Proof. by destruct r. Qed.

Lemma preserves_format {C} (f : world -> C) fmt args :
  preserves f (format fmt args).
Proof. apply preserves_lift. Qed.

Lemma preserves_pickle_load {C} (f : world -> C) k : preserves f (pickle_load k).
Proof. intros w. unfold pickle_load. by destruct (fs w !! k). Qed.

Lemma preserves_for_each {A C} (f : world -> C) (g : A -> M unit) l :
  (forall a, preserves f (g a)) -> preserves f (for_each g l).
Proof.
  intros Hg. induction l as [|a l IH]; [done|].
  simpl. by apply preserves_bind.
Qed.

Lemma preserves_map_M {A B C} (f : world -> C) (g : A -> M B) l :
  (forall a, preserves f (g a)) -> preserves f (map_M g l).
Proof.
  intros Hg. induction l as [|a l IH]; [done|].
  simpl. apply preserves_bind; [done|]. intros b.
  apply preserves_bind; [done|]. done.
Qed.

(** Takes a goal [preserves f m] apart along the structure of [m]; what is
    left are the primitives, which either do not write [f] or do. *)
Ltac frame :=
  repeat
    match goal with
    | |- preserves _ (bind _ _) => apply preserves_bind; [|intros]
    | |- preserves _ (try_except _ _ _) => apply preserves_try_except; [|intros]
    | |- preserves _ (for_each _ _) => apply preserves_for_each; intros
    | |- preserves _ (map_M _ _) => apply preserves_map_M; intros
    | |- preserves _ (lift _) => apply preserves_lift
    | |- preserves _ (format _ _) => apply preserves_format
    | |- preserves _ (pickle_load _) => apply preserves_pickle_load
    | |- preserves _ (match ?x with _ => _ end) => destruct x
    | |- preserves _ _ => solve [auto with frame]
    | |- preserves _ _ => by intros ?
    end.

Create HintDb frame.

Lemma preserves_transform_tr {C} (f : world -> C) x tr tr_name case name :
  preserves f (_transform_tr x tr tr_name case name).
Proof. unfold _transform_tr. frame. Qed.
#[export] Hint Resolve preserves_transform_tr : frame.

Lemma preserves_transform_loop {C} (f : world -> C) tr_list :
  forall x case name, preserves f (transform_loop tr_list x case name).
Proof.
  induction tr_list as [|[n tr] rest IH]; intros x case name; simpl; frame.
Qed.
#[export] Hint Resolve preserves_transform_loop : frame.

Lemma preserves_fit_tr {C} (f : world -> C) x y tr tr_name case name :
  preserves f (_fit_tr x y tr tr_name case name).
Proof. unfold _fit_tr. frame. Qed.
#[export] Hint Resolve preserves_fit_tr : frame.

Lemma preserves_fit_trans_loop {C} (f : world -> C) multi inst :
  forall x y case name, preserves f (fit_trans_loop multi inst x y case name).
Proof.
  induction inst as [|[n tr] rest IH]; intros x y case name; simpl; frame.
Qed.
#[export] Hint Resolve preserves_fit_trans_loop : frame.

(** Under the raising policy the prediction wrapper writes nothing at all. *)
Lemma preserves_predict_est_raising {C} (f : world -> C) x est inst_name case
    name attr :
  preserves f (_predict_est x est true inst_name case name attr).
Proof. unfold _predict_est. frame. Qed.
#[export] Hint Resolve preserves_predict_est_raising : frame.

Lemma preserves_as_steps {C} (f : world -> C) v : preserves f (as_steps v).
Proof. unfold as_steps. frame. Qed.
#[export] Hint Resolve preserves_as_steps : frame.

Lemma _predict_est_ok x est b inst_name case name attr p w :
  getattr_call est attr x = inr p ->
  _predict_est x est b inst_name case name attr w = (Ok (Some p), w).
Proof. intros H. unfold _predict_est. by rewrite H. Qed.

Lemma _predict_est_raises x est inst_name case name attr e w :
  getattr_call est attr x = inl e ->
  exists m, _predict_est x est true inst_name case name attr w
            = (Raise (Exn PredictFailedError m), w).
Proof. intros H. unfold _predict_est. rewrite H. eexists. reflexivity. Qed.

Lemma _predict_est_warns x est inst_name case name attr e w :
  getattr_call est attr x = inl e ->
  exists m, _predict_est x est false inst_name case name attr w
            = (Ok None, with_log w (log w ++ [Warning PredictFailedWarning m])).
Proof. intros H. unfold _predict_est. rewrite H. eexists. reflexivity. Qed.

Lemma _fit_est_ok x y est b inst_name case name f w :
  est_fit est x y = inr f ->
  _fit_est x y est b inst_name case name w = (Ok (Some f), w).
Proof. intros H. unfold _fit_est. by rewrite H. Qed.

Lemma _fit_est_raises x y est inst_name case name e w :
  est_fit est x y = inl e ->
  exists m, _fit_est x y est true inst_name case name w
            = (Raise (Exn FitFailedError m), w).
Proof. intros H. unfold _fit_est. rewrite H. eexists. reflexivity. Qed.

Lemma _fit_est_warns x y est inst_name case name e w :
  est_fit est x y = inl e ->
  exists m, _fit_est x y est false inst_name case name w
            = (Ok None, with_log w (log w ++ [Warning FitFailedWarning m])).
Proof. intros H. unfold _fit_est. rewrite H. eexists. reflexivity. Qed.

(** ** Prediction with a fitted layer *)

Lemma preserves_log_predict_est case tr_list inst_name est xtest pred col name
    attr :
  preserves log (predict_est case tr_list inst_name est xtest pred col name attr).
Proof. unfold predict_est, shape_of, assign_rows. frame. Qed.

Lemma preserves_log_predict_fold_est case tr_list inst_name est xtest pred idx
    name attr :
  preserves log
    (predict_fold_est case tr_list inst_name est xtest pred idx name attr).
Proof.
  unfold predict_fold_est, shape_of, assign_rows, pred_shape0, isub. frame.
Qed.

Lemma preserves_log_check_fitted self :
  preserves log (BaseEstimator._check_fitted self).
Proof. unfold BaseEstimator._check_fitted, check_is_fitted. frame. Qed.

Lemma preserves_log_retrieve self s :
  preserves log (BaseEstimator._retrieve self s).
Proof.
  unfold BaseEstimator._retrieve, get_estimators_,
    BaseEstimator.slice_container.
  frame.
Qed.

Lemma preserves_log_tr_list_of prep case :
  preserves log (BaseEstimator.tr_list_of prep case).
Proof. unfold BaseEstimator.tr_list_of, BaseEstimator.prep_lookup. frame. Qed.

#[export] Hint Resolve preserves_log_predict_est preserves_log_predict_fold_est
  preserves_log_check_fitted preserves_log_retrieve preserves_log_tr_list_of
  : frame.

Lemma preserves_log_predict self X :
  preserves log (BaseEstimator.predict self X).
Proof.
  unfold BaseEstimator.predict. frame.
Qed.

Lemma preserves_log_transform self X :
  preserves log (BaseEstimator.transform self X).
Proof.
  unfold BaseEstimator.transform. frame.
Qed.

Lemma for_each_app {A} (f : A -> M unit) (l1 l2 : list A) w :
  for_each f (l1 ++ l2)%list w
  = (let* _ := for_each f l1 in for_each f l2) w.
Proof.
  revert w. induction l1 as [|a l1 IH]; intros w; [reflexivity|].
  simpl. unfold bind. simpl.
  destruct (f a w) as [[[]| |] w1]; [|done..].
  rewrite IH. reflexivity.
Qed.

(** [predict] and [transform] are the loops over their tasks. *)
Lemma predict_runs_its_tasks self X :
  BaseEstimator.predict self X
  = (let* _ := BaseEstimator._check_fitted self in
     let* (prep, ests) := BaseEstimator._retrieve self "full" in
     for_each (predict_task self prep X) ests).
Proof. reflexivity. Qed.

Lemma transform_runs_its_tasks self X :
  BaseEstimator.transform self X
  = (let* _ := BaseEstimator._check_fitted self in
     let* (prep, ests) := BaseEstimator._retrieve self "fold" in
     for_each (transform_task self prep X) ests).
Proof. reflexivity. Qed.

Lemma check_fitted_some self l a w :
  Layer.estimators_ (BaseEstimator.layer self) = Some (EList l) ->
  a ∈ l ->
  BaseEstimator._check_fitted self w = (Ok tt, w).
Proof.
  intros Hl Ha. unfold BaseEstimator._check_fitted, check_is_fitted.
  rewrite Hl. destruct l; [by apply elem_of_nil in Ha|]. reflexivity.
Qed.

Lemma retrieve_full_list self l w :
  Layer.estimators_ (BaseEstimator.layer self) = Some (EList l) ->
  BaseEstimator._retrieve self "full" w
  = (Ok (take (Nat.max (Layer.n_prep (BaseEstimator.layer self)) 1)
           <$> Layer.preprocessing_ (BaseEstimator.layer self),
         take (Layer.n_pred (BaseEstimator.layer self)) l), w).
Proof.
  intros Hl. unfold BaseEstimator._retrieve, get_estimators_. by rewrite Hl.
Qed.

Lemma retrieve_fold_list self l w :
  Layer.estimators_ (BaseEstimator.layer self) = Some (EList l) ->
  BaseEstimator._retrieve self "fold" w
  = (Ok (drop (Nat.max (Layer.n_prep (BaseEstimator.layer self)) 1)
           <$> Layer.preprocessing_ (BaseEstimator.layer self),
         drop (Layer.n_pred (BaseEstimator.layer self)) l), w).
Proof.
  intros Hl. unfold BaseEstimator._retrieve, get_estimators_. by rewrite Hl.
Qed.

(** A loop whose earlier tasks returned ends with what the next task
    raises. *)
Lemma for_each_raises_at {A} (f : A -> M unit) pre a post w w1 e w2 :
  for_each f pre w = (Ok tt, w1) ->
  f a w1 = (Raise e, w2) ->
  for_each f (pre ++ a :: post)%list w = (Raise e, w2).
Proof.
  intros Hpre Ha. rewrite for_each_app.
  rewrite (bind_Ok _ _ _ _ _ Hpre). simpl.
  by rewrite (bind_Raise _ _ _ _ _ Ha).
Qed.

(** C10.  [predict] and [transform] call the prediction wrapper with the
    raising flag fixed to true: an estimator whose predict call raises makes
    its task raise [PredictFailedError] and leaves the matrix and the log
    alone; what the two operations do does not depend on the layer's
    [raise_on_exception], and they never emit a warning.  On a fitted layer
    (whatever its [raise_on_exception]), once the tasks of the entries before
    it have returned, the entry whose predict call raises makes [predict]
    itself, and likewise [transform] itself, end with [PredictFailedError],
    in the world the earlier tasks left. *)
Theorem predict_failure_is_always_raised
    (case : option string) (tr_list : list (string * fitted_tr))
    (inst_name : string) (est : option fitted_est) (xtest : matrix)
    (col : Z) (idx : option index_spec * Z) (name : option string)
    (attr : string) (w : world) :
  (forall x' e,
     apply_steps tr_list xtest = inr x' ->
     getattr_call est attr x' = inl e ->
     let run := predict_est case tr_list inst_name est xtest SharedP col name
                  attr w in
     raised_class run = Some PredictFailedError /\ run.2 = w)
  /\ (forall x y' i x' e,
        _slice_array xtest None idx.1 = inr (x, y', i) ->
        apply_steps tr_list x = inr x' ->
        getattr_call est attr x' = inl e ->
        let run := predict_fold_est case tr_list inst_name est xtest SharedP
                     idx name attr w in
        raised_class run = Some PredictFailedError /\ run.2 = w)
  /\ (forall b layer dual lists cols X,
        BaseEstimator.predict
          (BaseEstimator.__init__ (Layer.set_raise_on_exception b layer) dual
             lists cols) X w
        = BaseEstimator.predict (BaseEstimator.__init__ layer dual lists cols)
            X w
        /\ BaseEstimator.transform
             (BaseEstimator.__init__ (Layer.set_raise_on_exception b layer)
                dual lists cols) X w
           = BaseEstimator.transform
               (BaseEstimator.__init__ layer dual lists cols) X w)
  /\ (forall self X,
        log (BaseEstimator.predict self X w).2 = log w
        /\ log (BaseEstimator.transform self X w).2 = log w)
  /\ (forall self l pre post tei w1 x' e,
        let prep :=
          take (Nat.max (Layer.n_prep (BaseEstimator.layer self)) 1)
          <$> Layer.preprocessing_ (BaseEstimator.layer self) in
        let method :=
          if BaseEstimator.proba self then "predict_proba" else "predict" in
        Layer.estimators_ (BaseEstimator.layer self) = Some (EList l) ->
        take (Layer.n_pred (BaseEstimator.layer self)) l
        = (pre ++ (case, (inst_name, est, (tei, col))) :: post)%list ->
        for_each (predict_task self prep xtest) pre w = (Ok tt, w1) ->
        BaseEstimator.tr_list_of prep case w1 = (Ok tr_list, w1) ->
        apply_steps tr_list xtest = inr x' ->
        getattr_call est method x' = inl e ->
        let run := BaseEstimator.predict self xtest w in
        raised_class run = Some PredictFailedError /\ run.2 = w1)
  /\ (forall self l pre post w1 x y' i x' e,
        let prep :=
          drop (Nat.max (Layer.n_prep (BaseEstimator.layer self)) 1)
          <$> Layer.preprocessing_ (BaseEstimator.layer self) in
        let method :=
          if BaseEstimator.proba self then "predict_proba" else "predict" in
        Layer.estimators_ (BaseEstimator.layer self) = Some (EList l) ->
        drop (Layer.n_pred (BaseEstimator.layer self)) l
        = (pre ++ (case, (inst_name, est, idx)) :: post)%list ->
        for_each (transform_task self prep xtest) pre w = (Ok tt, w1) ->
        BaseEstimator.tr_list_of prep case w1 = (Ok tr_list, w1) ->
        _slice_array xtest None idx.1 = inr (x, y', i) ->
        apply_steps tr_list x = inr x' ->
        getattr_call est method x' = inl e ->
        let run := BaseEstimator.transform self xtest w in
        raised_class run = Some PredictFailedError /\ run.2 = w1).
Proof.
  split; [|split; [|split; [|split; [|split]]]].
  - intros x' e Hx He run. subst run. unfold predict_est.
    rewrite (bind_Ok _ _ _ _ _ (transform_loop_ok _ _ case name _ w Hx)).
    destruct (_predict_est_raises x' est inst_name case name attr e w He)
      as [m Hm].
    by rewrite (bind_Raise _ _ _ _ _ Hm).
  - intros x y' i x' e Hs Hx He run. subst run. unfold predict_fold_est.
    rewrite Hs. rewrite (bind_Ok _ _ _ _ _ (lift_inr _ _)).
    rewrite (bind_Ok _ _ _ _ _ (transform_loop_ok _ _ case name _ w Hx)).
    destruct (_predict_est_raises x' est inst_name case name attr e w He)
      as [m Hm].
    by rewrite (bind_Raise _ _ _ _ _ Hm).
  - intros b layer dual lists cols X. by destruct layer.
  - intros self X. split.
    + apply preserves_log_predict.
    + apply preserves_log_transform.
  - intros self l pre post tei w1 x' e prep method Hl Hsplit Hpre Hsteps Hx
      He run.
    assert (exists m, run = (Raise (Exn PredictFailedError m), w1))
      as [m ->]; [|done].
    destruct (_predict_est_raises x' est inst_name case
                (BaseEstimator.name self) method e w1 He) as [m Hm].
    exists m. subst run. rewrite predict_runs_its_tasks.
    assert ((case, (inst_name, est, (tei, col))) ∈ l) as Hin.
    { pose proof (subseteq_take (Layer.n_pred (BaseEstimator.layer self)) l)
        as Hsub.
      rewrite Hsplit in Hsub. apply Hsub, elem_of_app. right.
      apply list_elem_of_here. }
    rewrite (bind_Ok _ _ _ _ _ (check_fitted_some _ _ _ w Hl Hin)).
    rewrite (bind_Ok _ _ _ _ _ (retrieve_full_list _ _ w Hl)).
    fold prep. rewrite Hsplit.
    apply (for_each_raises_at _ _ _ _ _ w1); [done|].
    unfold predict_task. fold method.
    rewrite (bind_Ok _ _ _ _ _ Hsteps). unfold predict_est.
    rewrite (bind_Ok _ _ _ _ _
               (transform_loop_ok _ _ case (BaseEstimator.name self) _ w1 Hx)).
    by rewrite (bind_Raise _ _ _ _ _ Hm).
  - intros self l pre post w1 x y' i x' e prep method Hl Hsplit Hpre Hsteps
      Hs Hx He run.
    assert (exists m, run = (Raise (Exn PredictFailedError m), w1))
      as [m ->]; [|done].
    destruct (_predict_est_raises x' est inst_name case
                (BaseEstimator.name self) method e w1 He) as [m Hm].
    exists m. subst run. rewrite transform_runs_its_tasks.
    assert ((case, (inst_name, est, idx)) ∈ l) as Hin.
    { pose proof (subseteq_drop (Layer.n_pred (BaseEstimator.layer self)) l)
        as Hsub.
      rewrite Hsplit in Hsub. apply Hsub, elem_of_app. right.
      apply list_elem_of_here. }
    rewrite (bind_Ok _ _ _ _ _ (check_fitted_some _ _ _ w Hl Hin)).
    rewrite (bind_Ok _ _ _ _ _ (retrieve_fold_list _ _ w Hl)).
    fold prep. rewrite Hsplit.
    apply (for_each_raises_at _ _ _ _ _ w1); [done|].
    unfold transform_task. fold method.
    rewrite (bind_Ok _ _ _ _ _ Hsteps). unfold predict_fold_est.
    rewrite Hs. rewrite (bind_Ok _ _ _ _ _ (lift_inr _ _)).
    rewrite (bind_Ok _ _ _ _ _
               (transform_loop_ok _ _ case (BaseEstimator.name self) _ w1 Hx)).
    by rewrite (bind_Raise _ _ _ _ _ Hm).
Qed.

(** ** Writing predictions into the shared matrix *)

Lemma wrap_index_lt n i j : wrap_index n i = Some j -> (j < n)%nat.
Proof.
  unfold wrap_index. repeat case_decide; intros Hw; inversion Hw; lia.
Qed.

Lemma set_cell_same P0 r c v P1 :
  set_cell P0 r c v = Some P1 -> cell P1 r c = Some v.
Proof.
  unfold set_cell, cell. intros H.
  destruct (P0 !! r) as [row|] eqn:Er; [|discriminate]. simpl in H.
  destruct (wrap_index (length row) c) as [j|] eqn:Ej; [|discriminate].
  simpl in H. inversion H; subst P1.
  rewrite list_lookup_insert_eq by (by eapply lookup_lt_Some). simpl.
  rewrite length_insert, Ej. simpl.
  apply list_lookup_insert_eq. by eapply wrap_index_lt.
Qed.

Lemma set_cell_other_row P0 r c v P1 r' :
  set_cell P0 r c v = Some P1 -> r <> r' -> P1 !! r' = P0 !! r'.
Proof.
  unfold set_cell. intros H Hne.
  destruct (P0 !! r) as [row|] eqn:Er; [|discriminate]. simpl in H.
  destruct (wrap_index (length row) c) as [j|] eqn:Ej; [|discriminate].
  simpl in H. inversion H; subst P1.
  by apply list_lookup_insert_ne.
Qed.

Lemma set_cells_other_row cells : forall P0 P1 r',
  set_cells P0 cells = Some P1 -> r' ∉ (fun c : nat * Z * Z => c.1.1) <$> cells ->
  P1 !! r' = P0 !! r'.
Proof.
  induction cells as [|[[r c] v] cells IH]; intros P0 P1 r' H Hr.
  - by inversion H.
  - simpl in *. destruct (set_cell P0 r c v) as [P2|] eqn:E; [|discriminate].
    simpl in H. apply not_elem_of_cons in Hr as [Hne Hr].
    rewrite (IH _ _ _ H Hr). eapply set_cell_other_row; eauto.
Qed.

(** With one cell per row, every cell holds its value after the writes. *)
Lemma set_cells_cell cells : forall P0 P1 r c v,
  set_cells P0 cells = Some P1 ->
  NoDup ((fun c : nat * Z * Z => c.1.1) <$> cells) ->
  (r, c, v) ∈ cells -> cell P1 r c = Some v.
Proof.
  induction cells as [|[[r0 c0] v0] cells IH]; intros P0 P1 r c v H Hnd Hin.
  - by apply elem_of_nil in Hin.
  - simpl in *. destruct (set_cell P0 r0 c0 v0) as [P2|] eqn:E; [|discriminate].
    simpl in H. apply NoDup_cons in Hnd as [Hfresh Hnd].
    apply elem_of_cons in Hin as [Heq|Hin].
    + inversion Heq; subst r0 c0 v0.
      pose proof (set_cell_same _ _ _ _ _ E) as Hc.
      unfold cell in *. by rewrite (set_cells_other_row _ _ _ _ H Hfresh).
    + by eapply IH.
Qed.

(** The values of a one-dimensional [v] land in column [col] of the rows
    they are assigned to, when no row is addressed twice. *)
Lemma setitem_col_cells P0 rows col v P1 :
  setitem_col P0 rows col v = inr P1 ->
  length v = length rows ->
  NoDup (wrap_index (length P0) <$> rows) ->
  forall (k : nat) i val r,
    rows !! k = Some i -> v !! k = Some val ->
    wrap_index (length P0) i = Some r -> cell P1 r col = Some val.
Proof.
  unfold setitem_col. intros H Hlen Hnd k i val r Hi Hv Hr.
  destruct (mapM (wrap_index (length P0)) rows) as [rs|] eqn:Ers;
    [|discriminate].
  simpl in H. apply mapM_Some in Ers.
  pose proof (Forall2_length _ _ _ Ers) as Hl.
  unfold broadcast in H. rewrite decide_True in H by congruence.
  simpl in H.
  destruct (set_cells P0 _) as [P2|] eqn:Ec; [|discriminate].
  simpl in H. inversion H; subst P2.
  eapply set_cells_cell; [exact Ec| |].
  - rewrite <- list_fmap_compose.
    assert (((fun c : nat * Z * Z => c.1.1) ∘ (fun '(r0, x) => (r0, col, x)))
            <$> zip rs v = rs) as ->.
    { rewrite <- (fst_zip rs v) at 2 by lia. apply list_fmap_ext.
      by intros ? [? ?]. }
    assert (wrap_index (length P0) <$> rows = Some <$> rs) as Heq.
    { clear -Ers. induction Ers as [|???? Hw ? IH]; [done|].
      rewrite !fmap_cons. by rewrite Hw, IH. }
    rewrite Heq in Hnd. by apply NoDup_fmap_1 in Hnd.
  - apply list_elem_of_lookup. exists k.
    rewrite list_lookup_fmap, lookup_zip_with.
    destruct (Forall2_lookup_l _ _ _ _ _ Ers Hi) as (r' & Hr' & Hw).
    rewrite Hr in Hw. inversion Hw; subst r'.
    by rewrite Hr', Hv.
Qed.

Lemma wrap_index_nonneg n c j :
  0 <= c -> wrap_index n c = Some j -> j = Z.to_nat c.
Proof.
  unfold wrap_index. intros Hc. repeat case_decide; intros Hw; inversion Hw; lia.
Qed.

(** A write leaves every other cell alone. *)
Lemma set_cell_other P0 r c v P1 r' c' :
  set_cell P0 r c v = Some P1 -> 0 <= c -> 0 <= c' -> (r, c) <> (r', c') ->
  cell P1 r' c' = cell P0 r' c'.
Proof.
  unfold set_cell, cell. intros H Hc Hc' Hne.
  destruct (P0 !! r) as [row|] eqn:Er; [|discriminate]. simpl in H.
  destruct (wrap_index (length row) c) as [j|] eqn:Ej; [|discriminate].
  simpl in H. inversion H; subst P1.
  destruct (decide (r = r')) as [<-|Hr].
  - rewrite list_lookup_insert_eq by (by eapply lookup_lt_Some).
    rewrite Er. simpl. rewrite length_insert.
    destruct (wrap_index (length row) c') as [j'|] eqn:Ej'; [|done]. simpl.
    apply list_lookup_insert_ne.
    apply wrap_index_nonneg in Ej, Ej'; try done. subst j j'.
    intros Heq. apply Hne. f_equal. lia.
  - by rewrite list_lookup_insert_ne.
Qed.

Lemma set_cells_other cells : forall P0 P1 r' c',
  set_cells P0 cells = Some P1 ->
  Forall (fun c : nat * Z * Z => 0 <= c.1.2) cells -> 0 <= c' ->
  (r', c') ∉ (fun c : nat * Z * Z => c.1) <$> cells ->
  cell P1 r' c' = cell P0 r' c'.
Proof.
  induction cells as [|[[r c] v] cells IH]; intros P0 P1 r' c' H Hpos Hc' Hr.
  - by inversion H.
  - simpl in *. destruct (set_cell P0 r c v) as [P2|] eqn:E; [|discriminate].
    simpl in H. apply not_elem_of_cons in Hr as [Hne Hr].
    apply Forall_cons in Hpos as [Hc Hpos]. simpl in Hc.
    rewrite (IH _ _ _ _ H Hpos Hc' Hr).
    eapply set_cell_other; eauto.
Qed.

(** When no cell is addressed twice, every cell holds its value after the
    writes. *)
Lemma set_cells_at cells : forall P0 P1 r c v,
  set_cells P0 cells = Some P1 ->
  Forall (fun c : nat * Z * Z => 0 <= c.1.2) cells ->
  NoDup ((fun c : nat * Z * Z => c.1) <$> cells) ->
  (r, c, v) ∈ cells -> cell P1 r c = Some v.
Proof.
  induction cells as [|[[r0 c0] v0] cells IH]; intros P0 P1 r c v H Hpos Hnd Hin.
  - by apply elem_of_nil in Hin.
  - simpl in *. destruct (set_cell P0 r0 c0 v0) as [P2|] eqn:E; [|discriminate].
    simpl in H. apply NoDup_cons in Hnd as [Hfresh Hnd].
    apply Forall_cons in Hpos as [Hc0 Hpos]. simpl in Hc0.
    apply elem_of_cons in Hin as [Heq|Hin].
    + inversion Heq; subst r0 c0 v0.
      rewrite (set_cells_other _ _ _ _ _ H Hpos Hc0 Hfresh).
      by eapply set_cell_same.
    + by eapply IH.
Qed.

Lemma NoDup_fst_zip {A B} (l : list A) : forall k : list B,
  NoDup l -> NoDup (zip l k).*1.
Proof.
  induction l as [|a l IH]; intros [|b k] Hnd; simpl; try constructor.
  - apply NoDup_cons in Hnd as [Ha _]. intros Hin.
    apply list_elem_of_fmap in Hin as ([a' b'] & -> & Hin).
    apply elem_of_zip_l in Hin. done.
  - apply IH. by apply NoDup_cons in Hnd as [_ ?].
Qed.

Lemma NoDup_fst_inj {A B} (l : list (A * B)) x y1 y2 :
  NoDup l.*1 -> (x, y1) ∈ l -> (x, y2) ∈ l -> y1 = y2.
Proof.
  induction l as [|[a b] l IH]; intros Hnd H1 H2.
  - by apply elem_of_nil in H1.
  - simpl in Hnd. apply NoDup_cons in Hnd as [Ha Hnd].
    apply elem_of_cons in H1 as [H1|H1], H2 as [H2|H2].
    + congruence.
    + inversion H1; subst. exfalso. apply Ha.
      apply list_elem_of_fmap. by exists (a, y2).
    + inversion H2; subst. exfalso. apply Ha.
      apply list_elem_of_fmap. by exists (a, y1).
    + by apply IH.
Qed.

Lemma fmap_bind_list {A B C} (f : B -> C) (g : A -> list B) (l : list A) :
  f <$> (l ≫= g) = l ≫= fun x => f <$> g x.
Proof.
  induction l as [|a l IH]; [done|].
  rewrite !bind_cons, fmap_app. by rewrite IH.
Qed.

(** The values of a two-dimensional [m] land in the rows and columns they
    are assigned to, when no row and no column is addressed twice. *)
Lemma setitem_ix_cells P0 rows cols m P1 :
  setitem_ix P0 rows cols m = inr P1 ->
  length m = length rows ->
  NoDup (wrap_index (length P0) <$> rows) ->
  NoDup cols -> Forall (fun c => 0 <= c) cols ->
  forall (k j : nat) i vals val r c,
    rows !! k = Some i -> m !! k = Some vals ->
    cols !! j = Some c -> vals !! j = Some val ->
    wrap_index (length P0) i = Some r -> cell P1 r c = Some val.
Proof.
  unfold setitem_ix. intros H Hlen Hnd Hndc Hpos k j i vals val r c Hi Hm Hc
    Hv Hr.
  destruct (mapM (wrap_index (length P0)) rows) as [rs|] eqn:Ers;
    [|discriminate].
  simpl in H. apply mapM_Some in Ers.
  pose proof (Forall2_length _ _ _ Ers) as Hl.
  unfold broadcast in H. rewrite decide_True in H by congruence.
  simpl in H.
  destruct (set_cells P0 _) as [P2|] eqn:Ec; [|discriminate].
  simpl in H. inversion H; subst P2.
  assert (NoDup rs) as Hrs.
  { assert (wrap_index (length P0) <$> rows = Some <$> rs) as Heq.
    { clear -Ers. induction Ers as [|???? Hw ? IH]; [done|].
      rewrite !fmap_cons. by rewrite Hw, IH. }
    rewrite Heq in Hnd. by apply NoDup_fmap_1 in Hnd. }
  assert ((r, vals) ∈ zip rs m) as Hin.
  { apply list_elem_of_lookup. exists k. rewrite lookup_zip_with.
    destruct (Forall2_lookup_l _ _ _ _ _ Ers Hi) as (r' & Hr' & Hw).
    rewrite Hr in Hw. inversion Hw; subst r'. by rewrite Hr', Hm. }
  eapply set_cells_at; [exact Ec| | |].
  - apply Forall_forall. intros [[r1 c1] v1] Hcell.
    apply list_elem_of_bind in Hcell as ([r2 vals2] & Hcell & _).
    apply list_elem_of_fmap in Hcell as ([c2 v2] & Heq & Hz).
    inversion Heq; subst. simpl.
    apply elem_of_zip_l in Hz. by eapply Forall_forall in Hpos.
  - rewrite fmap_bind_list. apply NoDup_bind.
    + intros [r1 vals1] [r2 vals2] [r3 c3] H1 H2 Hy1 Hy2.
      apply list_elem_of_fmap in Hy1 as ([[? ?] ?] & Heq1 & Hy1).
      apply list_elem_of_fmap in Hy1 as ([? ?] & Heq1' & _).
      apply list_elem_of_fmap in Hy2 as ([[? ?] ?] & Heq2 & Hy2).
      apply list_elem_of_fmap in Hy2 as ([? ?] & Heq2' & _).
      simpl in *. inversion Heq1'; inversion Heq2'; subst.
      inversion Heq1; inversion Heq2; subst.
      f_equal. eapply NoDup_fst_inj; [|exact H1|exact H2].
      by apply NoDup_fst_zip.
    + intros [r1 vals1] _. rewrite <- list_fmap_compose.
      assert (((fun c0 : nat * Z * Z => c0.1) ∘ (fun '(c0, x) => (r1, c0, x)))
              <$> zip cols vals1
              = (fun c0 => (r1, c0)) <$> (zip cols vals1).*1) as ->.
      { rewrite <- list_fmap_compose. apply list_fmap_ext. by intros ? [? ?]. }
      apply NoDup_fmap_2; [by intros ?? [= ->]|]. by apply NoDup_fst_zip.
    + eapply NoDup_fmap_1. by apply NoDup_fst_zip.
  - apply list_elem_of_bind. exists (r, vals). split; [|done].
    apply list_elem_of_fmap. exists (c, val). split; [done|].
    apply list_elem_of_lookup. exists j. by rewrite lookup_zip_with, Hc, Hv.
Qed.

(** What [predict_fold_est] does once the data is sliced, transformed and
    predicted: one assignment at the shifted rows. *)
Lemma predict_fold_est_writes case tr_list inst_name est xtest idx name attr w
    x y' rows x' p :
  _slice_array xtest None idx.1 = inr (x, y', Some rows) ->
  apply_steps tr_list x = inr x' ->
  getattr_call est attr x' = inr p ->
  predict_fold_est case tr_list inst_name est xtest SharedP idx name attr w
  = match assign (P w)
            ((fun i => i - (Z.of_nat (length xtest) - Z.of_nat (length (P w))))
             <$> rows) idx.2 p with
    | inr P1 => (Ok tt, with_P w P1)
    | inl e => (Raise e, w)
    end.
Proof.
  intros Hs Hx Hp. unfold predict_fold_est. rewrite Hs.
  rewrite (bind_Ok _ _ _ _ _ (lift_inr _ _)).
  rewrite (bind_Ok _ _ _ _ _ (transform_loop_ok _ _ case name _ w Hx)).
  rewrite (bind_Ok _ _ _ _ _ (_predict_est_ok _ _ _ _ _ _ _ _ w Hp)).
  unfold pred_shape0, isub, shape_of, assign_rows, read_P, bind, ret. simpl.
  by destruct (assign _ _ _ _).
Qed.

(** The same for a fold task of [fit]: the fitted estimator predicts its
    held-out rows, the values are assigned at the shifted rows, and the
    estimator is cached. *)
Lemma fit_est_writes fuel dir case inst_name inst X y idx0 tei col
    raise_on_exception preprocess name ivals attr scorer w
    x z i0 steps x1 f x2 z2 rows x2' p :
  _slice_array X (Some y) idx0 = inr (x, z, i0) ->
  (if preprocess : bool
   then fs w !! path_join dir (py_str (case_arg case) ++ "__t")
        = Some (TPayload steps)
   else steps = []) ->
  apply_steps steps x = inr x1 ->
  est_fit inst x1 z = inr f ->
  _slice_array X (Some y) (Some tei) = inr (x2, z2, Some rows) ->
  apply_steps steps x2 = inr x2' ->
  getattr_call (Some f) attr x2' = inr p ->
  fit_est fuel dir case inst_name inst X y (Some SharedP) (idx0, Some tei, col)
    raise_on_exception preprocess name ivals attr scorer w
  = match assign (P w)
            ((fun i => i - (Z.of_nat (length X) - Z.of_nat (length (P w))))
             <$> rows) col p with
    | inr P1 =>
        (Ok tt,
         with_cache (with_P w P1)
           (<[path_join dir
                (py_str (case_arg case) ++ "__" ++ inst_name ++ "__e")
              := EPayload inst_name (Some f) (Some tei, col)
                   (try_score scorer z2 p)]> (cache w)))
    | inl e => (Raise e, w)
    end.
Proof.
  intros Hs Hload Hx Hf Hs2 Hx2 Hp. unfold fit_est. rewrite Hs.
  rewrite (bind_Ok _ _ _ _ _ (lift_inr _ _)).
  erewrite bind_Ok; last first.
  { destruct preprocess.
    - erewrite bind_Ok; last by apply format_inr, tkey_format.
      erewrite bind_Ok; last by apply _load_trans_readable.
      reflexivity.
    - subst steps. reflexivity. }
  rewrite (bind_Ok _ _ _ _ _ (transform_loop_ok _ _ case name _ w Hx)).
  rewrite (bind_Ok _ _ _ _ _ (_fit_est_ok _ _ _ _ _ _ _ _ w Hf)).
  rewrite Hs2.
  unfold bind at 1. unfold bind at 1.
  rewrite lift_inr.
  rewrite (bind_Ok _ _ _ _ _ (transform_loop_ok _ _ case name _ w Hx2)).
  rewrite (bind_Ok _ _ _ _ _ (_predict_est_ok _ _ _ _ _ _ _ _ w Hp)).
  unfold pred_shape0, isub, shape_of, assign_rows, read_P, bind, ret. simpl.
  destruct (assign _ _ _ _); [done|]. reflexivity.
Qed.

(** C6.  In the fold tasks of [fit] and of [transform], when [X] has more
    rows than [P], every resolved held-out row index is decreased by
    [X.rows - P.rows] before it indexes [P]: the matrix after the task is
    [P] with the predictions assigned at the shifted rows and the assigned
    column(s).  When no shifted row repeats, entry [k] of a one-dimensional
    prediction is then found in row [rows[k] - (X.rows - P.rows)], column
    [col], and entry [(k, j)] of a two-dimensional one in that row, column
    [col + j]. *)
Theorem fold_predictions_land_on_rebased_rows
    (fuel : nat) (dir : string) (case : option string) (inst_name : string)
    (inst : estimator) (X : matrix) (y : list Z)
    (idx0 : option index_spec) (tei : index_spec) (col : Z)
    (raise_on_exception preprocess : bool) (name : option string)
    (ivals : Z * Z) (attr : string) (scorer : option scorer_t) (w : world)
    (x : matrix) (z : option (list Z)) (i0 : option (list Z))
    (steps : list (string * fitted_tr)) (x1 : matrix) (f : fitted_est)
    (x2 : matrix) (z2 : option (list Z)) (rows : list Z) (x2' : matrix)
    (p : ndarray) (P1 : matrix) :
  let rebase := Z.of_nat (length X) - Z.of_nat (length (P w)) in
  let shifted := (fun i => i - rebase) <$> rows in
  (length (P w) < length X)%nat ->
  _slice_array X (Some y) (Some tei) = inr (x2, z2, Some rows) ->
  apply_steps steps x2 = inr x2' ->
  getattr_call (Some f) attr x2' = inr p ->
  assign (P w) shifted col p = inr P1 ->
  (_slice_array X (Some y) idx0 = inr (x, z, i0) ->
   (if preprocess
    then fs w !! path_join dir (py_str (case_arg case) ++ "__t")
         = Some (TPayload steps)
    else steps = []) ->
   apply_steps steps x = inr x1 ->
   est_fit inst x1 z = inr f ->
   let run := fit_est fuel dir case inst_name inst X y (Some SharedP)
                (idx0, Some tei, col) raise_on_exception preprocess name ivals
                attr scorer w in
   run.1 = Ok tt /\ P run.2 = P1)
  /\ (let run := predict_fold_est case steps inst_name (Some f) X SharedP
                   (Some tei, col) name attr w in
      run.1 = Ok tt /\ P run.2 = P1)
  /\ (forall v, p = Vec v -> length v = length rows ->
        NoDup (wrap_index (length (P w)) <$> shifted) ->
        forall (k : nat) i val r,
          rows !! k = Some i -> v !! k = Some val ->
          wrap_index (length (P w)) (i - rebase) = Some r ->
          cell P1 r col = Some val)
  /\ (forall m, p = Mat m -> length m = length rows -> 0 <= col ->
        NoDup (wrap_index (length (P w)) <$> shifted) ->
        forall (k j : nat) i vals val r,
          rows !! k = Some i -> m !! k = Some vals -> vals !! j = Some val ->
          Z.of_nat j < shape1 m ->
          wrap_index (length (P w)) (i - rebase) = Some r ->
          cell P1 r (col + Z.of_nat j) = Some val).
Proof.
  intros rebase shifted Hrows Hs2 Hx2 Hp Ha. split; [|split; [|split]].
  - intros Hs Hload Hx Hf run. subst run.
    erewrite fit_est_writes by eauto.
    fold rebase. fold shifted. by rewrite Ha.
  - intros run. subst run.
    assert (_slice_array X None (Some tei) = inr (x2, None, Some rows)) as Hs.
    { clear -Hs2. unfold _slice_array in *.
      destruct (resolve_index (Some tei)) as [e|[r|]]; simpl in *;
        try discriminate.
      destruct (np_take X r); simpl in *; [discriminate|].
      destruct (np_take y r); simpl in *; [discriminate|].
      by inversion Hs2; subst. }
    erewrite predict_fold_est_writes by eauto. simpl.
    fold rebase. fold shifted. by rewrite Ha.
  - intros v -> Hlen Hnd k i val r Hi Hv Hr. simpl in Ha.
    eapply (setitem_col_cells _ _ _ _ _ Ha) with (k := k) (i := i - rebase).
    + subst shifted. by rewrite length_fmap.
    + done.
    + subst shifted. by rewrite list_lookup_fmap, Hi.
    + done.
    + done.
  - intros m -> Hlen Hcol Hnd k j i vals val r Hi Hm Hv Hj Hr. simpl in Ha.
    eapply (setitem_ix_cells _ _ _ _ _ Ha) with (k := k) (j := j)
      (i := i - rebase) (vals := vals).
    + subst shifted. by rewrite length_fmap.
    + done.
    + apply NoDup_arange.
    + eapply Forall_impl; [apply Forall_arange_ge|]. simpl. lia.
    + subst shifted. by rewrite list_lookup_fmap, Hi.
    + done.
    + apply lookup_arange. unfold shape1 in *. lia.
    + done.
    + done.
Qed.

(** ** What a task writes to the cache *)

Lemma file_view_cache : file_view cache.
Proof. by intros ????. Qed.

Lemma file_view_pending : file_view pending.
Proof. by intros ????. Qed.

Ltac frame_files :=
  repeat
    match goal with
    | |- preserves _ (bind _ _) => apply preserves_bind; [|intros]
    | |- preserves _ (try_except _ _ _) => apply preserves_try_except; [|intros]
    | |- preserves _ (lift _) => apply preserves_lift
    | |- preserves _ (format _ _) => apply preserves_format
    | |- preserves _ (pickle_load _) => apply preserves_pickle_load
    | |- preserves _ (match ?x with _ => _ end) => destruct x
    | |- preserves _ _ => solve [auto with frame]
    | |- preserves _ _ => by intros ?
    | H : file_view ?f |- preserves ?f _ => intros ?; apply H
    end.

Section files.
Context {C : Type} (f : world -> C) (Hf : file_view f).

Lemma files_load_trans_poll fuel : forall dir case s lim msg b ts,
  preserves f (_load_trans_poll fuel dir case s lim msg b ts).
Proof using Hf.
  induction fuel as [|fuel IH]; intros dir case s lim msg b ts; simpl.
  - by intros ?.
  - unfold os_path_exists, sleep, time_, warn. frame_files.
Qed.

Lemma files_load_trans fuel dir case ivals b :
  preserves f (_load_trans fuel dir case ivals b).
Proof using Hf.
  unfold _load_trans, time_. frame_files. apply files_load_trans_poll.
Qed.

Lemma files_fit_est x y est b inst_name case name :
  preserves f (_fit_est x y est b inst_name case name).
Proof using Hf. unfold _fit_est, warn. frame_files. Qed.

Lemma files_predict_est x est b inst_name case name attr :
  preserves f (_predict_est x est b inst_name case name attr).
Proof using Hf. unfold _predict_est, warn. frame_files. Qed.

Lemma files_assign_rows rows col p : preserves f (assign_rows rows col p).
Proof using Hf. unfold assign_rows, read_P, write_P. frame_files. Qed.

Lemma files_pred_shape0 pred : preserves f (pred_shape0 pred).
Proof using Hf. unfold pred_shape0, read_P. frame_files. Qed.
End files.

Lemma preserves_isub {C} (f : world -> C) tei rebase :
  preserves f (isub tei rebase).
Proof. unfold isub. frame. Qed.

Lemma preserves_shape_of {C} (f : world -> C) p : preserves f (shape_of p).
Proof. unfold shape_of. frame. Qed.

#[export] Hint Resolve preserves_isub preserves_shape_of file_view_cache
  file_view_pending files_load_trans files_fit_est files_predict_est
  files_assign_rows files_pred_shape0 : frame.

Lemma fit_chain_names multi inst : forall x y out,
  fit_chain multi inst x y = inr out -> out.*1 = inst.*1.
Proof.
  induction inst as [|[n tr] rest IH]; intros x y out H; simpl in *.
  - by inversion H.
  - destruct (tr_fit tr x y) as [e|f0]; [discriminate|]. simpl in H.
    destruct (if multi then tr_transform f0 x else inr x) as [e|x1];
      [discriminate|].
    simpl in H.
    destruct (fit_chain multi rest x1 y) as [e|o] eqn:E; [discriminate|].
    simpl in H. inversion H; subst. simpl. f_equal. by eapply IH.
Qed.

(** A transformer task that returns has written exactly one file. *)
Lemma fit_trans_persists dir case inst X y idx name w w' :
  fit_trans dir case inst X y idx name w = (Ok tt, w') ->
  exists x y' i out,
    _slice_array X (Some y) idx = inr (x, y', i)
    /\ fit_chain (bool_decide (1 < length inst)%nat) inst x y' = inr out
    /\ out.*1 = inst.*1
    /\ w' = with_cache w (<[tkey dir case := TPayload out]> (cache w)).
Proof.
  unfold fit_trans. intros H.
  destruct (_slice_array X (Some y) idx) as [e|[[x y'] i]] eqn:Es.
  { by rewrite (bind_Raise _ _ _ _ _ (lift_inl _ _)) in H. }
  rewrite (bind_Ok _ _ _ _ _ (lift_inr _ _)) in H.
  destruct (fit_chain (bool_decide (1 < length inst)%nat) inst x y')
    as [e|out] eqn:Ec.
  { destruct (fit_trans_loop_raises _ _ _ _ case name _ w Ec) as [m Hm].
    by rewrite (bind_Raise _ _ _ _ _ Hm) in H. }
  rewrite (bind_Ok _ _ _ _ _ (fit_trans_loop_ok _ _ _ _ case name _ w Ec)) in H.
  rewrite (bind_Ok _ _ _ _ _ (format_inr _ _ _ w (tkey_format case))) in H.
  unfold pickle_save in H. inversion H; subst w'.
  exists x, y', i, out. repeat split; try done. by eapply fit_chain_names.
Qed.

(** Splits [H : bind m k w = (Ok _, _)] and records that [m] left the files
    alone. *)
Ltac split_bind H :=
  let a := fresh "a" in
  let w1 := fresh "w" in
  let Hm := fresh "Hm" in
  let Hc := fresh "Hc" in
  let Hp := fresh "Hp" in
  apply bind_Ok_inv in H as (a & w1 & Hm & H);
  match type of Hm with
  | ?m ?w0 = _ =>
      assert (preserves cache m) as Hc by frame_files;
      assert (preserves pending m) as Hp by frame_files;
      specialize (Hc w0); specialize (Hp w0);
      rewrite Hm in Hc, Hp; simpl in Hc, Hp
  end.

Lemma _fit_est_inv x y est b inst_name case name r w w' :
  _fit_est x y est b inst_name case name w = (Ok r, w') ->
  match est_fit est x y with
  | inr f => r = Some f
  | inl _ => r = None /\ b = false
  end.
Proof.
  unfold _fit_est. destruct (est_fit est x y) as [e|f]; intros H.
  - destruct b; [discriminate|]. by inversion H.
  - by inversion H.
Qed.

(** An estimator task that returns has written exactly one file: its name,
    the fitted object (or [None]), the held-out index specification with the
    column, and the score (or [None]). *)
Lemma fit_est_persists fuel dir case inst_name inst X y pred idx0 idx1 idx2
    raise_on_exception preprocess name ivals attr scorer w w' :
  fit_est fuel dir case inst_name inst X y pred (idx0, idx1, idx2)
    raise_on_exception preprocess name ivals attr scorer w = (Ok tt, w') ->
  exists est s,
    cache w' = <[ekey dir case inst_name
                 := EPayload inst_name est (idx1, idx2) s]> (cache w)
    /\ pending w' = pending w
    /\ fitted_by inst raise_on_exception est
    /\ (idx1 = None -> s = None).
Proof.
  unfold fit_est. intros H.
  split_bind H. destruct a as [[x z] i].
  split_bind H.
  split_bind H.
  split_bind H.
  split_bind H. destruct a2 as [idx s].
  rewrite (bind_Ok _ _ _ _ _ (format_inr _ _ _ _ (ekey_format case inst_name)))
    in H.
  unfold pickle_save in H. inversion H; subst w'. simpl.
  assert (idx = (idx1, idx2) /\ (idx1 = None -> s = None)) as [-> Hs].
  { clear -Hm3. destruct idx1 as [t|].
    - repeat (apply bind_Ok_inv in Hm3 as (? & ? & _ & Hm3);
              repeat match goal with x : _ * _ |- _ => destruct x end).
      inversion Hm3. by split.
    - inversion Hm3. by split. }
  exists a1, s. unfold ekey. split; [congruence|]. split; [congruence|].
  split; [|done]. exists a0, z. by eapply _fit_est_inv.
Qed.

Lemma fs_no_pending w : pending w = [] -> fs w = cache w.
Proof. intros H. unfold fs. by rewrite H. Qed.

Lemma _assemble_t_one dir case tri tei il v w :
  fs w !! tkey dir case = Some v ->
  _assemble_t dir (Some [(case, tri, tei, il)]) w = (Ok (Some [(case, v)]), w).
Proof.
  intros H. unfold _assemble_t. simpl.
  erewrite bind_Ok; last first.
  { erewrite bind_Ok; last first.
    { erewrite bind_Ok; last by apply format_inr, tkey_format2.
      erewrite bind_Ok; last by apply pickle_load_found, H.
      reflexivity. }
    reflexivity. }
  reflexivity.
Qed.

Lemma _assemble_e_one dir case tri tei inst_name e0 n est idx s w :
  fs w !! ekey dir case inst_name = Some (EPayload n est idx s) ->
  _assemble_e dir [(case, tri, tei, [(inst_name, e0)])] w
  = (Ok ([(case, (n, est, idx))], [(score_key case inst_name, s)]), w).
Proof.
  intros H. unfold _assemble_e.
  destruct case as [c|]; simpl.
  - erewrite bind_Ok; last first.
    { erewrite bind_Ok; last first.
      { erewrite bind_Ok;
          last by apply format_inr, (ekey_format3 (Some c)).
        erewrite bind_Ok; last by apply pickle_load_found, H.
        reflexivity. }
      reflexivity. }
    reflexivity.
  - erewrite bind_Ok; last first.
    { erewrite bind_Ok; last first.
      { erewrite bind_Ok; last by apply format_inr, (ekey_format3 None).
        erewrite bind_Ok; last by apply pickle_load_found, H.
        reflexivity. }
      reflexivity. }
    reflexivity.
Qed.

(** C8.  A transformer task that completes has stored, under the case name
    followed by [__t], the list of its fitted steps in pipeline order; an
    estimator task that completes has stored, under the case name, [__], the
    instance name and [__e], the tuple of the instance name, the fitted
    object, the held-out index specification with the column, and the score
    or [None]; [_assemble] reads the entries back under the same keys. *)
Theorem cache_entries_and_keys (dir : string) (case : option string)
    (X : matrix) (y : list Z) (name : option string) (w w' : world) :
  (forall c n, tkey dir (Some c) = path_join dir (c ++ "__t")
               /\ ekey dir (Some c) n = path_join dir (c ++ "__" ++ n ++ "__e"))
  /\ (forall inst idx,
        fit_trans dir case inst X y idx name w = (Ok tt, w') ->
        exists x y' i out,
          _slice_array X (Some y) idx = inr (x, y', i)
          /\ fit_chain (bool_decide (1 < length inst)%nat) inst x y' = inr out
          /\ out.*1 = inst.*1
          /\ cache w' = <[tkey dir case := TPayload out]> (cache w)
          /\ (pending w = [] ->
              forall tri tei il,
                _assemble_t dir (Some [(case, tri, tei, il)]) w'
                = (Ok (Some [(case, TPayload out)]), w')))
  /\ (forall fuel inst_name inst pred idx0 idx1 idx2 raise_on_exception
             preprocess ivals attr scorer,
        fit_est fuel dir case inst_name inst X y pred (idx0, idx1, idx2)
          raise_on_exception preprocess name ivals attr scorer w
        = (Ok tt, w') ->
        exists est s,
          cache w' = <[ekey dir case inst_name
                       := EPayload inst_name est (idx1, idx2) s]> (cache w)
          /\ fitted_by inst raise_on_exception est
          /\ (idx1 = None -> s = None)
          /\ (pending w = [] ->
              forall tri tei e0,
                _assemble_e dir [(case, tri, tei, [(inst_name, e0)])] w'
                = (Ok ([(case, (inst_name, est, (idx1, idx2)))],
                       [(score_key case inst_name, s)]), w'))).
Proof.
  split; [done|]. split.
  - intros inst idx H.
    destruct (fit_trans_persists _ _ _ _ _ _ _ _ _ H)
      as (x & y' & i & out & Hs & Hc & Hn & ->).
    exists x, y', i, out. repeat split; try done.
    intros Hp tri tei il. apply _assemble_t_one.
    rewrite fs_no_pending by done. simpl. apply lookup_insert_eq.
  - intros fuel inst_name inst pred idx0 idx1 idx2 raise_on_exception
      preprocess ivals attr scorer H.
    destruct (fit_est_persists _ _ _ _ _ _ _ _ _ _ _ _ _ _ _ _ _ _ _ H)
      as (est & s & Hc & Hp & Hfit & Hs).
    exists est, s. split; [done|]. split; [done|]. split; [done|].
    intros Hp0 tri tei e0. apply _assemble_e_one.
    rewrite fs_no_pending by congruence. rewrite Hc. apply lookup_insert_eq.
Qed.

(** ** Reducing the scores *)

Lemma _build_scores_grouped self s groups w :
  grouped self s = inr groups ->
  BaseEstimator._build_scores self s w
  = map_M (fun '(k, v) =>
             let* r := _mean_score v (BaseEstimator.raise_ self) k
                         (BaseEstimator.name self) in
             ret (k, r)) groups w.
Proof.
  unfold grouped, BaseEstimator._build_scores. intros H.
  destruct (BaseEstimator.shell _ _) as [e|s1]; [discriminate|].
  simpl in H. rewrite (bind_Ok _ _ _ _ _ (lift_inr _ _)).
  rewrite H. by rewrite (bind_Ok _ _ _ _ _ (lift_inr _ _)).
Qed.

Lemma _mean_score_ok v b k name r w :
  np_mean_std v = inr r -> _mean_score v b k name w = (Ok (Some r), w).
Proof. intros H. unfold _mean_score. by rewrite H. Qed.

Lemma _mean_score_raises v k name e w :
  np_mean_std v = inl e ->
  exists m, _mean_score v true k name w
            = (Raise (Exn ParallelProcessingError m), w).
Proof. intros H. unfold _mean_score. rewrite H. eexists. reflexivity. Qed.

Lemma _mean_score_warns v k name e w :
  np_mean_std v = inl e ->
  exists m, _mean_score v false k name w
            = (Ok None,
               with_log w (log w ++ [Warning ParallelProcessingWarning m])).
Proof. intros H. unfold _mean_score. rewrite H. eexists. reflexivity. Qed.

(** Without the raising policy the reduction loop always returns: the whole
    table, and one warning for each group that failed. *)
Lemma aggregate_warns name groups : forall w,
  exists w',
    map_M (fun '(k, v) => let* r := _mean_score v false k name in ret (k, r))
      groups w
    = (Ok (reduce_table groups), w')
    /\ warned w'
       = (warned w
          ++ replicate (length (filter fails groups)) ParallelProcessingWarning)%list.
Proof.
  induction groups as [|[k v] groups IH]; intros w.
  - exists w. split; [done|]. simpl. by rewrite app_nil_r.
  - simpl. destruct (np_mean_std v) as [e|r] eqn:E.
    + destruct (_mean_score_warns v k name e w E) as [m Hm].
      destruct (IH (with_log w (log w ++ [Warning ParallelProcessingWarning m])))
        as (w' & Hrun & Hw).
      exists w'. split.
      * erewrite bind_Ok; last by (erewrite bind_Ok; [reflexivity|exact Hm]).
        erewrite bind_Ok; last exact Hrun.
        reflexivity.
      * rewrite Hw. unfold warned. simpl.
        rewrite filter_cons_True by (by exists e). simpl.
        rewrite fmap_app. simpl. by rewrite <- app_assoc.
    + destruct (IH w) as (w' & Hrun & Hw).
      exists w'. split.
      * erewrite bind_Ok;
          last by (erewrite bind_Ok;
                   [reflexivity|by apply _mean_score_ok]).
        erewrite bind_Ok; last exact Hrun.
        reflexivity.
      * rewrite Hw.
        rewrite filter_cons_False; [done|].
        intros [e He]. simpl in He. congruence.
Qed.

(** Under the raising policy one failing group is enough to abort. *)
Lemma aggregate_raises name groups : forall w,
  Exists fails groups ->
  raised_class
    (map_M (fun '(k, v) => let* r := _mean_score v true k name in ret (k, r))
       groups w)
  = Some ParallelProcessingError.
Proof.
  induction groups as [|[k v] groups IH]; intros w Hex.
  - by apply Exists_nil in Hex.
  - simpl. destruct (np_mean_std v) as [e|r] eqn:E.
    + destruct (_mean_score_raises v k name e w E) as [m Hm].
      erewrite bind_Raise;
        last by (erewrite bind_Raise; [reflexivity|exact Hm]).
      reflexivity.
    + apply Exists_cons in Hex as [[e He]|Hex];
        [simpl in He; congruence|].
      erewrite bind_Ok;
        last by (erewrite bind_Ok; [reflexivity|by apply _mean_score_ok]).
      specialize (IH w Hex). unfold raised_class in *.
      unfold bind at 1.
      destruct (map_M _ groups w) as [[a|e|] w']; simpl in *; congruence.
Qed.

(** C9, as the code has it.  Where the reduction of a group fails,
    [_mean_score] raises [ParallelProcessingError] under the raising policy
    and warns otherwise; without the raising policy [_build_scores] returns
    a table that keeps every key, and maps the key of a failed group to
    [None] instead of a (mean, std) pair. *)
Theorem failed_score_reduction_follows_policy
    (self : BaseEstimator.slots) (s : list (string * option Z))
    (groups : list (string * list (option Z))) (w : world) :
  grouped self s = inr groups ->
  (BaseEstimator.raise_ self = true ->
   Exists fails groups ->
   raised_class (BaseEstimator._build_scores self s w)
   = Some ParallelProcessingError)
  /\ (BaseEstimator.raise_ self = false ->
      exists w',
        BaseEstimator._build_scores self s w = (Ok (reduce_table groups), w')
        /\ warned w'
           = (warned w
              ++ replicate (length (filter fails groups))
                   ParallelProcessingWarning)%list
        /\ (reduce_table groups).*1 = groups.*1
        /\ forall k v, (k, v) ∈ groups -> fails (k, v) ->
             (k, None) ∈ reduce_table groups).
Proof.
  intros Hg. split.
  - intros Hr Hex. rewrite (_build_scores_grouped _ _ _ _ Hg), Hr.
    by apply aggregate_raises.
  - intros Hr. rewrite (_build_scores_grouped _ _ _ _ Hg), Hr.
    destruct (aggregate_warns (BaseEstimator.name self) groups w)
      as (w' & Hrun & Hw).
    exists w'. repeat split; try done.
    + unfold reduce_table. rewrite <- list_fmap_compose.
      apply list_fmap_ext. by intros ? [? ?].
    + intros k v Hin [e He]. unfold reduce_table.
      apply list_elem_of_fmap. exists (k, v). split; [|done].
      simpl in He. by rewrite He.
Qed.

(** ** The wait for the transformers *)

Lemma never_written_fs w f :
  never_written w f = true ->
  forall w', cache w' = cache w -> pending w' = pending w -> fs w' !! f = None.
Proof.
  unfold never_written, fs. intros H w' -> ->.
  destruct (cache w !! f) as [v|] eqn:E; [discriminate|].
  revert H E. generalize (cache w). induction (pending w) as [|[[t k] v] l IH];
    intros m H E; [done|].
  simpl in *. apply andb_true_iff in H as [Hk H].
  apply IH; [done|]. case_decide; [|done].
  rewrite lookup_insert_ne; [done|].
  intros ->. by rewrite String.eqb_refl in Hk.
Qed.

Lemma wait_format case dir s lim :
  py_format wait_fmt [case_arg case; AStr dir; ATime s; ATime lim]
  = inr (wait_msg case dir s lim).
Proof. reflexivity. Qed.

Lemma tick_tick w a b : tick (tick w a) b = tick w (a + b).
Proof. unfold tick. simpl. f_equal. lia. Qed.

(** One poll on a file that never appears. *)
Lemma poll_step fuel dir case s lim msg b ts w :
  never_written w dir = true -> 0 <= s ->
  _load_trans_poll (S fuel) dir case s lim msg b ts w
  = if decide (clock w + s - ts > lim) then
      if b then (Raise too_few, tick w s)
      else _load_trans_poll fuel dir case s lim msg true (clock w + s)
             (with_log (tick w s)
                (log w ++ [Warning ParallelProcessingWarning
                             (wait_msg case dir s lim)]))
    else _load_trans_poll fuel dir case s lim msg b ts (tick w s).
Proof.
  intros Hnever Hs. cbn [_load_trans_poll].
  unfold os_path_exists, bind at 1.
  rewrite (never_written_fs _ _ Hnever w) by done.
  rewrite bool_decide_false by (by intros [? ?]).
  unfold sleep. rewrite decide_False by lia.
  unfold bind at 1. unfold time_ at 1. unfold bind at 1.
  cbn [clock]. case_decide; [|done].
  destruct b.
  - unfold format. rewrite load_error_format. reflexivity.
  - unfold format. rewrite wait_format. reflexivity.
Qed.

(** One timeout window of [S n] polls on a file that never appears: under
    the raising policy it ends in the failed formatting of the error
    message; otherwise in one warning, after which polling goes on under the
    raising policy with a fresh timer. *)
Lemma poll_window dir case s lim msg (n : nat) : forall fuel w b ts,
  never_written w dir = true -> 0 < s ->
  clock w + Z.of_nat n * s - ts <= lim ->
  lim < clock w + Z.of_nat (S n) * s - ts ->
  _load_trans_poll (S n + fuel) dir case s lim msg b ts w
  = if b then (Raise too_few, tick w (Z.of_nat (S n) * s))
    else _load_trans_poll fuel dir case s lim msg true
           (clock w + Z.of_nat (S n) * s)
           (with_log (tick w (Z.of_nat (S n) * s))
              (log w ++ [Warning ParallelProcessingWarning
                           (wait_msg case dir s lim)])).
Proof.
  induction n as [|n IH]; intros fuel w b ts Hnever Hs Hlo Hhi.
  - change (1 + fuel)%nat with (S fuel).
    rewrite poll_step by (done || lia).
    rewrite decide_True by lia.
    replace (Z.of_nat 1 * s) with s by lia. reflexivity.
  - change (S (S n) + fuel)%nat with (S (S n + fuel)).
    rewrite poll_step by (done || lia).
    rewrite decide_False by lia.
    rewrite (IH fuel (tick w s) b ts); try done; try (simpl; lia).
    rewrite tick_tick. simpl clock.
    replace (s + Z.of_nat (S n) * s) with (Z.of_nat (S (S n)) * s) by lia.
    replace (clock w + s + Z.of_nat (S n) * s)
      with (clock w + Z.of_nat (S (S n)) * s) by lia.
    reflexivity.
Qed.

Lemma polls_bounds s lim :
  0 < s -> 0 <= lim ->
  Z.of_nat (Z.to_nat (lim / s)) * s <= lim
  /\ lim < Z.of_nat (polls s lim) * s.
Proof.
  intros Hs Hlim. unfold polls.
  assert (0 <= lim / s) by (apply Z.div_pos; lia).
  rewrite Nat2Z.inj_succ, Z2Nat.id by done.
  pose proof (Z.mul_div_le lim s Hs).
  pose proof (Z.mul_succ_div_gt lim s Hs). lia.
Qed.

(** C3, as the code has it.  [_load_trans] returns the payload of a readable
    key at once.  When the key is absent and [raise_on_exception] is set, it
    fails at once, without sleeping, but with the [TypeError] of the error
    message's formatting (three conversions, one argument), not with a
    [ParallelProcessingError].  When the key never appears and the flag is
    not set, it polls every [s], warns once when the first window of
    [polls s lim] polls is over, and ends in the same [TypeError] when the
    second window is over, having slept [2 * polls s lim * s] in all. *)
Theorem load_trans_timeout_is_a_TypeError
    (fuel : nat) (dir : string) (case : option string) (s lim : Z)
    (w : world) :
  (forall b v, fs w !! dir = Some v ->
     _load_trans fuel dir case (s, lim) b w = (Ok v, w))
  /\ (fs w !! dir = None ->
      _load_trans fuel dir case (s, lim) true w = (Raise too_few, w))
  /\ (never_written w dir = true -> 0 < s -> 0 <= lim ->
      _load_trans (2 * polls s lim + fuel) dir case (s, lim) false w
      = (Raise too_few,
         with_log (tick w (2 * Z.of_nat (polls s lim) * s))
           (log w ++ [Warning ParallelProcessingWarning
                        (wait_msg case dir s lim)]))).
Proof.
  split; [|split].
  - intros b v H. by apply _load_trans_readable.
  - intros H. unfold _load_trans, try_except, pickle_load. rewrite H.
    rewrite decide_True by set_solver. reflexivity.
  - intros Hnever Hs Hlim.
    pose proof (never_written_fs _ _ Hnever w eq_refl eq_refl) as Hfs.
    destruct (polls_bounds s lim Hs Hlim) as [Hlo Hhi].
    unfold _load_trans, try_except, pickle_load. rewrite Hfs.
    rewrite decide_True by set_solver.
    cbn [fst snd exn_msg]. unfold time_ at 1. unfold bind at 1.
    unfold polls in *. set (n := Z.to_nat (lim / s)) in *.
    replace (2 * S n + fuel)%nat with (S n + (S n + fuel))%nat by lia.
    rewrite poll_window by (done || lia).
    rewrite poll_window; try done; try (simpl; lia).
    simpl. unfold with_log, tick. simpl. do 2 f_equal. lia.
Qed.

(** A file that another worker writes during the second window is loaded:
    the warning of the first window has been emitted, nothing is raised. *)
Example late_file_is_loaded :
  let run := _load_trans 20 (tkey "cache" (Some "c")) (Some "c") (1, 3) false
               Sample.w_late in
  run.1 = Ok (TPayload [("plus1", Sample.plus1)])
  /\ warned run.2 = [ParallelProcessingWarning]
  /\ clock run.2 = 5.
Proof. vm_compute. repeat split. Qed.

(** ** A fit that fails under the non-raising policy *)

(** The task of a full-data fit whose estimator cannot be fitted: it warns,
    and caches an entry whose fitted object is [None]. *)
Lemma failed_fit_is_cached fuel dir case inst_name inst X y tri col name ivals
    attr scorer w x z i e :
  _slice_array X (Some y) tri = inr (x, z, i) ->
  est_fit inst x z = inl e ->
  exists m,
    fit_est fuel dir case inst_name inst X y None (tri, None, col) false false
      name ivals attr scorer w
    = (Ok tt,
       with_cache (with_log w (log w ++ [Warning FitFailedWarning m]))
         (<[ekey dir case inst_name
            := EPayload inst_name None (None, col) None]> (cache w))).
Proof.
  intros Hs He. unfold fit_est. rewrite Hs.
  destruct (_fit_est_warns x z inst inst_name case name e w He) as [m Hm].
  exists m.
  rewrite (bind_Ok _ _ _ _ _ (lift_inr _ _)).
  unfold bind at 1. unfold ret at 1. unfold transform_loop.
  unfold bind at 1. unfold ret at 1.
  rewrite (bind_Ok _ _ _ _ _ Hm).
  unfold bind at 1. unfold ret at 1.
  rewrite (bind_Ok _ _ _ _ _ (format_inr _ _ _ _ (ekey_format case inst_name))).
  reflexivity.
Qed.

(** The task of a fold whose estimator cannot predict (or could not be
    fitted): the wrapper warns and hands back [None], and the task fails on
    [p.shape] before anything is written or cached. *)
Lemma failed_predict_ends_the_task fuel dir case inst_name inst X y tri tei col
    name ivals attr scorer w x z i est x2 z2 rows e :
  _slice_array X (Some y) tri = inr (x, z, i) ->
  (_fit_est x z inst false inst_name case name w).1 = Ok est ->
  _slice_array X (Some y) (Some tei) = inr (x2, z2, Some rows) ->
  getattr_call est attr x2 = inl e ->
  let run := fit_est fuel dir case inst_name inst X y (Some SharedP)
               (tri, Some tei, col) false false name ivals attr scorer w in
  raised_class run = Some AttributeError
  /\ cache run.2 = cache w /\ P run.2 = P w
  /\ last (warned run.2) = Some PredictFailedWarning.
Proof.
  intros Hs Hf Hs2 He run.
  destruct (_fit_est x z inst false inst_name case name w) as [r w1] eqn:Ef.
  simpl in Hf. subst r.
  assert (cache w1 = cache w /\ P w1 = P w) as [Hc HP].
  { clear -Ef. unfold _fit_est in Ef. destruct (est_fit inst x z).
    - inversion Ef. by subst.
    - inversion Ef. by subst. }
  destruct (_predict_est_warns x2 est inst_name case name attr e w1 He)
    as [m Hm].
  assert (run
          = (Raise (Exn AttributeError
                      "'NoneType' object has no attribute 'shape'"),
             with_log w1 (log w1 ++ [Warning PredictFailedWarning m])))
    as ->.
  { subst run. unfold fit_est. rewrite Hs.
    rewrite (bind_Ok _ _ _ _ _ (lift_inr _ _)).
    unfold bind at 1. unfold ret at 1. unfold transform_loop at 1.
    unfold bind at 1. unfold ret at 1.
    rewrite (bind_Ok _ _ _ _ _ Ef). rewrite Hs2.
    unfold bind at 1. unfold bind at 1. rewrite lift_inr.
    unfold transform_loop, bind at 1. unfold ret at 1.
    rewrite (bind_Ok _ _ _ _ _ Hm).
    reflexivity. }
  unfold raised_class, warned. simpl. repeat split; try done.
  rewrite fmap_app. apply last_snoc.
Qed.

(** C1, as the code has it.  Under the non-raising policy, with one
    estimator whose fit raises: when it is a full-data fit, [fit] completes
    and warns, but the instance is still listed in [estimators_], with
    [None] as its fitted object; when it is the fit of a fold, [fit] itself
    fails with an [AttributeError]. *)
Theorem failed_estimator_is_not_dropped :
  match BaseEstimator.fit 1 Sample.engine_full Sample.X Sample.y "cache"
          Sample.w0 with
  | (Ok self, w) =>
      listed (BaseEstimator.layer self)
      = [(None, "good", true); (None, "bad", false)]
      /\ warned w = [FitFailedWarning]
  | _ => False
  end
  /\ raised_class
       (BaseEstimator.fit 1 Sample.engine_fold Sample.X Sample.y "cache"
          Sample.w0)
     = Some AttributeError.
Proof. vm_compute. repeat split. Qed.

(** C2, as the code has it.  Under the non-raising policy, a fold task whose
    estimator's predict call raises emits the warning and then fails with an
    [AttributeError]; the matrix stays as it was and nothing is cached. *)
Theorem failed_prediction_crashes_the_task :
  let run := fit_est 1 "cache" None "mute__0" Sample.mute_est Sample.X
               Sample.y (Some SharedP)
               (Some (Range 1 3), Some (Range 0 1), 1) false false
               (Some "layer-1") (1, 6000) "predict" None Sample.w0 in
  raised_class run = Some AttributeError
  /\ warned run.2 = [PredictFailedWarning]
  /\ P run.2 = P Sample.w0
  /\ cache run.2 = ∅.
Proof. vm_compute. repeat split. Qed.

(** ** The check for fitted estimators *)

Lemma check_fitted_list self l w :
  Layer.estimators_ (BaseEstimator.layer self) = Some (EList l) ->
  (l = [] -> forall X,
     raised_class (BaseEstimator.predict self X w) = Some NotFittedError
     /\ (BaseEstimator.predict self X w).2 = w)
  /\ (l <> [] -> BaseEstimator._check_fitted self w = (Ok tt, w)).
Proof.
  intros H. split.
  - intros -> X. unfold BaseEstimator.predict, BaseEstimator._check_fitted,
      check_is_fitted. rewrite H. done.
  - intros Hl. unfold BaseEstimator._check_fitted, check_is_fitted.
    rewrite H. destruct l; done.
Qed.

Lemma check_fitted_dict self d w :
  Layer.estimators_ (BaseEstimator.layer self) = Some (EDict d) ->
  (Exists (fun kv => kv.2 = []) d ->
   raised_class (BaseEstimator._check_fitted self w) = Some NotFittedError)
  /\ (Forall (fun kv => kv.2 <> []) d ->
      BaseEstimator._check_fitted self w = (Ok tt, w)).
Proof.
  intros H. unfold BaseEstimator._check_fitted, check_is_fitted. rewrite H.
  rewrite (bind_Ok _ _ _ _ _ (eq_refl : ret (EDict d) w = (Ok (EDict d), w))).
  unfold bind at 1. unfold ret at 1.
  split.
  - intros Hex.
    assert (existsb (fun '(_, e) => bool_decide (length e = 0%nat)) d = true)
      as ->; [|done].
    apply existsb_exists. apply Exists_exists in Hex as ([k v] & Hin & Hv).
    exists (k, v). split; [by apply list_elem_of_In|].
    simpl in Hv. subst v. done.
  - intros Hall.
    assert (existsb (fun '(_, e) => bool_decide (length e = 0%nat)) d = false)
      as ->; [|done].
    apply not_true_is_false. intros Hex.
    apply existsb_exists in Hex as ([k v] & Hin & Hv).
    apply list_elem_of_In in Hin.
    rewrite Forall_forall in Hall. specialize (Hall _ Hin). simpl in Hall.
    apply bool_decide_eq_true in Hv. by destruct v.
Qed.

(** C7, as the code has it.  For a dict, [_check_fitted] looks for any empty
    value: with one fitted group and one empty group [predict] raises
    [NotFittedError] although a fitted estimator exists, and with no group
    at all the check passes.  For a list it raises exactly when the list is
    empty. *)
Theorem check_fitted_on_a_dict :
  raised_class
    (BaseEstimator.predict
       (Sample.engine_with
          (EDict [("a", [Sample.entry "good"]); ("b", [])]))
       Sample.X Sample.w0)
  = Some NotFittedError
  /\ BaseEstimator._check_fitted (Sample.engine_with (EDict [])) Sample.w0
     = (Ok tt, Sample.w0)
  /\ raised_class
       (BaseEstimator.predict (Sample.engine_with (EList [])) Sample.X
          Sample.w0)
     = Some NotFittedError
  /\ BaseEstimator._check_fitted
       (Sample.engine_with (EList [Sample.entry "good"])) Sample.w0
     = (Ok tt, Sample.w0).
Proof. vm_compute. repeat split. Qed.

(** C9 as stated fails: without the raising policy, the table built from
    scores that are all [None] has an entry for the instance. *)
Lemma failed_reduction_keeps_the_key :
  ~ (forall tbl w',
       BaseEstimator._build_scores (Sample.engine_scores false)
         Sample.unscored Sample.w0 = (Ok tbl, w') ->
       dict_get "est" tbl = None).
Proof.
  intros H.
  destruct (BaseEstimator._build_scores (Sample.engine_scores false)
              Sample.unscored Sample.w0) as [r w'] eqn:E.
  assert (r = Ok [("est", None)]) as ->.
  { apply (f_equal fst) in E. simpl in E. rewrite <- E. by vm_compute. }
  specialize (H _ _ eq_refl). discriminate.
Qed.


(** ** The theorems at the sample objects *)

(** The three cases of the wait, with a poll every tick and a limit of
    three ticks. *)
Lemma load_trans_timeout_is_a_TypeError_witness :
  _load_trans 0 (tkey "cache" (Some "c")) (Some "c") (1, 3) false
    (Sample.w_steps [("plus1", Sample.plus1)])
  = (Ok (TPayload [("plus1", Sample.plus1)]),
     Sample.w_steps [("plus1", Sample.plus1)])
  /\ _load_trans 0 (tkey "cache" (Some "c")) (Some "c") (1, 3) true Sample.w0
     = (Raise too_few, Sample.w0)
  /\ _load_trans (2 * polls 1 3 + 0) (tkey "cache" (Some "c")) (Some "c")
       (1, 3) false Sample.w0
     = (Raise too_few,
        with_log (tick Sample.w0 (2 * Z.of_nat (polls 1 3) * 1))
          (log Sample.w0
           ++ [Warning ParallelProcessingWarning
                 (wait_msg (Some "c") (tkey "cache" (Some "c")) 1 3)])).
Proof.
  split; [|split].
  - apply (load_trans_timeout_is_a_TypeError 0 (tkey "cache" (Some "c"))
             (Some "c") 1 3 (Sample.w_steps [("plus1", Sample.plus1)])).
    reflexivity.
  - apply (load_trans_timeout_is_a_TypeError 0 (tkey "cache" (Some "c"))
             (Some "c") 1 3 Sample.w0).
    reflexivity.
  - apply (load_trans_timeout_is_a_TypeError 0 (tkey "cache" (Some "c"))
             (Some "c") 1 3 Sample.w0).
    + reflexivity.
    + lia.
    + lia.
Defined.

(** A transformer that cannot be fitted and a step that cannot transform. *)
Lemma transformer_failure_is_always_raised_witness :
  raised_class
    (_fit_tr Sample.X (Some Sample.y) Sample.unfit_tr "u" (Some "c")
       (Some "layer-1") (Sample.w_steps [("stuck", Sample.stuck)]))
  = Some FitFailedError
  /\ raised_class
       (_transform_tr Sample.X Sample.stuck "stuck" (Some "c")
          (Some "layer-1") (Sample.w_steps [("stuck", Sample.stuck)]))
     = Some FitFailedError
  /\ raised_class
       (fit_trans "cache" (Some "c") [("u", Sample.unfit_tr)] Sample.X
          Sample.y None (Some "layer-1")
          (Sample.w_steps [("stuck", Sample.stuck)]))
     = Some FitFailedError
  /\ raised_class
       (fit_est 0 "cache" (Some "c") "good" Sample.good_est Sample.X Sample.y
          None (None, None, 0) false true (Some "layer-1") (1, 6000)
          "predict" None (Sample.w_steps [("stuck", Sample.stuck)]))
     = Some FitFailedError.
Proof.
  destruct (transformer_failure_is_always_raised false Sample.X
              (Some Sample.y) Sample.unfit_tr Sample.stuck "u" (Some "c")
              (Some "layer-1") (Sample.w_steps [("stuck", Sample.stuck)]))
    as (H1 & _ & H3 & H4).
  destruct (transformer_failure_is_always_raised false Sample.X
              (Some Sample.y) Sample.unfit_tr Sample.stuck "stuck" (Some "c")
              (Some "layer-1") (Sample.w_steps [("stuck", Sample.stuck)]))
    as (_ & H2 & _ & _).
  split; [|split; [|split]].
  - apply (H1 (Exn ValueError "cannot fit")). reflexivity.
  - apply (H2 (Exn ValueError "cannot transform")). reflexivity.
  - apply (H3 "cache" [("u", Sample.unfit_tr)] Sample.X Sample.y None
             Sample.X (Some Sample.y) None (Exn ValueError "cannot fit")).
    + reflexivity.
    + reflexivity.
  - apply (H4 0%nat "cache" "good" Sample.good_est Sample.X Sample.y None None
             None 0 (1, 6000) "predict" None Sample.X (Some Sample.y) None
             [("stuck", Sample.stuck)]
             ("stuck", Sample.stuck, Exn ValueError "cannot transform")).
    + reflexivity.
    + reflexivity.
    + reflexivity.
Defined.


(** Seven rows of data and a matrix of two rows: the fold that holds out
    the rows 5 and 6 writes the rows 0 and 1. *)
Lemma fold_predictions_land_on_rebased_rows_witness :
  let run := fit_est 0 "cache" None "good__0" Sample.good_est Sample.X7
               Sample.y7 (Some SharedP)
               (Some (Range 0 5), Some (Range 5 7), 1) false false
               (Some "layer-1") (1, 6000) "predict" None Sample.w_short in
  let run' := predict_fold_est None [] "good__0" (Some Sample.first_col)
                Sample.X7 SharedP (Some (Range 5 7), 1) (Some "layer-1")
                "predict" Sample.w_short in
  (run.1 = Ok tt /\ P run.2 = [[0; 15]; [0; 16]])
  /\ (run'.1 = Ok tt /\ P run'.2 = [[0; 15]; [0; 16]])
  /\ cell [[0; 15]; [0; 16]] 1 1 = Some 16.
Proof.
  intros run run'.
  destruct (fold_predictions_land_on_rebased_rows 0 "cache" None "good__0"
              Sample.good_est Sample.X7 Sample.y7 (Some (Range 0 5))
              (Range 5 7) 1 false false (Some "layer-1") (1, 6000) "predict"
              None Sample.w_short
              [[10]; [11]; [12]; [13]; [14]] (Some [0; 1; 2; 3; 4])
              (Some [0; 1; 2; 3; 4]) [] [[10]; [11]; [12]; [13]; [14]]
              Sample.first_col [[15]; [16]] (Some [5; 6]) [5; 6] [[15]; [16]]
              (Vec [15; 16]) [[0; 15]; [0; 16]])
    as (H1 & H2 & H3 & _).
  - simpl. lia.
  - reflexivity.
  - reflexivity.
  - reflexivity.
  - reflexivity.
  - split; [|split].
    + apply H1; reflexivity.
    + apply H2.
    + apply (H3 [15; 16] eq_refl eq_refl) with (k := 1%nat) (i := 6).
      * apply (bool_decide_eq_true_1 (NoDup _)). reflexivity.
      * reflexivity.
      * reflexivity.
      * reflexivity.
Defined.

(** One transformer task and one estimator task of case [c]. *)
Lemma cache_entries_and_keys_witness :
  (exists out,
     cache (fit_trans "cache" (Some "c") [("plus1", Sample.plus1_tr)] Sample.X
              Sample.y None (Some "layer-1") Sample.w0).2
     = <[tkey "cache" (Some "c") := TPayload out]> (cache Sample.w0)
     /\ out.*1 = ["plus1"])
  /\ (exists est s,
        cache (fit_est 0 "cache" (Some "c") "good" Sample.good_est Sample.X
                 Sample.y None (None, None, 0) false false (Some "layer-1")
                 (1, 6000) "predict" None Sample.w0).2
        = <[ekey "cache" (Some "c") "good"
            := EPayload "good" est (None, 0) s]> (cache Sample.w0)
        /\ s = None)
  /\ tkey "cache" (Some "c") = "cache/c__t"
  /\ ekey "cache" (Some "c") "good" = "cache/c__good__e".
Proof.
  split; [|split].
  - destruct (cache_entries_and_keys "cache" (Some "c") Sample.X Sample.y
                (Some "layer-1") Sample.w0
                (fit_trans "cache" (Some "c") [("plus1", Sample.plus1_tr)]
                   Sample.X Sample.y None (Some "layer-1") Sample.w0).2)
      as (_ & H & _).
    destruct (H [("plus1", Sample.plus1_tr)] None)
      as (x & y' & i & out & _ & _ & Hn & Hc & _).
    + reflexivity.
    + exists out. split; [exact Hc | exact Hn].
  - destruct (cache_entries_and_keys "cache" (Some "c") Sample.X Sample.y
                (Some "layer-1") Sample.w0
                (fit_est 0 "cache" (Some "c") "good" Sample.good_est Sample.X
                   Sample.y None (None, None, 0) false false (Some "layer-1")
                   (1, 6000) "predict" None Sample.w0).2)
      as (_ & _ & H).
    destruct (H 0%nat "good" Sample.good_est None None None 0 false false
                (1, 6000) "predict" None)
      as (est & s & Hc & _ & Hs & _).
    + reflexivity.
    + exists est, s. split; [exact Hc | by apply Hs].
  - split; reflexivity.
Defined.

(** One estimator, none of whose folds could be scored. *)
Lemma failed_score_reduction_follows_policy_witness :
  raised_class
    (BaseEstimator._build_scores (Sample.engine_scores true) Sample.unscored
       Sample.w0)
  = Some ParallelProcessingError
  /\ exists w',
       BaseEstimator._build_scores (Sample.engine_scores false)
         Sample.unscored Sample.w0
       = (Ok (reduce_table [("est", [None; None])]), w')
       /\ warned w' = [ParallelProcessingWarning]
       /\ ("est", None) ∈ reduce_table [("est", [None; None])].
Proof.
  split.
  - destruct (failed_score_reduction_follows_policy
                (Sample.engine_scores true) Sample.unscored
                [("est", [None; None])] Sample.w0) as [H _].
    + reflexivity.
    + apply H.
      * reflexivity.
      * apply Exists_cons_hd. eexists. reflexivity.
  - destruct (failed_score_reduction_follows_policy
                (Sample.engine_scores false) Sample.unscored
                [("est", [None; None])] Sample.w0) as [_ H].
    + reflexivity.
    + destruct (H eq_refl) as (w' & Hrun & Hw & _ & Hin).
      exists w'. split; [exact Hrun|]. split; [exact Hw|].
      apply (Hin "est" [None; None]).
      * apply list_elem_of_here.
      * eexists. reflexivity.
Defined.

(** An estimator that cannot predict, in the two tasks and in [predict] and
    [transform] of a layer under the lenient policy, where the estimator
    before it has written its column. *)
Lemma predict_failure_is_always_raised_witness :
  raised_class
    (predict_est None [] "mute" (Some Sample.mute) Sample.X SharedP 0
       (Some "layer-1") "predict" Sample.w0)
  = Some PredictFailedError
  /\ raised_class
       (predict_fold_est None [] "mute__0" (Some Sample.mute) Sample.X
          SharedP (Some (Range 0 1), 0) (Some "layer-1") "predict" Sample.w0)
     = Some PredictFailedError
  /\ Layer.raise_on_exception (BaseEstimator.layer engine_mute) = false
  /\ (raised_class (BaseEstimator.predict engine_mute Sample.X Sample.w0)
      = Some PredictFailedError
      /\ (BaseEstimator.predict engine_mute Sample.X Sample.w0).2
         = with_P Sample.w0 [[1; 0]; [2; 0]; [3; 0]])
  /\ (raised_class (BaseEstimator.transform engine_mute Sample.X Sample.w0)
      = Some PredictFailedError
      /\ (BaseEstimator.transform engine_mute Sample.X Sample.w0).2
         = with_P Sample.w0 [[1; 0]; [0; 0]; [0; 0]]).
Proof.
  destruct (predict_failure_is_always_raised None [] "mute" (Some Sample.mute)
              Sample.X 0 (Some (Range 0 1), 0) (Some "layer-1") "predict"
              Sample.w0) as (H1 & _).
  destruct (predict_failure_is_always_raised None [] "mute__0"
              (Some Sample.mute) Sample.X 0 (Some (Range 0 1), 0)
              (Some "layer-1") "predict" Sample.w0) as (_ & H2 & _).
  destruct (predict_failure_is_always_raised None [] "mute" (Some Sample.mute)
              Sample.X 1 (Some (Range 0 1), 1) (Some "layer-1") "predict"
              Sample.w0) as (_ & _ & _ & _ & H5 & _).
  destruct (predict_failure_is_always_raised None [] "mute__0"
              (Some Sample.mute) Sample.X 1 (Some (Range 0 1), 1)
              (Some "layer-1") "predict" Sample.w0)
    as (_ & _ & _ & _ & _ & H6).
  split; [|split; [|split; [|split]]].
  - apply (H1 Sample.X (Exn RuntimeError "cannot predict")); reflexivity.
  - apply (H2 [[1]] None (Some [0]) [[1]] (Exn RuntimeError "cannot predict"));
      reflexivity.
  - reflexivity.
  - apply (H5 engine_mute
             [(None, ("good", Some Sample.first_col, (None, 0)));
              (None, ("mute", Some Sample.mute, (None, 1)));
              (None, ("good__0", Some Sample.first_col,
                      (Some (Range 0 1), 0)));
              (None, ("mute__0", Some Sample.mute, (Some (Range 0 1), 1)))]
             [(None, ("good", Some Sample.first_col, (None, 0)))] [] None
             (with_P Sample.w0 [[1; 0]; [2; 0]; [3; 0]]) Sample.X
             (Exn RuntimeError "cannot predict")); reflexivity.
  - apply (H6 engine_mute
             [(None, ("good", Some Sample.first_col, (None, 0)));
              (None, ("mute", Some Sample.mute, (None, 1)));
              (None, ("good__0", Some Sample.first_col,
                      (Some (Range 0 1), 0)));
              (None, ("mute__0", Some Sample.mute, (Some (Range 0 1), 1)))]
             [(None, ("good__0", Some Sample.first_col,
                      (Some (Range 0 1), 0)))] []
             (with_P Sample.w0 [[1; 0]; [0; 0]; [0; 0]]) [[1]] None
             (Some [0]) [[1]] (Exn RuntimeError "cannot predict"));
      reflexivity.
Defined.

(** * Further properties of the engine *)

(** ** The prediction matrix keeps its dimensions *)

Lemma set_cell_shape P0 r c v P1 :
  set_cell P0 r c v = Some P1 -> shape P1 = shape P0.
Proof.
  unfold set_cell, shape. intros H.
  destruct (P0 !! r) as [row|] eqn:Er; [|discriminate]. simpl in H.
  destruct (wrap_index (length row) c) as [j|] eqn:Ej; [|discriminate].
  simpl in H. inversion H; subst P1.
  rewrite list_fmap_insert, length_insert.
  apply list_insert_id. by rewrite list_lookup_fmap, Er.
Qed.

Lemma set_cells_shape cells : forall P0 P1,
  set_cells P0 cells = Some P1 -> shape P1 = shape P0.
Proof.
  induction cells as [|[[r c] v] cells IH]; intros P0 P1 H.
  - by inversion H.
  - simpl in H. destruct (set_cell P0 r c v) as [P2|] eqn:E; [|discriminate].
    simpl in H. rewrite (IH _ _ H). by eapply set_cell_shape.
Qed.

Lemma assign_shape P0 rows col p P1 :
  assign P0 rows col p = inr P1 -> shape P1 = shape P0.
Proof.
  unfold assign, setitem_col, setitem_ix. destruct p as [v|m]; intros H.
  - destruct (mapM _ rows) as [rs|]; [|discriminate]. simpl in H.
    destruct (broadcast _ v) as [e|vs]; [discriminate|]. simpl in H.
    destruct (set_cells P0 _) as [P2|] eqn:E; [|discriminate].
    inversion H; subst. by eapply set_cells_shape.
  - destruct (mapM _ rows) as [rs|]; [|discriminate]. simpl in H.
    destruct (broadcast _ m) as [e|ms]; [discriminate|]. simpl in H.
    destruct (set_cells P0 _) as [P2|] eqn:E; [|discriminate].
    inversion H; subst. by eapply set_cells_shape.
Qed.

Lemma shape_assign_rows rows col p :
  preserves (fun w => shape (P w)) (assign_rows rows col p).
Proof.
  intros w. unfold assign_rows, read_P, write_P, bind, ret, lift, raise.
  destruct (assign (P w) rows col p) as [e|P1] eqn:E; [done|].
  simpl. by eapply assign_shape.
Qed.

Lemma quiet_view_P : quiet_view P.
Proof. by intros ???. Qed.

Lemma quiet_view_shape : quiet_view (fun w => shape (P w)).
Proof. by intros ???. Qed.

Lemma quiet_view_cache : quiet_view cache.
Proof. by intros ???. Qed.

Create HintDb quiet.

Ltac frame_quiet :=
  repeat
    match goal with
    | |- preserves _ (bind _ _) => apply preserves_bind; [|intros]
    | |- preserves _ (try_except _ _ _) => apply preserves_try_except; [|intros]
    | |- preserves _ (for_each _ _) => apply preserves_for_each; intros
    | |- preserves _ (map_M _ _) => apply preserves_map_M; intros
    | |- preserves _ (lift _) => apply preserves_lift
    | |- preserves _ (format _ _) => apply preserves_format
    | |- preserves _ (pickle_load _) => apply preserves_pickle_load
    | |- preserves _ (match ?x with _ => _ end) => destruct x
    | |- preserves _ _ => solve [auto with frame quiet]
    | |- preserves _ _ => by intros ?
    | H : quiet_view ?f |- preserves ?f _ => intros ?; apply H
    end.

Section quiet.
Context {C : Type} (f : world -> C) (Hf : quiet_view f).

Lemma quiet_load_trans_poll fuel : forall dir case s lim msg b ts,
  preserves f (_load_trans_poll fuel dir case s lim msg b ts).
Proof using Hf.
  induction fuel as [|fuel IH]; intros dir case s lim msg b ts; simpl.
  - by intros ?.
  - unfold os_path_exists, sleep, time_, warn. frame_quiet.
Qed.

Lemma quiet_load_trans fuel dir case ivals b :
  preserves f (_load_trans fuel dir case ivals b).
Proof using Hf.
  unfold _load_trans, time_. frame_quiet. apply quiet_load_trans_poll.
Qed.

Lemma quiet_fit_est x y est b inst_name case name :
  preserves f (_fit_est x y est b inst_name case name).
Proof using Hf. unfold _fit_est, warn. frame_quiet. Qed.

Lemma quiet_predict_est x est b inst_name case name attr :
  preserves f (_predict_est x est b inst_name case name attr).
Proof using Hf. unfold _predict_est, warn. frame_quiet. Qed.

Lemma quiet_mean_score v b k name : preserves f (_mean_score v b k name).
Proof using Hf. unfold _mean_score, warn. frame_quiet. Qed.
End quiet.

#[export] Hint Resolve quiet_view_P quiet_view_shape quiet_view_cache
  quiet_load_trans quiet_fit_est quiet_predict_est quiet_mean_score
  shape_assign_rows : quiet.

Lemma shape_fit_trans dir case inst X y idx name :
  preserves (fun w => shape (P w)) (fit_trans dir case inst X y idx name).
Proof. unfold fit_trans. frame_quiet. Qed.

Lemma shape_fit_est fuel dir case inst_name inst X y pred idx
    raise_on_exception preprocess name ivals attr scorer :
  preserves (fun w => shape (P w))
    (fit_est fuel dir case inst_name inst X y pred idx raise_on_exception
       preprocess name ivals attr scorer).
Proof.
  unfold fit_est, pred_shape0, read_P. destruct idx as [[idx0 idx1] idx2].
  frame_quiet.
Qed.

Lemma shape_predict_est case tr_list inst_name est xtest pred col name attr :
  preserves (fun w => shape (P w))
    (predict_est case tr_list inst_name est xtest pred col name attr).
Proof. unfold predict_est, read_P. frame_quiet. Qed.

Lemma shape_predict_fold_est case tr_list inst_name est xtest pred idx name
    attr :
  preserves (fun w => shape (P w))
    (predict_fold_est case tr_list inst_name est xtest pred idx name attr).
Proof. unfold predict_fold_est, pred_shape0, read_P. frame_quiet. Qed.

#[export] Hint Resolve shape_fit_trans shape_fit_est shape_predict_est
  shape_predict_fold_est : quiet.

Lemma shape_engine_assemble self dir :
  preserves (fun w => shape (P w)) (BaseEstimator._assemble self dir).
Proof.
  unfold BaseEstimator._assemble, _assemble_t, _assemble_e, split_loaded,
    BaseEstimator._build_scores.
  frame_quiet.
Qed.

Lemma shape_engine_fit fuel self X y dir :
  preserves (fun w => shape (P w)) (BaseEstimator.fit fuel self X y dir).
Proof.
  unfold BaseEstimator.fit, BaseEstimator.c_lookup, _fit.
  pose proof (shape_engine_assemble self dir).
  frame_quiet.
Qed.

Lemma shape_engine_predict self X :
  preserves (fun w => shape (P w)) (BaseEstimator.predict self X).
Proof.
  unfold BaseEstimator.predict, BaseEstimator._check_fitted, check_is_fitted,
    BaseEstimator._retrieve, get_estimators_, BaseEstimator.slice_container,
    BaseEstimator.tr_list_of, BaseEstimator.prep_lookup.
  frame_quiet.
Qed.

Lemma shape_engine_transform self X :
  preserves (fun w => shape (P w)) (BaseEstimator.transform self X).
Proof.
  unfold BaseEstimator.transform, BaseEstimator._check_fitted, check_is_fitted,
    BaseEstimator._retrieve, get_estimators_, BaseEstimator.slice_container,
    BaseEstimator.tr_list_of, BaseEstimator.prep_lookup.
  frame_quiet.
Qed.

(** X1.  Whatever the instances do and however the call ends, [fit],
    [predict] and [transform] leave the prediction matrix with the number of
    rows and the row lengths it had: predictions are only ever assigned into
    existing cells. *)
Theorem matrix_keeps_its_shape (fuel : nat) (self : BaseEstimator.slots)
    (X : matrix) (y : list Z) (dir : string) (w : world) :
  shape (P (BaseEstimator.fit fuel self X y dir w).2) = shape (P w)
  /\ shape (P (BaseEstimator.predict self X w).2) = shape (P w)
  /\ shape (P (BaseEstimator.transform self X w).2) = shape (P w).
Proof.
  split; [|split].
  - apply (shape_engine_fit fuel self X y dir w).
  - apply (shape_engine_predict self X w).
  - apply (shape_engine_transform self X w).
Qed.

(** ** A task writes inside its region *)

Lemma mapM_wrap_elem n rows rs r :
  mapM (wrap_index n) rows = Some rs -> r ∈ rs ->
  exists i, i ∈ rows /\ wrap_index n i = Some r.
Proof.
  intros H Hr. apply mapM_Some in H.
  apply list_elem_of_lookup in Hr as [k Hk].
  destruct (Forall2_lookup_r _ _ _ _ _ H Hk) as (i & Hi & Hw).
  exists i. split; [|done]. apply list_elem_of_lookup. by exists k.
Qed.

(** An assignment leaves alone every row it does not address. *)
Lemma assign_other_rows P0 rows col p P1 r :
  assign P0 rows col p = inr P1 ->
  (forall i, i ∈ rows -> wrap_index (length P0) i <> Some r) ->
  P1 !! r = P0 !! r.
Proof.
  unfold assign, setitem_col, setitem_ix. intros H Hr.
  destruct p as [v|m];
    (destruct (mapM _ rows) as [rs|] eqn:Ers; [|discriminate]);
    simpl in H;
    (destruct (broadcast _ _) as [e|vs] eqn:Eb; [discriminate|]);
    simpl in H;
    (destruct (set_cells P0 _) as [P2|] eqn:E; [|discriminate]);
    inversion H; subst P2;
    eapply set_cells_other_row; try exact E; intros Hin;
    apply list_elem_of_fmap in Hin as ([[r1 c1] v1] & Heq & Hin);
    simpl in Heq; subst r1.
  - apply list_elem_of_fmap in Hin as ([r2 x2] & Heq & Hin).
    inversion Heq; subst. apply elem_of_zip_l in Hin.
    destruct (mapM_wrap_elem _ _ _ _ Ers Hin) as (i & Hi & Hw).
    by apply (Hr i).
  - apply list_elem_of_bind in Hin as ([r2 vals] & Hin & Hz).
    apply list_elem_of_fmap in Hin as ([c2 x2] & Heq & _).
    inversion Heq; subst. apply elem_of_zip_l in Hz.
    destruct (mapM_wrap_elem _ _ _ _ Ers Hz) as (i & Hi & Hw).
    by apply (Hr i).
Qed.

(** An assignment at column [col] leaves alone the columns to its left. *)
Lemma assign_left P0 rows col p P1 r c' :
  assign P0 rows col p = inr P1 -> 0 <= c' < col ->
  cell P1 r c' = cell P0 r c'.
Proof.
  unfold assign, setitem_col, setitem_ix. intros H Hc.
  destruct p as [v|m];
    (destruct (mapM _ rows) as [rs|] eqn:Ers; [|discriminate]);
    simpl in H;
    (destruct (broadcast _ _) as [e|vs] eqn:Eb; [discriminate|]);
    simpl in H;
    (destruct (set_cells P0 _) as [P2|] eqn:E; [|discriminate]);
    inversion H; subst P2;
    eapply set_cells_other; try exact E; try lia.
  - apply Forall_forall. intros [[r1 c1] v1] Hin.
    apply list_elem_of_fmap in Hin as ([r2 x2] & Heq & Hin).
    inversion Heq; subst. simpl. lia.
  - intros Hin. apply list_elem_of_fmap in Hin as ([[r1 c1] v1] & Heq & Hin).
    apply list_elem_of_fmap in Hin as ([r2 x2] & Heq' & Hin).
    inversion Heq'; subst. simpl in Heq. inversion Heq. lia.
  - apply Forall_forall. intros [[r1 c1] v1] Hin.
    apply list_elem_of_bind in Hin as ([r2 vals] & Hin & _).
    apply list_elem_of_fmap in Hin as ([c2 x2] & Heq & Hin).
    inversion Heq; subst. simpl. apply elem_of_zip_l in Hin.
    pose proof (Forall_arange_ge col (col + shape1 m)) as Hge.
    rewrite Forall_forall in Hge. specialize (Hge _ Hin). simpl in Hge. lia.
  - intros Hin. apply list_elem_of_fmap in Hin as ([[r1 c1] v1] & Heq & Hin).
    apply list_elem_of_bind in Hin as ([r2 vals] & Hin & _).
    apply list_elem_of_fmap in Hin as ([c2 x2] & Heq' & Hin).
    inversion Heq'; subst. simpl in Heq. inversion Heq; subst.
    apply elem_of_zip_l in Hin.
    pose proof (Forall_arange_ge col (col + shape1 m)) as Hge.
    rewrite Forall_forall in Hge. specialize (Hge _ Hin). simpl in Hge. lia.
Qed.

(** The cases of a sequenced computation. *)
Lemma bind_cases {A B} (m : M A) (k : A -> M B) w
    (Q : outcome B * world -> Prop) :
  (forall e w1, m w = (Raise e, w1) -> Q (Raise e, w1)) ->
  (forall w1, m w = (Diverge, w1) -> Q (Diverge, w1)) ->
  (forall a w1, m w = (Ok a, w1) -> Q (k a w1)) ->
  Q (bind m k w).
Proof.
  intros Hr Hd Hk. unfold bind. destruct (m w) as [[a|e|] w1]; auto.
Qed.

Lemma slice_array_resolves x y idx a b i :
  _slice_array x y idx = inr (a, b, i) -> resolve_index idx = inr i.
Proof.
  unfold _slice_array. destruct (resolve_index idx) as [e|i']; [done|].
  simpl. destruct (match i' with Some _ => _ | None => _ end); [done|].
  simpl. destruct (match y with Some _ => _ | None => _ end); [done|].
  simpl. by intros [= _ _ ->].
Qed.

(** Splits [wrote_at .. (bind m k w)] along the outcome of a step [m] that
    does not write the matrix; [HP] relates the matrix to the one at the
    start. *)
Ltac quiet_step HP :=
  let E := fresh "E" in
  apply bind_cases;
  [ intros ?e ?w1 E | intros ?w1 E | intros ?a ?w1 E ];
  (let H := fresh "H" in
   lazymatch type of E with
   | ?m ?w = _ =>
       assert (preserves P m) as H by frame_quiet;
       specialize (H w); rewrite E in H; simpl in H;
       rewrite HP in H; clear HP; rename H into HP
   end);
  [ by left | by left | ].

Lemma assign_rows_wrote_at rows col p w w0 :
  P w = P w0 -> wrote_at w0 rows col (assign_rows rows col p w).
Proof.
  intros HP. unfold wrote_at, assign_rows, read_P, write_P, bind, ret, lift,
    raise.
  rewrite HP.
  destruct (assign (P w0) rows col p) as [e|P1] eqn:E; [by left|].
  right. by exists p.
Qed.

(** Steps that do not write the matrix may follow. *)
Lemma wrote_at_then {A B} w0 rows col (m : M A) (k : A -> M B) w :
  wrote_at w0 rows col (m w) -> (forall a, preserves P (k a)) ->
  wrote_at w0 rows col (bind m k w).
Proof.
  unfold wrote_at, bind. intros H Hk.
  destruct (m w) as [[a|e|] w1]; simpl in *; try done.
  by rewrite (Hk a w1).
Qed.

Lemma predict_est_wrote_at case tr_list inst_name est xtest pred col name attr
    w w0 :
  P w = P w0 ->
  wrote_at w0 (all_rows (P w0)) col
    (predict_est case tr_list inst_name est xtest pred col name attr w).
Proof.
  intros HP. unfold predict_est.
  quiet_step HP. quiet_step HP. quiet_step HP.
  apply bind_cases; [by left|by left|].
  intros P0 w4 Hrd. inversion Hrd; subst. rewrite HP.
  by apply assign_rows_wrote_at.
Qed.

Lemma predict_fold_est_wrote_at case tr_list inst_name est xtest pred tei col
    name attr w w0 :
  P w = P w0 ->
  wrote_at w0
    ((fun i => i - (Z.of_nat (length xtest) - Z.of_nat (length (P w0))))
     <$> held_out tei) col
    (predict_fold_est case tr_list inst_name est xtest pred (tei, col) name
       attr w).
Proof.
  intros HP. unfold predict_fold_est. simpl.
  quiet_step HP. destruct a as [[x y'] rows].
  destruct (_slice_array xtest None tei) as [e|[[x0 y0] i0]] eqn:Es;
    [discriminate|].
  inversion E; subst. clear E.
  apply slice_array_resolves in Es.
  quiet_step HP. quiet_step HP. quiet_step HP.
  assert (a1 = Z.of_nat (length (P w0))) as ->.
  { destruct pred. unfold read_P, bind, ret in E1. inversion E1; subst.
    by rewrite HP. }
  quiet_step HP.
  assert (a1 = (fun i => i - (Z.of_nat (length xtest)
                              - Z.of_nat (length (P w0))))
               <$> held_out tei) as ->.
  { unfold isub in E2. unfold held_out. rewrite Es.
    destruct rows; [|discriminate]. by inversion E2. }
  quiet_step HP.
  by apply assign_rows_wrote_at.
Qed.

Lemma preserves_pred_shape0 {C} (f : world -> C) pred :
  preserves f (pred_shape0 pred).
Proof. unfold pred_shape0, read_P. frame. Qed.
#[export] Hint Resolve preserves_pred_shape0 : quiet.

Lemma fit_est_wrote_at fuel dir case inst_name inst X y pred idx0 idx1 col
    raise_on_exception preprocess name ivals attr scorer w w0 :
  P w = P w0 ->
  wrote_at w0
    ((fun i => i - (Z.of_nat (length X) - Z.of_nat (length (P w0))))
     <$> held_out idx1) col
    (fit_est fuel dir case inst_name inst X y pred (idx0, idx1, col)
       raise_on_exception preprocess name ivals attr scorer w).
Proof.
  intros HP. unfold fit_est.
  quiet_step HP. destruct a as [[x z] i0].
  quiet_step HP. quiet_step HP. quiet_step HP.
  apply wrote_at_then; [|intros [idx s]; frame_quiet].
  destruct idx1 as [tei|]; [|by left].
  quiet_step HP. destruct a2 as [[x2 z2] rows].
  destruct (_slice_array X (Some y) (Some tei)) as [e|[[x0 y0] r0]] eqn:Es;
    [discriminate|].
  inversion E3; subst. clear E3.
  apply slice_array_resolves in Es.
  quiet_step HP. quiet_step HP. quiet_step HP.
  assert (a4 = Z.of_nat (length (P w0))) as ->.
  { destruct pred as [[]|]; [|discriminate].
    unfold pred_shape0, read_P, bind, ret in E5. inversion E5; subst.
    by rewrite HP. }
  quiet_step HP.
  assert (a4 = (fun i => i - (Z.of_nat (length X)
                              - Z.of_nat (length (P w0))))
               <$> held_out (Some tei)) as ->.
  { unfold isub in E6. unfold held_out. rewrite Es.
    destruct rows; [|discriminate]. by inversion E6. }
  quiet_step HP.
  apply wrote_at_then; [|intros; frame_quiet].
  by apply assign_rows_wrote_at.
Qed.

Lemma wrote_at_other_rows {A} w0 rows col (run : outcome A * world) r :
  wrote_at w0 rows col run ->
  Forall (fun i => wrap_index (length (P w0)) i <> Some r) rows ->
  P run.2 !! r = P w0 !! r.
Proof.
  intros [->|[p Hp]] Hr; [done|].
  eapply assign_other_rows; [exact Hp|].
  intros i Hi. by eapply Forall_forall in Hr.
Qed.

Lemma wrote_at_left {A} w0 rows col (run : outcome A * world) r c' :
  wrote_at w0 rows col run -> 0 <= c' < col ->
  cell (P run.2) r c' = cell (P w0) r c'.
Proof.
  intros [->|[p Hp]] Hc; [done|]. by eapply assign_left.
Qed.

(** X2.  However it ends, a fold task of [fit] or of [transform] changes no
    row of the prediction matrix other than its held-out rows shifted by
    [X.rows - P.rows]; and no task, that of [predict] included, changes a
    column to the left of the column it was given. *)
Theorem tasks_write_inside_their_region (fuel : nat) (dir : string)
    (case : option string) (inst_name : string) (inst : estimator)
    (tr_list : list (string * fitted_tr)) (est : option fitted_est)
    (X : matrix) (y : list Z) (pred : option pred_ref)
    (idx0 idx1 : option index_spec) (col : Z)
    (raise_on_exception preprocess : bool) (name : option string)
    (ivals : Z * Z) (attr : string) (scorer : option scorer_t) (w : world) :
  let rebase := Z.of_nat (length X) - Z.of_nat (length (P w)) in
  let fit_run := fit_est fuel dir case inst_name inst X y pred
                   (idx0, idx1, col) raise_on_exception preprocess name ivals
                   attr scorer w in
  let fold_run := predict_fold_est case tr_list inst_name est X SharedP
                    (idx1, col) name attr w in
  let full_run := predict_est case tr_list inst_name est X SharedP col name
                    attr w in
  (forall r,
     Forall (fun i => wrap_index (length (P w)) (i - rebase) <> Some r)
       (held_out idx1) ->
     P fit_run.2 !! r = P w !! r /\ P fold_run.2 !! r = P w !! r)
  /\ (forall r c', 0 <= c' < col ->
        cell (P fit_run.2) r c' = cell (P w) r c'
        /\ cell (P fold_run.2) r c' = cell (P w) r c'
        /\ cell (P full_run.2) r c' = cell (P w) r c').
Proof.
  intros rebase fit_run fold_run full_run.
  pose proof (fit_est_wrote_at fuel dir case inst_name inst X y pred idx0 idx1
                col raise_on_exception preprocess name ivals attr scorer w w
                eq_refl) as Hfit.
  pose proof (predict_fold_est_wrote_at case tr_list inst_name est X SharedP
                idx1 col name attr w w eq_refl) as Hfold.
  pose proof (predict_est_wrote_at case tr_list inst_name est X SharedP col
                name attr w w eq_refl) as Hfull.
  split.
  - intros r Hr.
    assert (Forall (fun i => wrap_index (length (P w)) i <> Some r)
              ((fun i => i - rebase) <$> held_out idx1)) as Hr'.
    { by apply Forall_fmap. }
    split; eapply wrote_at_other_rows; eauto.
  - intros r c' Hc. repeat split; eapply wrote_at_left; eauto.
Qed.

(** Three rows of data and of matrix; the fold holds out row 0 and writes
    column 1: row 2 and column 0 stay. *)
Lemma tasks_write_inside_their_region_witness :
  let fit_run := fit_est 0 "cache" None "good__0" Sample.good_est Sample.X
                   Sample.y (Some SharedP)
                   (Some (Range 1 3), Some (Range 0 1), 1) false false
                   (Some "layer-1") (1, 6000) "predict" None Sample.w0 in
  P fit_run.2 !! 2%nat = P Sample.w0 !! 2%nat
  /\ cell (P fit_run.2) 0 0 = cell (P Sample.w0) 0 0.
Proof.
  intros fit_run.
  destruct (tasks_write_inside_their_region 0 "cache" None "good__0"
              Sample.good_est [] (Some Sample.first_col) Sample.X Sample.y
              (Some SharedP) (Some (Range 1 3)) (Some (Range 0 1)) 1 false
              false (Some "layer-1") (1, 6000) "predict" None Sample.w0)
    as [Hrows Hcols].
  split.
  - apply (Hrows 2%nat).
    apply (bool_decide_eq_true_1 (Forall _ _)). reflexivity.
  - apply (Hcols 0%nat 0). lia.
Defined.

(** ** The two loops of [fit] *)

(** X3.  [fit] pairs the data with the last [X.rows] labels: labels in front
    of them make no difference to anything [fit] does. *)
Theorem fit_keeps_the_last_labels (fuel : nat) (self : BaseEstimator.slots)
    (X : matrix) (pre y : list Z) (dir : string) (w : world) :
  length y = length X ->
  BaseEstimator.fit fuel self X (pre ++ y)%list dir w
  = BaseEstimator.fit fuel self X y dir w.
Proof.
  intros Hlen. unfold BaseEstimator.fit.
  assert ((if decide (length X < length (pre ++ y)%list)%nat
           then drop (length (pre ++ y)%list - length X) (pre ++ y)%list
           else (pre ++ y)%list) = y) as ->.
  { rewrite length_app. case_decide.
    - replace (length pre + length y - length X)%nat with (length pre) by lia.
      apply drop_app_length.
    - destruct pre; [done|simpl in *; lia]. }
  assert ((if decide (length X < length y)%nat
           then drop (length y - length X) y else y) = y) as ->.
  { case_decide; [lia|done]. }
  done.
Qed.

Lemma fit_keeps_the_last_labels_witness :
  BaseEstimator.fit 0 Sample.engine_fold Sample.X ([7; 7] ++ Sample.y)%list
    "cache" Sample.w0
  = BaseEstimator.fit 0 Sample.engine_fold Sample.X Sample.y "cache"
      Sample.w0.
Proof.
  apply (fit_keeps_the_last_labels 0 Sample.engine_fold Sample.X [7; 7]
           Sample.y "cache" Sample.w0).
  reflexivity.
Defined.

Lemma ends_bind {A B} (m : M A) (k : A -> M B) :
  ends m -> (forall a, ends (k a)) -> ends (bind m k).
Proof.
  intros Hm Hk w. unfold bind. specialize (Hm w).
  destruct (m w) as [[a|e|] w1]; simpl in *; [apply Hk|done|done].
Qed.

Lemma ends_lift {A} (r : exn + A) : ends (lift r).
Proof. by destruct r. Qed.

Lemma ends_fit_trans_loop multi inst : forall x y case name,
  ends (fit_trans_loop multi inst x y case name).
Proof.
  induction inst as [|[tr_name tr] rest IH]; intros x y case name; [done|].
  simpl. apply ends_bind.
  { unfold _fit_tr. destruct (tr_fit tr x y); [|done].
    apply ends_bind; [apply ends_lift|done]. }
  intros f. apply ends_bind.
  { destruct multi; [|done]. unfold _transform_tr.
    destruct (tr_transform f x); [|done].
    apply ends_bind; [apply ends_lift|done]. }
  intros x'. apply ends_bind; [apply IH|done].
Qed.

Lemma ends_fit_trans dir case inst X y idx name :
  ends (fit_trans dir case inst X y idx name).
Proof.
  unfold fit_trans. apply ends_bind; [apply ends_lift|].
  intros [[x z] i]. apply ends_bind; [apply ends_fit_trans_loop|].
  intros out. apply ends_bind; [apply ends_lift|done].
Qed.

Lemma for_each_raises {A} (f : A -> M unit) (l : list A) a :
  (forall b, ends (f b)) ->
  a ∈ l -> (forall w, exists e, (f a w).1 = Raise e) ->
  forall w, exists e, (for_each f l w).1 = Raise e.
Proof.
  intros Hends Hin Hbad. induction l as [|b l IH]; [by apply elem_of_nil in Hin|].
  intros w. simpl. unfold bind.
  pose proof (Hends b w) as Hb.
  destruct (f b w) as [[u|e'|] w1] eqn:Hfb; simpl in *;
    [|by exists e'|done].
  apply elem_of_cons in Hin as [->|Hin]; [|by apply IH].
  destruct (Hbad w) as [e He]. by rewrite Hfb in He.
Qed.

Lemma tasks_of_app {I} (l1 l2 : list (option string * option index_spec
                                      * option index_spec * list (string * I))) :
  tasks_of (l1 ++ l2)%list = (tasks_of l1 ++ tasks_of l2)%list.
Proof. unfold tasks_of. apply bind_app. Qed.

Lemma tasks_of_estimators (e : list e_item) case tri tei n i :
  (case, tri, tei, n, i) ∈ tasks_of e ->
  (case, tri, tei, n, IEst i)
  ∈ tasks_of ((fun tup : e_item =>
                 let '(case, tri, tei, l) := tup in
                 (case, tri, tei, (fun '(n, i) => (n, IEst i)) <$> l)) <$> e).
Proof.
  unfold tasks_of. intros Hin.
  apply list_elem_of_bind in Hin as ([[[c0 tr0] te0] l0] & Hin & Hitem).
  apply list_elem_of_fmap in Hin as ([n0 i0] & Heq & Hin).
  inversion Heq; subst.
  apply list_elem_of_bind.
  exists (c0, tr0, te0, (fun '(n, i) => (n, IEst i)) <$> l0). split.
  - apply list_elem_of_fmap. exists (n0, IEst i0). split; [done|].
    apply list_elem_of_fmap. by exists (n0, i0).
  - apply list_elem_of_fmap. by exists (c0, tr0, te0, l0).
Qed.

Lemma ends_fit dir case inst_name inst X y tri name :
  ends (_fit dir case inst_name inst X y tri name).
Proof.
  unfold _fit. destruct (String.eqb inst_name "__trans__"); [|done].
  destruct inst; [apply ends_fit_trans|done].
Qed.

(** X4.  With [dual] off, [fit] cannot fit an estimator: the combined loop
    never hands [attr] to [fit_est], so as soon as the layer has one
    estimator the call ends in an exception (a TypeError at once when there
    is no preprocessing), before anything is assembled; no prediction is
    written and no warning is given. *)
Theorem combined_fit_always_raises (fuel : nat) (self : BaseEstimator.slots)
    (X : matrix) (y : list Z) (dir : string) (w : world) :
  BaseEstimator.dual self = false ->
  tasks_of (BaseEstimator.e self) <> [] ->
  let run := BaseEstimator.fit fuel self X y dir w in
  (exists e, run.1 = Raise e)
  /\ P run.2 = P w /\ log run.2 = log w
  /\ (BaseEstimator.t self = None ->
      raised_class run = Some TypeError /\ run.2 = w).
Proof.
  intros Hdual Hne run. subst run. unfold BaseEstimator.fit. rewrite Hdual.
  set (y' := if decide (length X < length y)%nat
             then drop (length y - length X) y else y).
  destruct (BaseEstimator.t self) as [tl|] eqn:Ht; [|by repeat split; eauto].
  set (task := fun '(case, tri, tei, inst_name, instance) =>
                 let* _ := if negb (String.eqb inst_name "__trans__")
                           then BaseEstimator.c_lookup self case inst_name
                           else ret 0 in
                 _fit dir case inst_name instance X y' tri
                   (Layer.name (BaseEstimator.layer self))).
  set (tasks := tasks_of _).
  assert (forall b, ends (task b)) as Hends.
  { intros [[[[case tri] tei] n] i]. unfold task.
    apply ends_bind; [|intros; apply ends_fit].
    destruct (negb _); [apply ends_lift|done]. }
  assert (forall f : world -> matrix * list warning,
            f = (fun w => (P w, log w)) -> preserves f (for_each task tasks))
    as Hkeep.
  { intros f ->. apply preserves_for_each.
    intros [[[[case tri] tei] n] i]. unfold task, BaseEstimator.c_lookup, _fit,
      fit_trans.
    frame. }
  destruct (tasks_of (BaseEstimator.e self))
    as [|[[[[case tri] tei] n] i] rest] eqn:He; [done|].
  assert ((case, tri, tei, n, IEst i) ∈ tasks) as Hin.
  { unfold tasks. rewrite tasks_of_app. apply elem_of_app. right.
    apply tasks_of_estimators. rewrite He. apply elem_of_cons. by left. }
  assert (forall w1, exists e, (task (case, tri, tei, n, IEst i) w1).1 = Raise e)
    as Hbad.
  { intros w1. unfold task, bind, _fit, BaseEstimator.c_lookup.
    destruct (String.eqb n "__trans__"); simpl; [by eexists|].
    destruct (or_raise _ _ _); simpl; by eexists. }
  destruct (for_each_raises task tasks _ Hends Hin Hbad w) as [e Hrun].
  specialize (Hkeep _ eq_refl w). simpl in Hkeep.
  destruct (for_each task tasks w) as [r w1] eqn:Hfe. simpl in *. subst r.
  rewrite (bind_Raise _ _ _ _ _ Hfe). inversion Hkeep.
  repeat split; eauto; done.
Qed.

Lemma combined_fit_always_raises_witness :
  let run := BaseEstimator.fit 0 (Fixtures.engine_combined (Some []))
               Sample.X Sample.y "cache" Sample.w0 in
  (exists e, run.1 = Raise e)
  /\ raised_class
       (BaseEstimator.fit 0 (Fixtures.engine_combined None) Sample.X Sample.y
          "cache" Sample.w0) = Some TypeError.
Proof.
  split.
  - apply (combined_fit_always_raises 0 (Fixtures.engine_combined (Some []))
             Sample.X Sample.y "cache" Sample.w0); [reflexivity|done].
  - apply (combined_fit_always_raises 0 (Fixtures.engine_combined None)
             Sample.X Sample.y "cache" Sample.w0); [reflexivity|done|reflexivity].
Defined.

(** ** Fitting a pipeline of transformers *)

Lemma fit_chain_steps multi inst : forall x y out,
  fit_chain multi inst x y = inr out ->
  forall (k : nat) n tr, inst !! k = Some (n, tr) ->
    exists xk f,
      out !! k = Some (n, f) /\ tr_fit tr xk y = inr f
      /\ (if multi then apply_steps (take k out) x = inr xk else xk = x).
Proof.
  induction inst as [|[n0 tr0] rest IH]; intros x y out H k n tr Hk;
    [done|]. simpl in H.
  destruct (tr_fit tr0 x y) as [e|f0] eqn:Ef; [discriminate|]. simpl in H.
  destruct (if multi then tr_transform f0 x else inr x) as [e|x1] eqn:Ex;
    [discriminate|]. simpl in H.
  destruct (fit_chain multi rest x1 y) as [e|o] eqn:Ec; [discriminate|].
  simpl in H. inversion H; subst out. destruct k as [|k].
  - inversion Hk; subst. exists x, f0. repeat split; [done|].
    by destruct multi.
  - destruct (IH _ _ _ Ec k n tr Hk) as (xk & f & Ho & Hf & Hx).
    exists xk, f. repeat split; [done..|].
    destruct multi; simpl; [by rewrite Ex|]. by inversion Ex; subst.
Qed.

Lemma fit_chain_applies inst : forall x y out,
  inst <> [] -> fit_chain true inst x y = inr out ->
  exists x', apply_steps out x = inr x'.
Proof.
  induction inst as [|[n0 tr0] rest IH]; intros x y out Hne H; [done|].
  simpl in H.
  destruct (tr_fit tr0 x y) as [e|f0] eqn:Ef; [discriminate|]. simpl in H.
  destruct (tr_transform f0 x) as [e|x1] eqn:Ex; [discriminate|]. simpl in H.
  destruct (fit_chain true rest x1 y) as [e|o] eqn:Ec; [discriminate|].
  simpl in H. inversion H; subst out. simpl. rewrite Ex.
  destruct rest as [|s rest'].
  - simpl in Ec. inversion Ec; subst. by exists x1.
  - by eapply IH.
Qed.

(** X5.  The steps a transformer task caches were fitted in sequence: in a
    pipeline of several steps each step is fitted on the training rows as
    transformed by the fitted steps before it, and the cached pipeline as a
    whole transforms those rows without error (the last step is applied too,
    though nothing uses its output); a pipeline of a single step is fitted on
    the rows as they are and never applied, so it is cached whether or not it
    can transform. *)
Theorem pipeline_steps_are_fitted_in_sequence (dir : string)
    (case : option string) (inst : list (string * transformer)) (X : matrix)
    (y : list Z) (idx : option index_spec) (name : option string)
    (w : world) :
  (forall w',
     fit_trans dir case inst X y idx name w = (Ok tt, w') ->
     exists x y' i out,
       _slice_array X (Some y) idx = inr (x, y', i)
       /\ cache w' !! tkey dir case = Some (TPayload out)
       /\ (forall (k : nat) n tr, inst !! k = Some (n, tr) ->
             exists xk f,
               out !! k = Some (n, f) /\ tr_fit tr xk y' = inr f
               /\ (if bool_decide (1 < length inst)%nat
                   then apply_steps (take k out) x = inr xk else xk = x))
       /\ ((1 < length inst)%nat -> exists x', apply_steps out x = inr x'))
  /\ (forall n tr x y' i f,
        inst = [(n, tr)] ->
        _slice_array X (Some y) idx = inr (x, y', i) ->
        tr_fit tr x y' = inr f ->
        fit_trans dir case inst X y idx name w
        = (Ok tt, with_cache w (<[tkey dir case := TPayload [(n, f)]]>
                                  (cache w)))).
Proof.
  split.
  - intros w' H.
    destruct (fit_trans_persists _ _ _ _ _ _ _ _ _ H)
      as (x & y' & i & out & Hs & Hc & _ & ->).
    exists x, y', i, out. repeat split; [done|..].
    + simpl. apply lookup_insert_eq.
    + intros k n tr Hk. by eapply fit_chain_steps.
    + intros Hlen. rewrite bool_decide_eq_true_2 in Hc by done.
      eapply fit_chain_applies; [|exact Hc]. intros ->. simpl in Hlen. lia.
  - intros n tr x y' i f -> Hs Hf. unfold fit_trans. rewrite Hs.
    rewrite (bind_Ok _ _ _ _ _ (lift_inr _ _)).
    erewrite bind_Ok; last first.
    { apply fit_trans_loop_ok. simpl. rewrite Hf. reflexivity. }
    rewrite (bind_Ok _ _ _ _ _ (format_inr _ _ _ w (tkey_format case))).
    reflexivity.
Qed.

(** Two steps that add one, fitted on the first two rows; and a single step
    that cannot transform, which is cached all the same. *)
Lemma pipeline_steps_are_fitted_in_sequence_witness :
  let inst := [("a", Sample.plus1_tr); ("b", Sample.plus1_tr)] in
  let w' := (fit_trans "cache" None inst Sample.X Sample.y
               (Some (Range 0 2)) None Sample.w0).2 in
  (exists x y' i out,
     _slice_array Sample.X (Some Sample.y) (Some (Range 0 2)) = inr (x, y', i)
     /\ cache w' !! tkey "cache" None = Some (TPayload out)
     /\ (forall (k : nat) n tr, inst !! k = Some (n, tr) ->
           exists xk f,
             out !! k = Some (n, f) /\ tr_fit tr xk y' = inr f
             /\ (if bool_decide (1 < length inst)%nat
                 then apply_steps (take k out) x = inr xk else xk = x))
     /\ ((1 < length inst)%nat -> exists x', apply_steps out x = inr x'))
  /\ fit_trans "cache" None [("s", Fixtures.stuck_tr)] Sample.X Sample.y
       None None Sample.w0
     = (Ok tt,
        with_cache Sample.w0
          (<[tkey "cache" None := TPayload [("s", Sample.stuck)]]>
             (cache Sample.w0))).
Proof.
  intros inst w'. split.
  - apply (proj1 (pipeline_steps_are_fitted_in_sequence "cache" None inst
                    Sample.X Sample.y (Some (Range 0 2)) None Sample.w0)).
    reflexivity.
  - apply (proj2 (pipeline_steps_are_fitted_in_sequence "cache" None
                    [("s", Fixtures.stuck_tr)] Sample.X Sample.y None None
                    Sample.w0)
             "s" Fixtures.stuck_tr Sample.X (Some Sample.y) None
             Sample.stuck); reflexivity.
Defined.

(** ** An estimator task under the raising policy *)

(** The start of [fit_est]: slicing the training rows, getting the steps of
    the case and applying them. *)
Lemma fit_est_steps fuel dir case ivals b (preprocess : bool) steps w :
  (if preprocess then fs w !! tkey dir case = Some (TPayload steps)
   else steps = []) ->
  (if preprocess then
     let* k := format "%s__t" [case_arg case] in
     let* v := _load_trans fuel (path_join dir k) case ivals b in
     as_steps v
   else ret []) w = (Ok steps, w).
Proof.
  destruct preprocess; [|by intros ->]. intros Hsteps.
  erewrite bind_Ok; last by apply format_inr, tkey_format.
  erewrite bind_Ok; last by apply _load_trans_readable.
  reflexivity.
Qed.

(** X6.  Under the raising policy an estimator task whose [fit] call fails
    ends in [FitFailedError], and one whose prediction call on the held-out
    rows fails ends in [PredictFailedError]; either way nothing is cached,
    written or warned: the world is as it was. *)
Theorem raising_policy_ends_the_task (fuel : nat) (dir : string)
    (case : option string) (inst_name : string) (inst : estimator)
    (X : matrix) (y : list Z) (pred : option pred_ref)
    (idx0 idx1 : option index_spec) (col : Z) (preprocess : bool)
    (name : option string) (ivals : Z * Z) (attr : string)
    (scorer : option scorer_t) (steps : list (string * fitted_tr))
    (x0 x1 : matrix) (z0 i0 : option (list Z)) (w : world) :
  _slice_array X (Some y) idx0 = inr (x0, z0, i0) ->
  (if preprocess then fs w !! tkey dir case = Some (TPayload steps)
   else steps = []) ->
  apply_steps steps x0 = inr x1 ->
  let run := fit_est fuel dir case inst_name inst X y pred (idx0, idx1, col)
               true preprocess name ivals attr scorer w in
  (forall e, est_fit inst x1 z0 = inl e ->
     raised_class run = Some FitFailedError /\ run.2 = w)
  /\ (forall f tei x2 z2 i2 x3 e,
        est_fit inst x1 z0 = inr f ->
        idx1 = Some tei ->
        _slice_array X (Some y) idx1 = inr (x2, z2, i2) ->
        apply_steps steps x2 = inr x3 ->
        getattr_call (Some f) attr x3 = inl e ->
        raised_class run = Some PredictFailedError /\ run.2 = w).
Proof.
  intros Hs Hsteps Ha run.
  subst run. unfold fit_est. rewrite Hs.
  rewrite (bind_Ok _ _ _ _ _ (lift_inr _ _)).
  rewrite (bind_Ok _ _ _ _ _ (fit_est_steps fuel dir case ivals true
                                preprocess steps w Hsteps)).
  rewrite (bind_Ok _ _ _ _ _ (transform_loop_ok _ _ case name _ w Ha)).
  split.
  - intros e He.
    destruct (_fit_est_raises x1 z0 inst inst_name case name e w He)
      as [m Hm].
    by rewrite (bind_Raise _ _ _ _ _ Hm).
  - intros f tei x2 z2 i2 x3 e Hf -> Hs2 Ha2 Hp.
    rewrite (bind_Ok _ _ _ _ _ (_fit_est_ok _ _ _ true inst_name case name _
                                  w Hf)).
    rewrite Hs2.
    destruct (_predict_est_raises x3 (Some f) inst_name case name attr e w Hp)
      as [m Hm].
    erewrite bind_Raise; last first.
    { rewrite (bind_Ok _ _ _ _ _ (lift_inr _ _)).
      rewrite (bind_Ok _ _ _ _ _ (transform_loop_ok _ _ case name _ w Ha2)).
      by rewrite (bind_Raise _ _ _ _ _ Hm). }
    done.
Qed.

Lemma raising_policy_ends_the_task_witness :
  raised_class
    (fit_est 0 "cache" None "bad" Sample.bad_est Sample.X Sample.y None
       (None, None, 1) true false (Some "layer-1") (1, 6000) "predict" None
       Sample.w0) = Some FitFailedError
  /\ raised_class
       (fit_est 0 "cache" None "mute__0" Sample.mute_est Sample.X Sample.y
          (Some SharedP) (Some (Range 1 3), Some (Range 0 1), 1) true false
          (Some "layer-1") (1, 6000) "predict" None Sample.w0)
     = Some PredictFailedError.
Proof.
  split.
  - apply (proj1 (raising_policy_ends_the_task 0 "cache" None "bad"
                    Sample.bad_est Sample.X Sample.y None None None 1 false
                    (Some "layer-1") (1, 6000) "predict" None [] Sample.X
                    Sample.X (Some Sample.y) None Sample.w0
                    eq_refl eq_refl eq_refl)
             (Exn ValueError "cannot fit")).
    reflexivity.
  - apply (proj2 (raising_policy_ends_the_task 0 "cache" None "mute__0"
                    Sample.mute_est Sample.X Sample.y (Some SharedP)
                    (Some (Range 1 3)) (Some (Range 0 1)) 1 false
                    (Some "layer-1") (1, 6000) "predict" None []
                    [[2]; [3]] [[2]; [3]] (Some [0; 1]) (Some [1; 2])
                    Sample.w0 eq_refl eq_refl eq_refl)
             Sample.mute (Range 0 1) [[1]] (Some [1]) (Some [0]) [[1]]
             (Exn RuntimeError "cannot predict"));
      reflexivity.
Defined.

Lemma bind_ext {A B} (m : M A) (k k' : A -> M B) w :
  (forall a w', k a w' = k' a w') -> bind m k w = bind m k' w.
Proof. intros H. unfold bind. destruct (m w) as [[a|e|] w1]; auto. Qed.

Lemma bind_congr {A B} (m m' : M A) (k : A -> M B) w :
  m w = m' w -> bind m k w = bind m' k w.
Proof. intros H. unfold bind. by rewrite H. Qed.

(** X7.  A scorer that raises never fails an estimator task: whatever it
    raises is swallowed, and the task does exactly what it does without a
    scorer, caching [None] as the score. *)
Theorem failing_scorer_is_no_scorer (fuel : nat) (dir : string)
    (case : option string) (inst_name : string) (inst : estimator)
    (X : matrix) (y : list Z) (pred : option pred_ref)
    (idx : option index_spec * option index_spec * Z)
    (raise_on_exception preprocess : bool) (name : option string)
    (ivals : Z * Z) (attr : string) (f : scorer_t) (w : world) :
  (forall z p, exists e, f z p = inl e) ->
  fit_est fuel dir case inst_name inst X y pred idx raise_on_exception
    preprocess name ivals attr (Some f) w
  = fit_est fuel dir case inst_name inst X y pred idx raise_on_exception
      preprocess name ivals attr None w.
Proof.
  intros Hf. unfold fit_est. destruct idx as [[idx0 idx1] idx2].
  apply bind_ext. intros [[x z] i] w1.
  apply bind_ext. intros tr_list w2.
  apply bind_ext. intros x' w3.
  apply bind_ext. intros est w4.
  apply bind_congr. destruct idx1 as [tei|]; [|done].
  apply bind_ext. intros [[x2 z2] tei2] w5.
  apply bind_ext. intros x3 w6.
  apply bind_ext. intros p w7.
  apply bind_ext. intros n w8.
  apply bind_ext. intros rows w9.
  apply bind_ext. intros a w10.
  apply bind_ext. intros [] w11.
  unfold try_score. by destruct (Hf z2 a) as [e ->].
Qed.

Lemma failing_scorer_is_no_scorer_witness :
  let f : scorer_t := fun _ _ => inl (Exn ValueError "cannot score") in
  fit_est 0 "cache" None "good__0" Sample.good_est Sample.X Sample.y
    (Some SharedP) (Some (Range 1 3), Some (Range 0 1), 1) false false
    (Some "layer-1") (1, 6000) "predict" (Some f) Sample.w0
  = fit_est 0 "cache" None "good__0" Sample.good_est Sample.X Sample.y
      (Some SharedP) (Some (Range 1 3), Some (Range 0 1), 1) false false
      (Some "layer-1") (1, 6000) "predict" None Sample.w0.
Proof.
  intros f.
  apply (failing_scorer_is_no_scorer 0 "cache" None "good__0" Sample.good_est
           Sample.X Sample.y (Some SharedP)
           (Some (Range 1 3), Some (Range 0 1), 1) false false
           (Some "layer-1") (1, 6000) "predict" f Sample.w0).
  intros z p. exists (Exn ValueError "cannot score"). reflexivity.
Defined.

(** ** Slicing outside the array *)

Lemma arange_empty a b : b <= a -> arange a b = [].
Proof. intros H. unfold arange. by replace (Z.to_nat (b - a)) with 0%nat by lia. Qed.

Lemma np_take_outside {A} (x : list A) idx i :
  i ∈ idx -> wrap_index (length x) i = None ->
  exists e, np_take x idx = inl e /\ exn_cls e = IndexError.
Proof.
  intros Hin Hw. unfold np_take.
  destruct (mapM _ idx) as [r|] eqn:E; [|by eexists].
  apply mapM_Some in E. apply list_elem_of_lookup in Hin as [k Hk].
  destruct (Forall2_lookup_l _ _ _ _ _ E Hk) as (v & _ & Hv).
  by rewrite Hw in Hv.
Qed.

Lemma wrap_index_negative n i :
  - Z.of_nat n <= i < 0 -> wrap_index n i = Some (Z.to_nat (Z.of_nat n + i)).
Proof.
  intros H. unfold wrap_index.
  rewrite decide_False by lia. rewrite decide_True by lia.
  f_equal. lia.
Qed.

(** Indexing with a range of negative indices counts the rows from the
    end. *)
Lemma np_take_arange_negative {A} (x : list A) a b :
  - Z.of_nat (length x) <= a -> b <= 0 ->
  np_take x (arange a b)
  = inr (rows_between x (Z.of_nat (length x) + a) (Z.of_nat (length x) + b)).
Proof.
  intros Ha Hb. unfold np_take. set (n := Z.of_nat (length x)).
  assert (mapM (fun i => wrap_index (length x) i ≫= (x !!.)) (arange a b)
          = Some (rows_between x (n + a) (n + b))) as ->; [|done].
  apply mapM_Some, Forall2_same_length_lookup. split.
  - rewrite length_arange, length_rows_between by lia. lia.
  - intros k i r Hi Hr.
    assert (k < Z.to_nat (b - a))%nat as Hk.
    { apply lookup_lt_Some in Hi. by rewrite length_arange in Hi. }
    rewrite lookup_arange in Hi by done. inversion Hi; subst i.
    rewrite lookup_rows_between in Hr by lia.
    rewrite wrap_index_negative by lia. simpl.
    replace (Z.to_nat (Z.of_nat (length x) + (a + Z.of_nat k)))
      with (Z.to_nat (n + a) + k)%nat by lia.
    done.
Qed.

(** X8.  [_slice_array] outside the ranges that lie in the array: a range
    that is empty or reversed selects no row and never fails, wherever it
    lies; a non-empty range that ends beyond the last row is an
    [IndexError]; a range of negative indices selects rows counted from the
    end, and the index it returns stays negative; labels shorter than the
    range are an [IndexError] though the data could be sliced; and an empty
    sequence of ranges is an [IndexError]. *)
Theorem slice_array_outside (x : matrix) (a b : Z) :
  (b <= a ->
   forall y, _slice_array x y (Some (Range a b))
             = inr ([], (fun _ => []) <$> y, Some []))
  /\ (a < b -> Z.of_nat (length x) < b ->
      forall y, exists e, _slice_array x y (Some (Range a b)) = inl e
                          /\ exn_cls e = IndexError)
  /\ (- Z.of_nat (length x) <= a -> b <= 0 ->
      _slice_array x None (Some (Range a b))
      = inr (rows_between x (Z.of_nat (length x) + a)
               (Z.of_nat (length x) + b), None, Some (arange a b)))
  /\ (0 <= a < b -> b <= Z.of_nat (length x) ->
      forall y : list Z, Z.of_nat (length y) < b ->
        exists e, _slice_array x (Some y) (Some (Range a b)) = inl e
                  /\ exn_cls e = IndexError)
  /\ (forall y, exists e, _slice_array x y (Some (Ranges [])) = inl e
                          /\ exn_cls e = IndexError).
Proof.
  split; [|split; [|split; [|split]]].
  - intros Hba y. unfold _slice_array. simpl. rewrite arange_empty by done.
    by destruct y.
  - intros Hab Hb y. unfold _slice_array. simpl.
    destruct (np_take_outside x (arange a b) (b - 1)) as (e & -> & He).
    + apply list_elem_of_lookup. exists (Z.to_nat (b - 1 - a)).
      rewrite lookup_arange by lia. f_equal. lia.
    + unfold wrap_index. rewrite !decide_False by lia. done.
    + by exists e.
  - intros Ha Hb. unfold _slice_array. simpl.
    by rewrite np_take_arange_negative.
  - intros Ha Hb y Hy. unfold _slice_array. simpl.
    rewrite np_take_arange by lia. simpl.
    destruct (np_take_outside y (arange a b) (b - 1)) as (e & -> & He).
    + apply list_elem_of_lookup. exists (Z.to_nat (b - 1 - a)).
      rewrite lookup_arange by lia. f_equal. lia.
    + unfold wrap_index. rewrite !decide_False by lia. done.
    + by exists e.
  - intros y. by eexists.
Qed.

Lemma slice_array_outside_witness :
  _slice_array Sample.X7 None (Some (Range 5 2)) = inr ([], None, Some [])
  /\ (exists e, _slice_array Sample.X7 None (Some (Range 5 9)) = inl e
                /\ exn_cls e = IndexError)
  /\ _slice_array Sample.X7 None (Some (Range (-2) 0))
     = inr ([[15]; [16]], None, Some [-2; -1])
  /\ (exists e, _slice_array Sample.X7 (Some Sample.y) (Some (Range 2 5))
                = inl e /\ exn_cls e = IndexError).
Proof.
  pose proof (slice_array_outside Sample.X7 5 2) as (H1 & _).
  pose proof (slice_array_outside Sample.X7 5 9) as (_ & H2 & _).
  pose proof (slice_array_outside Sample.X7 (-2) 0) as (_ & _ & H3 & _).
  pose proof (slice_array_outside Sample.X7 2 5) as (_ & _ & _ & H4 & _).
  split; [|split; [|split]].
  - apply (H1 ltac:(lia) None).
  - apply (H2 ltac:(lia) ltac:(simpl; lia) None).
  - apply (H3 ltac:(simpl; lia) ltac:(lia)).
  - apply (H4 ltac:(lia) ltac:(simpl; lia) Sample.y). simpl. lia.
Defined.

(** ** The fitted instances [predict] and [transform] use *)

(** X9.  On a fitted layer the slices ['full'] and ['fold'] of [_retrieve]
    split the fitted estimators, and the fitted preprocessing cases, in two:
    every entry is in exactly one of them, in the order of the layer; the
    ['full'] slice holds the first [n_pred] estimators and, because
    [n_prep] is raised to one, at least the first preprocessing case when
    there is one.  Any other argument is a [ValueError].  Nothing is
    changed. *)
Theorem retrieve_splits_the_layer (self : BaseEstimator.slots)
    (l : list est_entry) (w : world) :
  Layer.estimators_ (BaseEstimator.layer self) = Some (EList l) ->
  (exists prep_full prep_fold ests_full ests_fold,
     BaseEstimator._retrieve self "full" w = (Ok (prep_full, ests_full), w)
     /\ BaseEstimator._retrieve self "fold" w = (Ok (prep_fold, ests_fold), w)
     /\ (ests_full ++ ests_fold)%list = l
     /\ length ests_full
        = Nat.min (Layer.n_pred (BaseEstimator.layer self)) (length l)
     /\ match Layer.preprocessing_ (BaseEstimator.layer self) with
        | None => prep_full = None /\ prep_fold = None
        | Some p =>
            exists pf pd,
              prep_full = Some pf /\ prep_fold = Some pd
              /\ (pf ++ pd)%list = p /\ (p <> [] -> pf <> [])
        end)
  /\ (forall s, s <> "full" -> s <> "fold" ->
        raised_class (BaseEstimator._retrieve self s w) = Some ValueError
        /\ (BaseEstimator._retrieve self s w).2 = w).
Proof.
  intros Hl. split.
  - unfold BaseEstimator._retrieve, get_estimators_. rewrite Hl. simpl.
    eexists _, _, _, _. split; [reflexivity|]. split; [reflexivity|].
    split; [apply take_drop|]. split; [apply length_take|].
    destruct (Layer.preprocessing_ _) as [p|]; [|done]. simpl.
    eexists _, _. split; [reflexivity|]. split; [reflexivity|].
    split; [apply take_drop|].
    destruct p as [|a p]; [done|]. intros _.
    by destruct (Layer.n_prep _).
  - intros s Hfull Hfold.
    unfold BaseEstimator._retrieve, get_estimators_. rewrite Hl.
    apply String.eqb_neq in Hfull, Hfold.
    unfold bind at 1 3. unfold ret at 1 4. by rewrite Hfull, Hfold.
Qed.

Lemma retrieve_splits_the_layer_witness :
  let self := Sample.engine_with
                (EList [Sample.entry "good"; Sample.entry "good__0"]) in
  BaseEstimator._retrieve self "full" Sample.w0
  = (Ok (None, [Sample.entry "good"]), Sample.w0)
  /\ BaseEstimator._retrieve self "fold" Sample.w0
     = (Ok (None, [Sample.entry "good__0"]), Sample.w0)
  /\ raised_class (BaseEstimator._retrieve self "folds" Sample.w0)
     = Some ValueError.
Proof.
  intros self.
  destruct (retrieve_splits_the_layer self
              [Sample.entry "good"; Sample.entry "good__0"] Sample.w0 eq_refl)
    as [(pf & pd & ef & ed & Hfull & Hfold & _) Hother].
  split; [|split].
  - reflexivity.
  - reflexivity.
  - apply (Hother "folds"); discriminate.
Defined.

(** ** Grouping the scores of the folds *)

Lemma dict_set_keys_present {V} k (v v0 : V) d :
  dict_get k d = Some v0 -> (dict_set k v d).*1 = d.*1.
Proof.
  induction d as [|[k' v'] d IH]; [done|]. simpl.
  destruct (String.eqb k k') eqn:E; simpl.
  - apply String.eqb_eq in E. by subst.
  - intros H. f_equal. by apply IH.
Qed.

Lemma dict_set_keys_absent {V} k (v : V) d :
  dict_get k d = None -> (dict_set k v d).*1 = (d.*1 ++ [k])%list.
Proof.
  induction d as [|[k' v'] d IH]; [done|]. simpl.
  destruct (String.eqb k k') eqn:E; simpl; [done|].
  intros H. f_equal. by apply IH.
Qed.

Lemma dict_get_None {V} k (d : list (string * V)) :
  dict_get k d = None -> k ∉ d.*1.
Proof.
  induction d as [|[k' v'] d IH]; simpl; [intros _; apply not_elem_of_nil|].
  destruct (String.eqb k k') eqn:E; [done|].
  intros H. apply not_elem_of_cons. split; [|by apply IH].
  by apply String.eqb_neq.
Qed.

Lemma dict_set_append k (l : list (option Z)) v d :
  dict_get k d = Some l ->
  concat (dict_set k (l ++ [v])%list d).*2 ≡ₚ (concat d.*2 ++ [v])%list.
Proof.
  induction d as [|[k' v'] d IH]; [done|]. simpl.
  destruct (String.eqb k k') eqn:E; simpl.
  - intros H. inversion H; subst.
    rewrite <- !app_assoc. apply Permutation_app_head, Permutation_app_comm.
  - intros H. rewrite (IH H). by rewrite app_assoc.
Qed.

Lemma dict_set_empty k (d : list (string * list (option Z))) :
  Forall (fun g => g.2 = []) d -> Forall (fun g => g.2 = []) (dict_set k [] d).
Proof.
  induction 1 as [|[k' v'] d Hk Hd IH]; simpl.
  - by repeat constructor.
  - destruct (String.eqb k k'); by constructor.
Qed.

Lemma dict_set_NoDup {V} k (v : V) d :
  NoDup d.*1 -> NoDup (dict_set k v d).*1.
Proof.
  intros Hd. destruct (dict_get k d) as [v0|] eqn:E.
  - by rewrite (dict_set_keys_present _ _ _ _ E).
  - rewrite (dict_set_keys_absent _ _ _ E).
    apply NoDup_app. split; [done|]. split; [|apply NoDup_singleton].
    intros x Hx Hk. apply list_elem_of_singleton in Hk. subst x.
    by apply dict_get_None in E.
Qed.

Lemma dict_set_length {V} k (v : V) d :
  (length (dict_set k v d) <= S (length d))%nat.
Proof.
  induction d as [|[k' v'] d IH]; simpl; [lia|].
  destruct (String.eqb k k'); simpl; lia.
Qed.

Lemma shell_groups s : forall scores groups,
  BaseEstimator.shell s scores = inr groups ->
  NoDup scores.*1 -> Forall (fun g => g.2 = []) scores ->
  NoDup groups.*1 /\ Forall (fun g => g.2 = []) groups
  /\ (length groups <= length scores + length s)%nat.
Proof.
  induction s as [|[k v] s IH]; intros scores groups H Hnd Hall; simpl in H.
  - inversion H; subst. repeat split; [done..|lia].
  - destruct (unpack2 _) as [e|[case_name est_name]]; [discriminate|].
    simpl in H.
    apply IH in H as (H1 & H2 & H3);
      [|by apply dict_set_NoDup|by apply dict_set_empty].
    repeat split; [done..|]. etrans; [exact H3|].
    pose proof (dict_set_length
                  (if String.eqb case_name "" then est_name
                   else case_name ++ "__" ++ est_name)
                  ([] : list (option Z)) scores).
    simpl. lia.
Qed.

Lemma populate_groups s : forall scores groups,
  BaseEstimator.populate s scores = inr groups ->
  groups.*1 = scores.*1
  /\ concat groups.*2 ≡ₚ (concat scores.*2 ++ s.*2)%list.
Proof.
  induction s as [|[k v] s IH]; intros scores groups H; simpl in H.
  - inversion H; subst. by rewrite app_nil_r.
  - destruct (unpack2 _) as [e|[case_name est_name]]; [discriminate|].
    simpl in H.
    destruct (dict_get _ scores) as [l|] eqn:E; [|discriminate].
    simpl in H. apply IH in H as [H1 H2]. split.
    + rewrite H1. by eapply dict_set_keys_present.
    + rewrite H2. rewrite (dict_set_append _ _ _ _ E). simpl.
      by rewrite <- app_assoc.
Qed.

Lemma map_M_score_keys b name groups : forall w table w',
  map_M (fun '(k, v) => let* r := _mean_score v b k name in ret (k, r))
    groups w = (Ok table, w') ->
  table.*1 = groups.*1.
Proof.
  induction groups as [|[k v] groups IH]; intros w table w' H; simpl in H.
  - by inversion H.
  - apply bind_Ok_inv in H as ([k1 r1] & w1 & Hm & H).
    apply bind_Ok_inv in Hm as (r & w2 & _ & Hm). inversion Hm; subst.
    apply bind_Ok_inv in H as (rest & w3 & Hrest & H). inversion H; subst.
    simpl. f_equal. by eapply IH.
Qed.

(** X10.  When [_build_scores] returns a table, its keys are distinct, there
    are at most [n_pred] of them, and they are the names under which the
    first [n_pred] scores were registered; the scores after those were each
    appended to exactly one registered group: none is lost, duplicated or
    filed under a new key. *)
Theorem every_fold_score_is_grouped_once (self : BaseEstimator.slots)
    (s : list (string * option Z)) (table : score_table) (w w' : world) :
  BaseEstimator._build_scores self s w = (Ok table, w') ->
  let n_pred := Layer.n_pred (BaseEstimator.layer self) in
  exists registered groups,
    BaseEstimator.shell (take n_pred s) [] = inr registered
    /\ grouped self s = inr groups
    /\ Forall (fun g => g.2 = []) registered
    /\ table.*1 = registered.*1
    /\ groups.*1 = registered.*1
    /\ NoDup table.*1
    /\ (length table <= n_pred)%nat
    /\ concat groups.*2 ≡ₚ (drop n_pred s).*2.
Proof.
  intros H n_pred.
  destruct (BaseEstimator.shell (take n_pred s) []) as [e|registered] eqn:Es.
  { unfold BaseEstimator._build_scores in H. fold n_pred in H.
    rewrite Es in H. by rewrite (bind_Raise _ _ _ _ _ (lift_inl _ _)) in H. }
  destruct (BaseEstimator.populate (drop n_pred s) registered)
    as [e|groups] eqn:Ep.
  { unfold BaseEstimator._build_scores in H. fold n_pred in H.
    rewrite Es in H. rewrite (bind_Ok _ _ _ _ _ (lift_inr _ _)) in H.
    rewrite Ep in H. by rewrite (bind_Raise _ _ _ _ _ (lift_inl _ _)) in H. }
  assert (grouped self s = inr groups) as Hg.
  { unfold grouped. fold n_pred. by rewrite Es. }
  rewrite (_build_scores_grouped _ _ _ _ Hg) in H.
  apply map_M_score_keys in H.
  destruct (shell_groups _ _ _ Es) as (Hnd & Hall & Hlen);
    [apply NoDup_nil_2|done|].
  destruct (populate_groups _ _ _ Ep) as [Hk Hperm].
  exists registered, groups. repeat split; try done.
  - by rewrite H.
  - by rewrite H, Hk.
  - assert (length table = length registered) as ->.
    { by rewrite <- (length_fmap fst table), H, Hk, length_fmap. }
    simpl in Hlen. rewrite length_take in Hlen. lia.
  - rewrite Hperm.
    assert (concat registered.*2 = []) as ->; [|done].
    clear -Hall. induction Hall as [|[k v] r Hv _ IH]; [done|].
    change (v ++ concat r.*2 = [])%list. simpl in Hv. by rewrite Hv, IH.
Qed.

Lemma every_fold_score_is_grouped_once_witness :
  let table := [("est", Some (np_mean [2; 3], np_std [2; 3]))] in
  exists registered groups,
    BaseEstimator.shell (take 1 Fixtures.scored) [] = inr registered
    /\ grouped (Sample.engine_scores false) Fixtures.scored = inr groups
    /\ Forall (fun g => g.2 = []) registered
    /\ table.*1 = registered.*1
    /\ groups.*1 = registered.*1
    /\ NoDup table.*1
    /\ (length table <= 1)%nat
    /\ concat groups.*2 ≡ₚ (drop 1 Fixtures.scored).*2.
Proof.
  apply (every_fold_score_is_grouped_once (Sample.engine_scores false)
           Fixtures.scored [("est", Some (np_mean [2; 3], np_std [2; 3]))]
           Sample.w0 Sample.w0).
  reflexivity.
Defined.

(** ** Waiting for a file that arrives *)

Lemma fs_tick w d : fs (tick w d) = fs_at w (clock w + d).
Proof. reflexivity. Qed.

Lemma fs_at_tick w d c : fs_at (tick w d) c = fs_at w c.
Proof. reflexivity. Qed.

Lemma fs_at_with_log w l c : fs_at (with_log w l) c = fs_at w c.
Proof. reflexivity. Qed.

Lemma fs_at_clock w : fs_at w (clock w) = fs w.
Proof. by destruct w. Qed.

Lemma poll_found fuel dir case s lim msg b ts v w :
  fs w !! dir = Some v ->
  _load_trans_poll (S fuel) dir case s lim msg b ts w = (Ok v, w).
Proof.
  intros H. cbn [_load_trans_poll]. unfold os_path_exists, bind at 1.
  rewrite H. rewrite bool_decide_true by done. by apply pickle_load_found.
Qed.

(** One poll while the file is not there. *)
Lemma poll_absent fuel dir case s lim msg b ts w :
  fs w !! dir = None -> 0 <= s ->
  _load_trans_poll (S fuel) dir case s lim msg b ts w
  = if decide (clock w + s - ts > lim) then
      if b then (Raise too_few, tick w s)
      else _load_trans_poll fuel dir case s lim msg true (clock w + s)
             (with_log (tick w s)
                (log w ++ [Warning ParallelProcessingWarning
                             (wait_msg case dir s lim)]))
    else _load_trans_poll fuel dir case s lim msg b ts (tick w s).
Proof.
  intros Hfs Hs. cbn [_load_trans_poll].
  unfold os_path_exists, bind at 1. rewrite Hfs.
  rewrite bool_decide_false by (by intros [? ?]).
  unfold sleep. rewrite decide_False by lia.
  unfold bind at 1. unfold time_ at 1. unfold bind at 1.
  cbn [clock]. case_decide; [|done].
  destruct b.
  - unfold format. rewrite load_error_format. reflexivity.
  - unfold format. rewrite wait_format. reflexivity.
Qed.

(** [k] polls inside a window, none of which finds the file. *)
Lemma polls_inside dir case s lim msg t0 (k : nat) : forall fuel w b ts,
  0 < s ->
  (forall c, c < t0 -> fs_at w c !! dir = None) ->
  clock w + Z.of_nat k * s - s < t0 ->
  clock w + Z.of_nat k * s - ts <= lim ->
  _load_trans_poll (k + fuel) dir case s lim msg b ts w
  = _load_trans_poll fuel dir case s lim msg b ts (tick w (Z.of_nat k * s)).
Proof.
  induction k as [|k IH]; intros fuel w b ts Hs Habs Hk Hlim.
  - simpl plus. unfold tick.
    replace (clock w + Z.of_nat 0 * s) with (clock w) by lia.
    by destruct w.
  - change (S k + fuel)%nat with (S (k + fuel)).
    rewrite poll_absent; [|rewrite <- fs_at_clock; apply Habs; lia|lia].
    rewrite decide_False by lia.
    rewrite (IH fuel (tick w s) b ts); try done; try (simpl; lia).
    rewrite tick_tick. do 2 f_equal. lia.
Qed.

(** With a sleep of exactly [s]: if the file is there at the [n]-th check
    after the first, and that is within [lim], it is loaded and nothing is
    warned; if that is later, but no more than [lim] after the end of the
    first window, it is loaded after exactly one warning. *)
Lemma late_file_at_the_nth_check (fuel : nat) (dir : string)
    (case : option string) (s lim t0 : Z) (v : payload) (n : nat)
    (w : world) :
  arrives w dir t0 v ->
  0 < s -> 0 <= lim ->
  clock w + Z.of_nat n * s - s < t0 <= clock w + Z.of_nat n * s ->
  clock w < t0 ->
  let run := _load_trans (S n + fuel) dir case (s, lim) false w in
  (Z.of_nat n * s <= lim -> run = (Ok v, tick w (Z.of_nat n * s)))
  /\ (lim < Z.of_nat n * s ->
      (Z.of_nat n - Z.of_nat (polls s lim)) * s <= lim ->
      run = (Ok v,
             with_log (tick w (Z.of_nat n * s))
               (log w ++ [Warning ParallelProcessingWarning
                            (wait_msg case dir s lim)]))).
Proof.
  intros Harr Hs Hlim Hn Hlate run.
  assert (forall c, c < t0 -> fs_at w c !! dir = None) as Habs.
  { intros c Hc. rewrite Harr. by rewrite decide_False by lia. }
  assert (forall c, t0 <= c -> fs_at w c !! dir = Some v) as Hthere.
  { intros c Hc. rewrite Harr. by rewrite decide_True by lia. }
  assert (run = _load_trans_poll (S n + fuel) dir case s lim
                  ("[Errno 2] No such file or directory: '" ++ dir ++ "'")
                  false (clock w) w) as ->.
  { subst run. unfold _load_trans, try_except, pickle_load.
    rewrite <- fs_at_clock. rewrite (Habs (clock w) Hlate).
    rewrite decide_True by (apply elem_of_cons; by left). reflexivity. }
  split.
  - intros Hin.
    replace (S n + fuel)%nat with (n + S fuel)%nat by lia.
    rewrite (polls_inside _ _ _ _ _ t0) by (done || lia).
    apply poll_found. rewrite fs_tick. apply Hthere. lia.
  - intros Hout Hsecond.
    destruct (polls_bounds s lim Hs Hlim) as [Hlo Hhi].
    unfold polls in *. set (m := Z.to_nat (lim / s)) in *.
    assert (exists k : nat, n = (S m + k)%nat) as [k ->].
    { exists (n - S m)%nat. nia. }
    rewrite !Nat2Z.inj_add, !Nat2Z.inj_succ in *.
    replace (S (S m + k) + fuel)%nat with (m + S (k + S fuel))%nat by lia.
    rewrite (polls_inside _ _ _ _ _ t0) by (done || nia).
    rewrite poll_absent; [|rewrite fs_tick; apply Habs; simpl; nia|lia].
    simpl clock. rewrite decide_True by lia.
    rewrite (polls_inside _ _ _ _ _ t0); try done; try (simpl; nia).
    rewrite poll_found with (v := v).
    + f_equal. unfold with_log, tick. simpl. f_equal. lia.
    + rewrite fs_tick. rewrite fs_at_with_log, !fs_at_tick.
      apply Hthere. simpl. lia.
Qed.

Lemma arrives_single w f t0 v :
  cache w !! f = None -> pending w = [(t0, f, v)] -> arrives w f t0 v.
Proof.
  intros Hc Hp c. unfold fs_at, fs. simpl. rewrite Hp. simpl.
  case_decide; [apply lookup_insert_eq|done].
Qed.

(** The check at which a file that lands at [t0] is first seen. *)
Lemma first_check_after s d :
  0 < s -> 0 < d ->
  exists n : nat, Z.of_nat n * s - s < d <= Z.of_nat n * s.
Proof.
  intros Hs Hd. exists (Z.to_nat ((d + s - 1) / s)).
  assert (0 <= (d + s - 1) / s) by (apply Z.div_pos; lia).
  rewrite Z2Nat.id by done.
  pose proof (Z.mul_div_le (d + s - 1) s Hs).
  pose proof (Z.mul_succ_div_gt (d + s - 1) s Hs). lia.
Qed.

(** X11.  Without the raising policy [_load_trans] waits for a file that
    another worker is still writing.  If the file is there no later than
    [lim] after the call, the call returns its payload, and not before the
    file is there; it changes nothing but the clock and the log; and it has
    warned, once and with the text of the waiting message, exactly when the
    last clock reading it took is more than [lim] after the first.  Nothing
    here counts the polls or fixes the reading the call ends at: the fuel is
    only an upper bound on the number of checks. *)
Theorem load_trans_waits_for_a_late_file (fuel : nat) (dir : string)
    (case : option string) (s lim t0 : Z) (v : payload) (w : world) :
  arrives w dir t0 v ->
  0 < s -> 0 <= lim ->
  t0 <= clock w + lim ->
  let run := _load_trans (S (polls s lim) + fuel) dir case (s, lim) false w in
  let waited := clock run.2 - clock w in
  run.1 = Ok v
  /\ cache run.2 = cache w /\ pending run.2 = pending w /\ P run.2 = P w
  /\ t0 <= clock run.2
  /\ 0 <= waited
  /\ (waited <= lim -> log run.2 = log w)
  /\ (lim < waited ->
      log run.2
      = (log w ++ [Warning ParallelProcessingWarning
                     (wait_msg case dir s lim)])%list).
Proof.
  intros Harr Hs Hlim Ht0 run waited.
  destruct (decide (t0 <= clock w)) as [Hnow|Hlate].
  - assert (run = (Ok v, w)) as Hrun.
    { apply _load_trans_readable. rewrite <- fs_at_clock, Harr.
      by rewrite decide_True. }
    subst waited. rewrite Hrun. simpl. repeat split; try done; lia.
  - destruct (first_check_after s (t0 - clock w) Hs ltac:(lia)) as [n Hn].
    destruct (polls_bounds s lim Hs Hlim) as [_ Hhi].
    assert (n <= polls s lim)%nat as Hle by nia.
    assert (exists k, (S (polls s lim) + fuel = S n + k)%nat) as [k Hk].
    { exists (polls s lim - n + fuel)%nat. lia. }
    pose proof (late_file_at_the_nth_check k dir case s lim t0 v n w Harr Hs
                  Hlim ltac:(lia) ltac:(lia)) as [Hin Hout].
    rewrite <- Hk in Hin, Hout. fold run in Hin, Hout.
    destruct (decide (Z.of_nat n * s <= lim)) as [Hn1|Hn2].
    + subst waited. rewrite (Hin Hn1). simpl.
      repeat split; try done; lia.
    + subst waited. rewrite (Hout ltac:(lia) ltac:(nia)). simpl.
      repeat split; try done; lia.
Qed.

(** The steps of case [c] land at clock reading 5.  Polled every tick with a
    limit of 10 they are loaded in silence; polled every other tick with a
    limit of 5 the third sleep ends after the limit, so the call warns and
    then loads them. *)
Lemma load_trans_waits_for_a_late_file_witness :
  let f := tkey "cache" (Some "c") in
  let v := TPayload [("plus1", Sample.plus1)] in
  let quiet := _load_trans 12 f (Some "c") (1, 10) false Sample.w_late in
  let warned := _load_trans 4 f (Some "c") (2, 5) false Sample.w_late in
  (quiet.1 = Ok v /\ 5 <= clock quiet.2
   /\ (clock quiet.2 - 0 <= 10 -> log quiet.2 = []))
  /\ (warned.1 = Ok v /\ 5 <= clock warned.2
      /\ (5 < clock warned.2 - 0 ->
          log warned.2
          = [Warning ParallelProcessingWarning (wait_msg (Some "c") f 2 5)])).
Proof.
  intros f v quiet warned.
  assert (arrives Sample.w_late f 5 v) as Harr.
  { by apply arrives_single. }
  split.
  - destruct (load_trans_waits_for_a_late_file 0 f (Some "c") 1 10 5 v
                Sample.w_late Harr ltac:(lia) ltac:(lia) ltac:(simpl; lia))
      as (Hv & _ & _ & _ & Ht & _ & Hq & _).
    split; [exact Hv|split; [exact Ht|exact Hq]].
  - destruct (load_trans_waits_for_a_late_file 0 f (Some "c") 2 5 5 v
                Sample.w_late Harr ltac:(lia) ltac:(lia) ltac:(simpl; lia))
      as (Hv & _ & _ & _ & Ht & _ & _ & Hw).
    split; [exact Hv|split; [exact Ht|exact Hw]].
Defined.

(** What the two runs come to with a sleep of exactly its length. *)
Example late_file_runs :
  let f := tkey "cache" (Some "c") in
  let v := TPayload [("plus1", Sample.plus1)] in
  _load_trans 12 f (Some "c") (1, 10) false Sample.w_late
  = (Ok v, tick Sample.w_late 5)
  /\ _load_trans 4 f (Some "c") (2, 5) false Sample.w_late
     = (Ok v,
        with_log (tick Sample.w_late 6)
          [Warning ParallelProcessingWarning (wait_msg (Some "c") f 2 5)]).
Proof. split; reflexivity. Qed.

(** ** What the calls of the engine leave behind *)

Lemma extends_refl w : extends w w.
Proof. repeat split; [done|lia|done]. Qed.

Lemma extends_trans w1 w2 w3 : extends w1 w2 -> extends w2 w3 -> extends w1 w3.
Proof.
  intros (Hp1 & Hd1 & Hc1 & Hl1) (Hp2 & Hd2 & Hc2 & Hl2).
  repeat split; [congruence|set_solver|lia|by etrans].
Qed.

Lemma grows_bind {A B} (m : M A) (k : A -> M B) :
  grows m -> (forall a, grows (k a)) -> grows (bind m k).
Proof.
  intros Hm Hk w. unfold bind. specialize (Hm w).
  destruct (m w) as [[a|e|] w1]; simpl in *; [|done..].
  eapply extends_trans; [exact Hm|apply Hk].
Qed.

Lemma grows_keeps {A} (m : M A) : (forall w, (m w).2 = w) -> grows m.
Proof. intros H w. rewrite H. apply extends_refl. Qed.

Lemma grows_lift {A} (r : exn + A) : grows (lift r).
Proof. apply grows_keeps. by destruct r. Qed.

Lemma grows_warn c msg : grows (warn c msg).
Proof.
  intros w. repeat split; simpl; [done|lia|]. by apply prefix_app_r.
Qed.

Lemma grows_sleep s : grows (sleep s).
Proof.
  intros w. unfold sleep. case_decide; [apply extends_refl|].
  repeat split; simpl; [done|lia|done].
Qed.

Lemma grows_pickle_save v f : grows (pickle_save v f).
Proof.
  intros w. repeat split; simpl; [|lia|done].
  rewrite dom_insert. set_solver.
Qed.

Lemma grows_for_each {A} (f : A -> M unit) l :
  (forall a, grows (f a)) -> grows (for_each f l).
Proof.
  intros Hf. induction l as [|a l IH]; [by apply grows_keeps|].
  simpl. by apply grows_bind.
Qed.

Lemma grows_preserved {A} (m : M A) :
  (forall C (f : world -> C), preserves f m) -> grows m.
Proof. intros H. apply grows_keeps. intros w. apply (H _ id w). Qed.

Lemma grows_load_trans_poll fuel : forall dir case s lim msg b ts,
  grows (_load_trans_poll fuel dir case s lim msg b ts).
Proof.
  induction fuel as [|fuel IH]; intros dir case s lim msg b ts;
    [by apply grows_keeps|].
  cbn [_load_trans_poll]. apply grows_bind; [by apply grows_keeps|].
  intros [|]; [apply grows_keeps; intros w; apply (preserves_pickle_load id)|].
  apply grows_bind; [apply grows_sleep|]. intros _.
  apply grows_bind; [by apply grows_keeps|]. intros now.
  case_decide; [|apply IH]. destruct b.
  - apply grows_bind; [apply grows_lift|]. intros m. by apply grows_keeps.
  - apply grows_bind; [apply grows_lift|]. intros m.
    apply grows_bind; [apply grows_warn|]. intros _.
    apply grows_bind; [by apply grows_keeps|]. intros ts'. apply IH.
Qed.

Lemma grows_load_trans fuel dir case ivals b :
  grows (_load_trans fuel dir case ivals b).
Proof.
  intros w. unfold _load_trans, try_except.
  pose proof (preserves_pickle_load id dir w) as Hl. simpl in Hl.
  destruct (pickle_load dir w) as [[v|e|] w1]; simpl in *; subst w1;
    try apply extends_refl.
  case_decide; [|apply extends_refl]. destruct b.
  - apply grows_bind; [apply grows_lift|]. intros m. by apply grows_keeps.
  - apply grows_bind; [by apply grows_keeps|]. intros ts.
    apply grows_load_trans_poll.
Qed.

Lemma grows_fit_trans dir case inst X y idx name :
  grows (fit_trans dir case inst X y idx name).
Proof.
  unfold fit_trans. apply grows_bind; [apply grows_lift|]. intros [[x z] i].
  apply grows_bind.
  { apply grows_keeps. intros w. apply (preserves_fit_trans_loop id). }
  intros out. apply grows_bind; [apply grows_lift|]. intros k.
  apply grows_pickle_save.
Qed.

Lemma grows_transform_loop tr_list x case name :
  grows (transform_loop tr_list x case name).
Proof. apply grows_keeps. intros w. apply (preserves_transform_loop id). Qed.

Lemma grows_fit_est_wrapper x y est b inst_name case name :
  grows (_fit_est x y est b inst_name case name).
Proof.
  unfold _fit_est. destruct (est_fit est x y); [|by apply grows_keeps].
  destruct b.
  - apply grows_bind; [apply grows_lift|]. intros m. by apply grows_keeps.
  - apply grows_bind; [apply grows_lift|]. intros m.
    apply grows_bind; [apply grows_warn|]. intros _. by apply grows_keeps.
Qed.

Lemma grows_predict_est_wrapper x est b inst_name case name attr :
  grows (_predict_est x est b inst_name case name attr).
Proof.
  unfold _predict_est. destruct (getattr_call est attr x);
    [|by apply grows_keeps].
  destruct b.
  - apply grows_bind; [apply grows_lift|]. intros m. by apply grows_keeps.
  - apply grows_bind; [apply grows_lift|]. intros m.
    apply grows_bind; [apply grows_warn|]. intros _. by apply grows_keeps.
Qed.

Lemma grows_assign_rows rows col p : grows (assign_rows rows col p).
Proof.
  unfold assign_rows. apply grows_bind; [by apply grows_keeps|]. intros P0.
  apply grows_bind; [apply grows_lift|]. intros P1.
  intros w. repeat split; simpl; [done|lia|done].
Qed.

Lemma grows_fit_est fuel dir case inst_name inst X y pred idx
    raise_on_exception preprocess name ivals attr scorer :
  grows (fit_est fuel dir case inst_name inst X y pred idx raise_on_exception
           preprocess name ivals attr scorer).
Proof.
  unfold fit_est. destruct idx as [[idx0 idx1] idx2].
  apply grows_bind; [apply grows_lift|]. intros [[x z] i].
  apply grows_bind.
  { destruct preprocess; [|by apply grows_keeps].
    apply grows_bind; [apply grows_lift|]. intros k.
    apply grows_bind; [apply grows_load_trans|]. intros v.
    apply grows_keeps. intros w. apply (preserves_as_steps id). }
  intros tr_list. apply grows_bind; [apply grows_transform_loop|]. intros x'.
  apply grows_bind; [apply grows_fit_est_wrapper|]. intros est.
  apply grows_bind.
  { destruct idx1; [|by apply grows_keeps].
    apply grows_bind; [apply grows_lift|]. intros [[x2 z2] tei].
    apply grows_bind; [apply grows_transform_loop|]. intros x3.
    apply grows_bind; [apply grows_predict_est_wrapper|]. intros p.
    apply grows_bind.
    { apply grows_keeps. intros w. apply (preserves_pred_shape0 id). }
    intros n. apply grows_bind.
    { apply grows_keeps. intros w. apply (preserves_isub id). }
    intros rows. apply grows_bind.
    { apply grows_keeps. intros w. apply (preserves_shape_of id). }
    intros a. apply grows_bind; [apply grows_assign_rows|]. intros _.
    by apply grows_keeps. }
  intros [idx s]. apply grows_bind; [apply grows_lift|]. intros k.
  apply grows_pickle_save.
Qed.

Lemma grows_map_M {A B} (g : A -> M B) l :
  (forall a, grows (g a)) -> grows (map_M g l).
Proof.
  intros Hg. induction l as [|a l IH]; [by apply grows_keeps|].
  simpl. apply grows_bind; [done|]. intros b.
  apply grows_bind; [done|]. intros bs. by apply grows_keeps.
Qed.

Lemma grows_mean_score v b k name : grows (_mean_score v b k name).
Proof.
  unfold _mean_score. destruct (np_mean_std v); [|by apply grows_keeps].
  apply grows_bind; [apply grows_lift|]. intros m. destruct b.
  - by apply grows_keeps.
  - apply grows_bind; [apply grows_warn|]. intros _. by apply grows_keeps.
Qed.

Lemma grows_engine_assemble self dir : grows (BaseEstimator._assemble self dir).
Proof.
  unfold BaseEstimator._assemble.
  apply grows_bind.
  { apply grows_keeps. intros w. revert w.
    change (preserves id (_assemble_t dir (BaseEstimator.t self))).
    unfold _assemble_t. frame. }
  intros prep. apply grows_bind.
  { apply grows_keeps. intros w. revert w.
    change (preserves id (_assemble_e dir (BaseEstimator.e self))).
    unfold _assemble_e, split_loaded. frame. }
  intros [ests s]. apply grows_bind; [|intros; by apply grows_keeps].
  destruct (_ && _); [|by apply grows_keeps].
  apply grows_bind; [|intros; by apply grows_keeps].
  unfold BaseEstimator._build_scores.
  apply grows_bind; [apply grows_lift|]. intros s1.
  apply grows_bind; [apply grows_lift|]. intros s2.
  apply grows_map_M. intros [k v].
  apply grows_bind; [apply grows_mean_score|]. intros r. by apply grows_keeps.
Qed.

Lemma grows_engine_fit fuel self X y dir :
  grows (BaseEstimator.fit fuel self X y dir).
Proof.
  unfold BaseEstimator.fit.
  apply grows_bind; [|intros; apply grows_engine_assemble].
  destruct (BaseEstimator.dual self).
  - apply grows_bind.
    { destruct (BaseEstimator.t self); [|by apply grows_keeps].
      apply grows_for_each. intros [[[case tri] tei] il].
      apply grows_fit_trans. }
    intros _. apply grows_for_each. intros [[[[case tri] tei] n] i].
    apply grows_bind; [apply grows_lift|]. intros col. apply grows_fit_est.
  - destruct (BaseEstimator.t self); [|by apply grows_keeps].
    apply grows_for_each. intros [[[[case tri] tei] n] i].
    apply grows_bind.
    { destruct (negb _); [apply grows_lift|by apply grows_keeps]. }
    intros _. unfold _fit. destruct (String.eqb n "__trans__");
      [|by apply grows_keeps].
    destruct i; [apply grows_fit_trans|by apply grows_keeps].
Qed.

Lemma ends_for_each {A} (f : A -> M unit) l :
  (forall a, ends (f a)) -> ends (for_each f l).
Proof.
  intros Hf. induction l as [|a l IH]; [done|]. simpl. by apply ends_bind.
Qed.

Ltac ends_step :=
  repeat
    match goal with
    | |- ends (bind _ _) => apply ends_bind; [|intros]
    | |- ends (for_each _ _) => apply ends_for_each; intros
    | |- ends (lift _) => apply ends_lift
    | |- ends (format _ _) => apply ends_lift
    | |- ends (match ?x with _ => _ end) => destruct x
    | |- ends _ => solve [auto]
    | |- ends _ => by intros ?
    end.

Lemma ends_transform_loop tr_list : forall x case name,
  ends (transform_loop tr_list x case name).
Proof.
  induction tr_list as [|[n tr] rest IH]; intros x case name; simpl;
    [done|].
  apply ends_bind; [unfold _transform_tr; ends_step|]. intros x'. apply IH.
Qed.

Lemma ends_engine_predict self X : ends (BaseEstimator.predict self X).
Proof.
  unfold BaseEstimator.predict, BaseEstimator._check_fitted, check_is_fitted,
    BaseEstimator._retrieve, get_estimators_, BaseEstimator.slice_container,
    BaseEstimator.tr_list_of, BaseEstimator.prep_lookup, as_steps,
    predict_est, _predict_est, shape_of, assign_rows, read_P, write_P.
  pose proof ends_transform_loop. ends_step.
Qed.

Lemma ends_engine_transform self X : ends (BaseEstimator.transform self X).
Proof.
  unfold BaseEstimator.transform, BaseEstimator._check_fitted,
    check_is_fitted, BaseEstimator._retrieve, get_estimators_,
    BaseEstimator.slice_container, BaseEstimator.tr_list_of,
    BaseEstimator.prep_lookup, as_steps, predict_fold_est, _predict_est,
    pred_shape0, isub, shape_of, assign_rows, read_P, write_P.
  pose proof ends_transform_loop. ends_step.
Qed.

Lemma untouched_engine_predict {C} (f : world -> C) self X :
  (forall w P', f (with_P w P') = f w) ->
  preserves f (BaseEstimator.predict self X).
Proof.
  intros Hf.
  assert (forall rows col p, preserves f (assign_rows rows col p)) as Ha.
  { intros rows col p w. unfold assign_rows, read_P, bind, ret. simpl.
    destruct (assign _ _ _ _); simpl; [done|apply Hf]. }
  unfold BaseEstimator.predict, BaseEstimator._check_fitted, check_is_fitted,
    BaseEstimator._retrieve, get_estimators_, BaseEstimator.slice_container,
    BaseEstimator.tr_list_of, BaseEstimator.prep_lookup, predict_est,
    shape_of, read_P.
  frame.
Qed.

Lemma untouched_engine_transform {C} (f : world -> C) self X :
  (forall w P', f (with_P w P') = f w) ->
  preserves f (BaseEstimator.transform self X).
Proof.
  intros Hf.
  assert (forall rows col p, preserves f (assign_rows rows col p)) as Ha.
  { intros rows col p w. unfold assign_rows, read_P, bind, ret. simpl.
    destruct (assign _ _ _ _); simpl; [done|apply Hf]. }
  unfold BaseEstimator.transform, BaseEstimator._check_fitted,
    check_is_fitted, BaseEstimator._retrieve, get_estimators_,
    BaseEstimator.slice_container, BaseEstimator.tr_list_of,
    BaseEstimator.prep_lookup, predict_fold_est, pred_shape0, isub, shape_of,
    read_P.
  frame.
Qed.

(** X12.  What the calls leave behind.  [fit] only adds: however it ends,
    every file that was in the cache is still there (perhaps rewritten), the
    clock has not gone back, and the warnings given before are still the
    first in the log.  [predict] and [transform] always end, and change
    nothing but the prediction matrix: no file, no warning, no waiting. *)
Theorem engine_calls_only_add (fuel : nat) (self : BaseEstimator.slots)
    (X : matrix) (y : list Z) (dir : string) (w : world) :
  let fitted := BaseEstimator.fit fuel self X y dir w in
  let predicted := BaseEstimator.predict self X w in
  let transformed := BaseEstimator.transform self X w in
  extends w fitted.2
  /\ ended predicted.1 = true
  /\ predicted.2 = with_P w (P predicted.2)
  /\ ended transformed.1 = true
  /\ transformed.2 = with_P w (P transformed.2).
Proof.
  intros fitted predicted transformed.
  assert (forall w0 w1 : world,
            (cache w1, pending w1, log w1, clock w1)
            = (cache w0, pending w0, log w0, clock w0) ->
            w1 = with_P w0 (P w1)) as Hsame.
  { intros w0 [c1 p1 P1 l1 k1] Heq. simpl in Heq. by inversion Heq; subst. }
  assert (forall A (o : outcome A), o <> Diverge -> ended o = true) as Hend.
  { by intros A [a|e|]. }
  split; [apply grows_engine_fit|]. split; [|split; [|split]].
  - apply Hend, ends_engine_predict.
  - apply Hsame.
    by apply (untouched_engine_predict
                (fun w => (cache w, pending w, log w, clock w))).
  - apply Hend, ends_engine_transform.
  - apply Hsame.
    by apply (untouched_engine_transform
                (fun w => (cache w, pending w, log w, clock w))).
Qed.

(** ** From the tasks of [fit] to the fitted layer *)

Lemma for_each_Ok_cons {A} (f : A -> M unit) a l w w' :
  for_each f (a :: l) w = (Ok tt, w') ->
  exists w1, f a w = (Ok tt, w1) /\ for_each f l w1 = (Ok tt, w').
Proof.
  simpl. intros H. apply bind_Ok_inv in H as ([] & w1 & Ha & H). eauto.
Qed.

(** After the estimator tasks of [fit] every task's file holds what that
    task wrote, when no two tasks share a file. *)
Lemma est_tasks_cached fuel self X y dir preprocess attr
    (tasks : list est_task) : forall w w',
  for_each (fun '(case, tri, tei, inst_name, instance) =>
              let* col := BaseEstimator.c_lookup self case inst_name in
              fit_est fuel dir case inst_name instance X y
                (match tei with
                 | Some _ => Some SharedP
                 | None => None
                 end)
                (tri, tei, col) (BaseEstimator.raise_ self) preprocess
                (BaseEstimator.name self) (BaseEstimator.ivals self) attr
                (BaseEstimator.scorer self))
           tasks w = (Ok tt, w') ->
  NoDup (task_key dir <$> tasks) ->
  pending w' = pending w
  /\ (forall k, k ∉ task_key dir <$> tasks -> cache w' !! k = cache w !! k)
  /\ Forall (fun task : est_task =>
               exists est col s,
                 listed_as self task
                   (task.1.1.1.1, (task.1.2, est, (task.1.1.2, col)))
                 /\ cache w' !! task_key dir task
                    = Some (EPayload task.1.2 est (task.1.1.2, col) s))
            tasks.
Proof.
  induction tasks as [|[[[[case tri] tei] n] inst] tasks IH];
    intros w w' H Hnd.
  - inversion H; subst. by repeat split.
  - apply for_each_Ok_cons in H as (w1 & Ha & H).
    rewrite fmap_cons in Hnd. apply NoDup_cons in Hnd as [Hfresh Hnd].
    destruct (IH _ _ H Hnd) as (Hp & Hother & Hall).
    apply bind_Ok_inv in Ha as (col & w0 & Hcol & Ha).
    unfold BaseEstimator.c_lookup in Hcol.
    destruct (BaseEstimator.c self !! (case, n)) as [col'|] eqn:Ec;
      [|discriminate].
    simpl in Hcol. inversion Hcol; subst col' w0.
    apply fit_est_persists in Ha as (est & s & Hc & Hp1 & Hfit & _).
    split; [congruence|]. split.
    + intros k Hk. rewrite fmap_cons in Hk.
      apply not_elem_of_cons in Hk as [Hne Hk].
      rewrite (Hother k Hk), Hc. by apply lookup_insert_ne.
    + constructor; [|done].
      exists est, col, s. split.
      * simpl. by exists est, col.
      * rewrite (Hother _ Hfresh), Hc. apply lookup_insert_eq.
Qed.

Lemma assemble_items (e : list e_item) :
  (e ≫= fun tup : e_item =>
     let '(case, _, _, insts) := tup in
     (fun etup : string * estimator => (case, fst etup)) <$> insts)
  = (fun task : est_task => (task.1.1.1.1, task.1.2)) <$> tasks_of e.
Proof.
  unfold tasks_of. induction e as [|[[[case tri] tei] l] e IH]; [done|].
  rewrite !bind_cons, fmap_app, IH. f_equal.
  rewrite <- list_fmap_compose. apply list_fmap_ext. by intros ? [? ?].
Qed.

(** [_assemble] lists, task by task, what it finds in each task's file. *)
Lemma assemble_e_entries dir (e : list e_item) w ests s w' :
  _assemble_e dir e w = (Ok (ests, s), w') ->
  w' = w
  /\ Forall2 (fun (task : est_task) (entry : est_entry) =>
                exists n est idx sc,
                  fs w !! task_key dir task = Some (EPayload n est idx sc)
                  /\ entry = (task.1.1.1.1, (n, est, idx)))
             (tasks_of e) ests.
Proof.
  unfold _assemble_e. rewrite assemble_items. intros H.
  apply bind_Ok_inv in H as (r & w1 & Hr & H). inversion H; subst. clear H.
  revert r w Hr.
  match goal with
  | |- forall r w, map_M ?g _ w = _ -> _ =>
      assert (forall (tasks : list est_task) r w,
                map_M g ((fun task : est_task => (task.1.1.1.1, task.1.2))
                         <$> tasks) w = (Ok r, w') ->
                w' = w
                /\ Forall2 (fun (task : est_task) (entry : est_entry) =>
                              exists n est idx sc,
                                fs w !! task_key dir task
                                = Some (EPayload n est idx sc)
                                /\ entry = (task.1.1.1.1, (n, est, idx)))
                           tasks (fst <$> r)) as Hgen
  end.
  { induction tasks as [|[[[[case tri] tei] n] inst] tasks IH];
      intros r w Hr.
    - inversion Hr; subst. by split; [|constructor].
    - rewrite fmap_cons in Hr. cbn [map_M] in Hr.
      apply bind_Ok_inv in Hr as (b & w1 & Hb & Hr).
      apply bind_Ok_inv in Hr as (bs & w2 & Hbs & Hr).
      inversion Hr; subst. clear Hr.
      destruct (IH _ _ Hbs) as [-> Hall].
      cbn [fst snd] in Hb.
      apply bind_Ok_inv in Hb as (k & w3 & Hk & Hb).
      rewrite (format_inr _ _ _ w (ekey_format3 case n)) in Hk.
      inversion Hk; subst k w3. clear Hk.
      apply bind_Ok_inv in Hb as (loaded & w4 & Hl & Hb).
      unfold pickle_load in Hl.
      destruct (fs w !! path_join dir _) as [v|] eqn:Efs; [|discriminate].
      inversion Hl; subst loaded w4. clear Hl.
      apply bind_Ok_inv in Hb as ([info sc] & w5 & Hsp & Hb).
      destruct v as [steps|n' est idx sc']; [discriminate|].
      inversion Hsp; subst info sc w5. clear Hsp.
      apply bind_Ok_inv in Hb as (c & w6 & Hc & Hb).
      assert (w6 = w) as ->.
      { destruct case; [|by inversion Hc].
        unfold format in Hc. by destruct (py_format _ _); inversion Hc. }
      inversion Hb; subst. split; [done|].
      rewrite fmap_cons. constructor; [|done].
      exists n', est, idx, sc'. by split. }
  intros r w Hr. by apply Hgen.
Qed.

(** X13.  From the tasks to the layer.  When the two loops of [fit] and the
    assembly return, no other worker is writing, and no two estimator tasks
    share a cache file, [estimators_] lists exactly one entry for each
    estimator task, in the order of the tasks, and each entry carries its
    task's case, instance name, held-out index and column id, together with
    what the instance was fitted to (or [None] where the fit failed under
    the non-raising policy). *)
Theorem fit_lists_every_task (fuel : nat) (self self' : BaseEstimator.slots)
    (X : matrix) (y : list Z) (dir : string) (w w' : world) :
  BaseEstimator.dual self = true ->
  pending w = [] ->
  NoDup (task_key dir <$> tasks_of (BaseEstimator.e self)) ->
  BaseEstimator.fit fuel self X y dir w = (Ok self', w') ->
  exists ests,
    Layer.estimators_ (BaseEstimator.layer self') = Some (EList ests)
    /\ Forall2 (listed_as self) (tasks_of (BaseEstimator.e self)) ests.
Proof.
  intros Hdual Hpend Hnd H. unfold BaseEstimator.fit in H.
  rewrite Hdual in H.
  apply bind_Ok_inv in H as ([] & w2 & Hloops & H).
  apply bind_Ok_inv in Hloops as ([] & w1 & Ht & He).
  assert (pending w1 = []) as Hp1.
  { assert (extends w w1) as (Hp & _); [|congruence].
    replace w1 with ((match BaseEstimator.t self with
                      | Some tl =>
                          for_each (fun tup : t_item =>
                                      let '(case, tri, _, instance_list) := tup in
                                      fit_trans dir case instance_list X
                                        (if decide (length X < length y)%nat
                                         then drop (length y - length X) y
                                         else y) tri (BaseEstimator.name self))
                                   tl
                      | None => ret tt
                      end) w).2 by (by rewrite Ht).
    destruct (BaseEstimator.t self); [|apply extends_refl].
    apply grows_for_each. intros [[[case tri] tei] il]. apply grows_fit_trans. }
  apply est_tasks_cached in He as (Hp2 & _ & Hcached); [|done].
  unfold BaseEstimator._assemble in H.
  apply bind_Ok_inv in H as (prep & w3 & Hprep & H).
  assert (w3 = w2) as ->.
  { assert (preserves id (_assemble_t dir (BaseEstimator.t self))) as Hk.
    { unfold _assemble_t. frame. }
    specialize (Hk w2). by rewrite Hprep in Hk. }
  apply bind_Ok_inv in H as ([ests s] & w4 & Hests & H).
  apply assemble_e_entries in Hests as [-> Hentries].
  apply bind_Ok_inv in H as (sc & w5 & _ & H). inversion H; subst self' w5.
  exists ests. split; [done|].
  rewrite fs_no_pending in Hentries by congruence.
  clear -Hcached Hentries.
  induction Hentries as [|task entry tasks ests Hentry _ IH]; [constructor|].
  apply Forall_cons in Hcached as [Htask Hcached].
  constructor; [|by apply IH].
  destruct Hentry as (n & est & idx & sc & Hfs & ->).
  destruct Htask as (est' & col & s & Hlisted & Hc).
  rewrite Hfs in Hc. by inversion Hc; subst.
Qed.

(** The engine with one case and the estimators [good] and [bad]. *)
Lemma fit_lists_every_task_witness :
  let run := BaseEstimator.fit 1 Sample.engine_full Sample.X Sample.y "cache"
               Sample.w0 in
  let self' := match run.1 with
               | Ok s => s
               | _ => Sample.engine_full
               end in
  exists ests,
    Layer.estimators_ (BaseEstimator.layer self') = Some (EList ests)
    /\ Forall2 (listed_as Sample.engine_full)
         (tasks_of (BaseEstimator.e Sample.engine_full)) ests.
Proof.
  intros run self'.
  apply (fit_lists_every_task 1 Sample.engine_full self' Sample.X Sample.y
           "cache" Sample.w0 run.2).
  - reflexivity.
  - reflexivity.
  - apply (bool_decide_eq_true_1 (NoDup _)). reflexivity.
  - reflexivity.
Defined.

(** ** Predicting into a whole column *)

Lemma wrap_all_rows (P0 : matrix) :
  mapM (wrap_index (length P0)) (all_rows P0) = Some (seq 0 (length P0)).
Proof.
  unfold all_rows, arange.
  replace (Z.to_nat (Z.of_nat (length P0) - 0)) with (length P0) by lia.
  apply mapM_Some, Forall2_fmap_l, Forall_Forall2_diag, Forall_forall.
  intros k Hk. apply elem_of_seq in Hk. simpl.
  rewrite wrap_index_in_range by lia. f_equal. lia.
Qed.

Lemma lookup_all_rows (P0 : matrix) (k : nat) :
  (k < length P0)%nat -> all_rows P0 !! k = Some (Z.of_nat k).
Proof.
  intros Hk. unfold all_rows. rewrite lookup_arange by lia. f_equal.
Qed.

Lemma NoDup_wrap_all_rows (P0 : matrix) :
  NoDup (wrap_index (length P0) <$> all_rows P0).
Proof.
  pose proof (wrap_all_rows P0) as H. apply mapM_Some in H.
  assert (wrap_index (length P0) <$> all_rows P0
          = Some <$> seq 0 (length P0)) as ->.
  { apply list_eq. intros k. rewrite !list_lookup_fmap.
    destruct (all_rows P0 !! k) as [i|] eqn:Ei.
    - destruct (Forall2_lookup_l _ _ _ _ _ H Ei) as (r & -> & Hr).
      simpl. by f_equal.
    - apply Forall2_length in H. apply lookup_ge_None in Ei.
      rewrite (lookup_ge_None_2 (seq 0 (length P0)) k) by lia. done. }
  apply NoDup_fmap_2; [by intros ?? [= ->]|apply NoDup_seq].
Qed.

(** A list of cells that all lie in the matrix can be written. *)
Lemma set_cells_succeeds cells : forall P0,
  Forall (fun c : nat * Z * Z =>
            exists len, shape P0 !! c.1.1 = Some len
                        /\ is_Some (wrap_index len c.1.2)) cells ->
  is_Some (set_cells P0 cells).
Proof.
  induction cells as [|[[r c] v] cells IH]; intros P0 Hall; [by eexists|].
  apply Forall_cons in Hall as [(len & Hr & [j Hj]) Hall]. simpl in *.
  unfold shape in Hr. rewrite list_lookup_fmap in Hr.
  destruct (P0 !! r) as [row|] eqn:Er; [|discriminate].
  simpl in Hr. inversion Hr; subst len.
  assert (set_cell P0 r c v = Some (<[r := <[j := v]> row]> P0)) as Hs.
  { unfold set_cell. rewrite Er. simpl. by rewrite Hj. }
  rewrite Hs. simpl. apply IH.
  by rewrite (set_cell_shape _ _ _ _ _ Hs).
Qed.

Lemma setitem_col_all_rows P0 col v :
  length v = length P0 ->
  Forall (fun row => is_Some (wrap_index (length row) col)) P0 ->
  exists P1, setitem_col P0 (all_rows P0) col v = inr P1.
Proof.
  intros Hlen Hcol. unfold setitem_col. rewrite wrap_all_rows. simpl.
  unfold broadcast. rewrite decide_True by (by rewrite length_seq).
  simpl.
  destruct (set_cells_succeeds
              ((fun '(r, x) => (r, col, x)) <$> zip (seq 0 (length P0)) v) P0)
    as [P1 HP1]; [|rewrite HP1; by eexists].
  apply Forall_forall. intros [[r c] x] Hin.
  apply list_elem_of_fmap in Hin as ([r' x'] & Heq & Hin).
  inversion Heq; subst r c x. clear Heq.
  apply elem_of_zip_l, elem_of_seq in Hin. simpl.
  destruct (lookup_lt_is_Some_2 P0 r') as [row Hrow]; [lia|].
  exists (length row). split.
  - unfold shape. by rewrite list_lookup_fmap, Hrow.
  - eapply Forall_forall in Hcol; [exact Hcol|].
    by eapply list_elem_of_lookup_2.
Qed.

(** What [predict_est] does once the data is transformed and predicted:
    one assignment at all the rows. *)
Lemma predict_est_writes case tr_list inst_name est xtest col name attr w x' p :
  apply_steps tr_list xtest = inr x' ->
  getattr_call est attr x' = inr p ->
  predict_est case tr_list inst_name est xtest SharedP col name attr w
  = match assign (P w) (all_rows (P w)) col p with
    | inr P1 => (Ok tt, with_P w P1)
    | inl e => (Raise e, w)
    end.
Proof.
  intros Hx Hp. unfold predict_est.
  rewrite (bind_Ok _ _ _ _ _ (transform_loop_ok _ _ case name _ w Hx)).
  rewrite (bind_Ok _ _ _ _ _ (_predict_est_ok _ _ _ _ _ _ _ _ w Hp)).
  unfold shape_of, assign_rows, read_P, bind, ret. simpl.
  by destruct (assign _ _ _ _).
Qed.

(** X14.  [predict_est] applies the steps of the case in order, calls the
    prediction method on the result and assigns what it returns to all the
    rows of [P].  A one-dimensional prediction with one value for each row
    of [P] fills column [col]: the value for row [r] is found in [P[r, col]]
    whenever the rows of [P] have a column [col].  A one-dimensional
    prediction of any other length (one value apart) into such a [P] is a
    [ValueError], and [P] is left as it was. *)
Theorem predict_est_fills_its_column (case : option string)
    (tr_list : list (string * fitted_tr)) (inst_name : string)
    (est : option fitted_est) (X : matrix) (col : Z) (name : option string)
    (attr : string) (w : world) (x' : matrix) (p : ndarray) :
  apply_steps tr_list X = inr x' ->
  getattr_call est attr x' = inr p ->
  let run := predict_est case tr_list inst_name est X SharedP col name attr w
  in
  run = match assign (P w) (all_rows (P w)) col p with
        | inr P1 => (Ok tt, with_P w P1)
        | inl e => (Raise e, w)
        end
  /\ (forall v, p = Vec v -> length v = length (P w) ->
        Forall (fun row => is_Some (wrap_index (length row) col)) (P w) ->
        run.1 = Ok tt
        /\ forall (r : nat) val, v !! r = Some val ->
             cell (P run.2) r col = Some val)
  /\ (forall v, p = Vec v -> length v <> length (P w) -> length v <> 1%nat ->
        P w <> [] ->
        Forall (fun row => is_Some (wrap_index (length row) col)) (P w) ->
        raised_class run = Some ValueError /\ run.2 = w).
Proof.
  intros Hx Hp run.
  assert (run = match assign (P w) (all_rows (P w)) col p with
                | inr P1 => (Ok tt, with_P w P1)
                | inl e => (Raise e, w)
                end) as Hrun by (by eapply predict_est_writes).
  split; [done|]. split.
  - intros v -> Hlen Hcol. rewrite Hrun. simpl.
    destruct (setitem_col_all_rows (P w) col v Hlen Hcol) as [P1 HP1].
    rewrite HP1. simpl. split; [done|]. intros r val Hv.
    assert (r < length (P w))%nat as Hr.
    { apply lookup_lt_Some in Hv. lia. }
    eapply (setitem_col_cells _ _ _ _ _ HP1) with (k := r).
    + unfold all_rows. rewrite length_arange. lia.
    + apply NoDup_wrap_all_rows.
    + by apply lookup_all_rows.
    + done.
    + rewrite wrap_index_in_range by lia. f_equal. lia.
  - intros v -> Hlen H1 _ _. rewrite Hrun. simpl. unfold setitem_col.
    rewrite wrap_all_rows. simpl. unfold broadcast.
    rewrite decide_False by (by rewrite length_seq).
    destruct v as [|a [|b v]]; simpl in *; done.
Qed.

Lemma predict_est_fills_its_column_witness :
  let run := predict_est None [("plus1", Sample.plus1)] "good"
               (Some Sample.first_col) Sample.X SharedP 1 (Some "layer-1")
               "predict" Sample.w0 in
  run.1 = Ok tt
  /\ (forall (r : nat) val, [2; 3; 4] !! r = Some val ->
        cell (P run.2) r 1 = Some val)
  /\ raised_class
       (predict_est None [] "good" (Some Sample.first_col) Sample.X7 SharedP 1
          (Some "layer-1") "predict" Sample.w0) = Some ValueError.
Proof.
  intros run.
  destruct (predict_est_fills_its_column None [("plus1", Sample.plus1)]
              "good" (Some Sample.first_col) Sample.X 1 (Some "layer-1")
              "predict" Sample.w0 [[2]; [3]; [4]] (Vec [2; 3; 4])
              eq_refl eq_refl) as (_ & Hfill & _).
  destruct (predict_est_fills_its_column None [] "good"
              (Some Sample.first_col) Sample.X7 1 (Some "layer-1") "predict"
              Sample.w0 Sample.X7 (Vec [10; 11; 12; 13; 14; 15; 16])
              eq_refl eq_refl) as (_ & _ & Hbad).
  split; [|split].
  - apply (Hfill [2; 3; 4] eq_refl eq_refl).
    repeat constructor; by eexists.
  - apply (Hfill [2; 3; 4] eq_refl eq_refl).
    repeat constructor; by eexists.
  - apply (Hbad _ eq_refl); try (simpl; lia); try done.
    repeat constructor; by eexists.
Defined.

(** ** The names of the scores *)

Lemma append_nil_r (s : string) : s ++ "" = s.
Proof.
  induction s as [|c s IH]; [done|].
  change (String c (s ++ "") = String c s). by f_equal.
Qed.

Lemma append_assoc (a b c : string) : (a ++ b) ++ c = a ++ (b ++ c).
Proof.
  induction a as [|x a IH]; [done|].
  change (String x ((a ++ b) ++ c) = String x (a ++ (b ++ c))). by f_equal.
Qed.

Lemma not_underscore c sep' s :
  is_char c "_" = false ->
  String.prefix (String underscore sep') (String c s) = false.
Proof.
  unfold is_char. intros H. cbn [String.prefix].
  destruct (Ascii.ascii_dec underscore c) as [Heq|Hne].
  - subst c. by rewrite String.eqb_refl in H.
  - done.
Qed.

(** Splitting walks over a plain name without cutting it. *)
Lemma split_go_plain sep' n : forall cur rest,
  plain n = true ->
  split_go (String underscore sep') 0 cur (n ++ rest)
  = split_go (String underscore sep') 0 (cur ++ n) rest.
Proof.
  induction n as [|c n IH]; intros cur rest Hn.
  - change ("" ++ rest) with rest. by rewrite append_nil_r.
  - simpl in Hn. apply andb_true_iff in Hn as [Hc Hn].
    apply negb_true_iff in Hc.
    change (String c n ++ rest) with (String c (n ++ rest)).
    cbn [split_go]. rewrite not_underscore by done.
    rewrite IH by done. by rewrite append_assoc.
Qed.

Lemma plain_no_prefix sep' k :
  plain k = true -> String.prefix (String underscore sep') k = false.
Proof.
  destruct k as [|c k]; [done|]. simpl. intros H.
  apply andb_true_iff in H as [Hc _]. apply negb_true_iff in Hc.
  by apply not_underscore.
Qed.

Lemma prefix_cons c s1 s2 :
  String.prefix (String c s1) (String c s2) = String.prefix s1 s2.
Proof.
  cbn [String.prefix]. by destruct (Ascii.ascii_dec c c).
Qed.

Lemma prefix_append sep s : String.prefix sep (sep ++ s) = true.
Proof.
  induction sep as [|c sep IH]; [by destruct s|].
  change (String c sep ++ s) with (String c (sep ++ s)).
  by rewrite prefix_cons.
Qed.

Lemma split_go_eq sep cur ch rest :
  split_go sep 0 cur (String ch rest)
  = if String.prefix sep (String ch rest)
    then cur :: split_go sep (String.length sep - 1)%nat "" rest
    else split_go sep 0 (cur ++ String ch "") rest.
Proof. reflexivity. Qed.

Lemma split_go_skip sep t : forall cur s,
  split_go sep (String.length t) cur (t ++ s) = split_go sep 0 cur s.
Proof.
  induction t as [|c t IH]; intros cur s; [done|].
  change (String c t ++ s) with (String c (t ++ s)). apply IH.
Qed.

(** At a separator the piece read so far is cut off. *)
Lemma split_go_at_sep c sep' cur s :
  split_go (String c sep') 0 cur (String c sep' ++ s)
  = cur :: split_go (String c sep') 0 "" s.
Proof.
  change (String c sep' ++ s) with (String c (sep' ++ s)).
  rewrite split_go_eq.
  change (String c (sep' ++ s)) with (String c sep' ++ s).
  rewrite prefix_append.
  replace (String.length (String c sep') - 1)%nat with (String.length sep')
    by (simpl; lia).
  by rewrite split_go_skip.
Qed.

Lemma split_go_end sep' n cur :
  plain n = true -> split_go (String underscore sep') 0 cur n = [cur ++ n].
Proof.
  intros Hn. rewrite <- (append_nil_r n) at 1.
  by rewrite split_go_plain.
Qed.

Lemma split_key_of_full n :
  plain n = true -> py_split "___" (score_key None n) = [""; n].
Proof.
  intros Hn. unfold py_split, score_key.
  rewrite split_go_at_sep. by rewrite split_go_end.
Qed.

Lemma split_fold_name n k :
  plain n = true -> plain k = true ->
  py_split "__" (n ++ "__" ++ k) = [n; k].
Proof.
  intros Hn Hk. unfold py_split. rewrite split_go_plain by done.
  rewrite split_go_at_sep. by rewrite split_go_end.
Qed.

Lemma split_key_of_fold n k :
  plain n = true -> plain k = true ->
  py_split "___" (score_key None (n ++ "__" ++ k)) = [""; n ++ "__" ++ k].
Proof.
  intros Hn Hk. unfold py_split, score_key.
  rewrite split_go_at_sep. rewrite split_go_plain by done.
  change ("__" ++ k) with (String underscore (String underscore k)).
  rewrite split_go_eq.
  change "___" with (String underscore "__") at 1. rewrite prefix_cons.
  change "__" with (String underscore "_") at 1. rewrite prefix_cons.
  rewrite plain_no_prefix by done.
  rewrite split_go_eq.
  change "___" with (String underscore "__") at 1. rewrite prefix_cons.
  rewrite plain_no_prefix by done.
  rewrite split_go_end by done.
  by rewrite !append_assoc.
Qed.

Lemma fmap_ext_elem {A B} (f g : A -> B) (l : list A) :
  (forall x, x ∈ l -> f x = g x) -> f <$> l = g <$> l.
Proof.
  induction l as [|a l IH]; intros H; [done|].
  rewrite !fmap_cons. f_equal.
  - apply H. by left.
  - apply IH. intros x Hx. apply H. by right.
Qed.

Lemma dict_set_absent {V} k (v : V) d :
  k ∉ d.*1 -> dict_set k v d = (d ++ [(k, v)])%list.
Proof.
  induction d as [|[k' v'] d IH]; [done|]. simpl. intros Hk.
  apply not_elem_of_cons in Hk as [Hne Hk].
  apply String.eqb_neq in Hne. rewrite Hne. f_equal. by apply IH.
Qed.

Lemma dict_get_listed {V} (g : string -> V) names n0 :
  n0 ∈ names -> dict_get n0 ((fun n => (n, g n)) <$> names) = Some (g n0).
Proof.
  induction names as [|n names IH]; intros Hin;
    [by apply elem_of_nil in Hin|].
  simpl. destruct (String.eqb n0 n) eqn:E.
  - apply String.eqb_eq in E. by subst.
  - apply String.eqb_neq in E. apply elem_of_cons in Hin as [?|Hin]; [done|].
    by apply IH.
Qed.

Lemma dict_set_listed {V} (g : string -> V) names n0 l :
  NoDup names -> n0 ∈ names ->
  dict_set n0 l ((fun n => (n, g n)) <$> names)
  = (fun n => (n, if decide (n = n0) then l else g n)) <$> names.
Proof.
  induction names as [|n names IH]; intros Hnd Hin;
    [by apply elem_of_nil in Hin|].
  apply NoDup_cons in Hnd as [Hfresh Hnd]. simpl.
  destruct (String.eqb n0 n) eqn:E.
  - apply String.eqb_eq in E. subst n. rewrite decide_True by done.
    f_equal. apply fmap_ext_elem. intros x Hx.
    rewrite decide_False; [done|]. by intros ->.
  - apply String.eqb_neq in E. apply elem_of_cons in Hin as [?|Hin]; [done|].
    rewrite decide_False by done. f_equal. by apply IH.
Qed.

(** The first loop registers the names of the estimators, in order. *)
Lemma shell_registers names : forall full acc,
  length full = length names ->
  Forall (fun n => plain n = true) names -> NoDup names ->
  (forall n, n ∈ names -> n ∉ acc.*1) ->
  BaseEstimator.shell
    (zip_with (fun n v => (score_key None n, v)) names full) acc
  = inr (acc ++ ((fun n => (n, [])) <$> names))%list.
Proof.
  induction names as [|n names IH]; intros full acc Hlen Hplain Hnd Hacc.
  - simpl. by rewrite app_nil_r.
  - destruct full as [|v full]; [discriminate|].
    apply Forall_cons in Hplain as [Hn Hplain].
    apply NoDup_cons in Hnd as [Hfresh Hnd].
    cbn [zip_with BaseEstimator.shell].
    rewrite split_key_of_full by done. cbn [unpack2 ebind].
    rewrite String.eqb_refl.
    rewrite dict_set_absent by (apply Hacc; by left).
    rewrite IH; try done.
    + by rewrite <- app_assoc.
    + simpl in Hlen. lia.
    + intros n' Hn'. rewrite fmap_app. simpl. intros Hin.
      apply elem_of_app in Hin as [Hin|Hin].
      * apply (Hacc n'); [by right|done].
      * apply list_elem_of_singleton in Hin. by subst.
Qed.

(** The second loop files each fold score under its estimator. *)
Lemma populate_files names folds : forall g : string -> list (option Z),
  NoDup names ->
  Forall (fun f : string * string * option Z =>
            f.1.1 ∈ names /\ plain f.1.1 = true /\ plain f.1.2 = true)
         folds ->
  BaseEstimator.populate
    ((fun f : string * string * option Z =>
        (score_key None (f.1.1 ++ "__" ++ f.1.2), f.2)) <$> folds)
    ((fun n => (n, g n)) <$> names)
  = inr ((fun n => (n, (g n ++ scores_of n folds)%list)) <$> names).
Proof.
  induction folds as [|[[n0 k0] v0] folds IH]; intros g Hnd Hfolds.
  - simpl. f_equal. apply fmap_ext_elem. intros n _.
    unfold scores_of. simpl. by rewrite app_nil_r.
  - apply Forall_cons in Hfolds as [(Hin & Hn0 & Hk0) Hfolds].
    rewrite fmap_cons. cbn [BaseEstimator.populate fst snd].
    rewrite split_key_of_fold by done. cbn [unpack2 ebind].
    rewrite split_fold_name by done.
    change (init [n0; k0]) with [n0]. cbn [py_join].
    change (py_in "__" "") with false. cbn [negb].
    rewrite dict_get_listed by done. cbn [or_raise ebind].
    rewrite dict_set_listed by done.
    rewrite (IH (fun n => if decide (n = n0) then (g n0 ++ [v0])%list
                          else g n)) by done.
    f_equal. apply fmap_ext_elem. intros n _. f_equal.
    unfold scores_of. case_decide as Hn.
    + subst n. rewrite filter_cons_True by done. simpl.
      by rewrite <- app_assoc.
    + rewrite filter_cons_False; [done|]. simpl. by intros ->.
Qed.

(** X15.  The names of the scores come back.  For a layer without
    preprocessing [_assemble] names the score of an instance [___] followed
    by the instance name.  When the estimators fitted on all the data have
    distinct names [n] without underscores and the instance of fold [k] of
    [n] is named [n__k], [_build_scores] recovers [n] from these keys: the
    groups are the estimators in their order, and the group of [n] holds the
    scores of the folds of [n], in the order of the folds.  Without the
    raising policy the table has exactly these keys. *)
Theorem fold_scores_are_filed_by_estimator (self : BaseEstimator.slots)
    (names : list string) (full : list (option Z))
    (folds : list (string * string * option Z)) (w : world) :
  Layer.n_pred (BaseEstimator.layer self) = length names ->
  length full = length names ->
  NoDup names ->
  Forall (fun n => plain n = true) names ->
  Forall (fun f : string * string * option Z =>
            f.1.1 ∈ names /\ plain f.1.2 = true) folds ->
  let groups := (fun n => (n, scores_of n folds)) <$> names in
  grouped self (score_list names full folds) = inr groups
  /\ (BaseEstimator.raise_ self = false ->
      exists w',
        BaseEstimator._build_scores self (score_list names full folds) w
        = (Ok (reduce_table groups), w')
        /\ (reduce_table groups).*1 = names).
Proof.
  intros Hn Hlen Hnd Hplain Hfolds groups.
  assert (grouped self (score_list names full folds) = inr groups) as Hg.
  { unfold grouped, score_list. rewrite Hn.
    assert (length (zip_with (fun n v => (score_key None n, v)) names full)
            = length names) as Hz.
    { rewrite length_zip_with. lia. }
    rewrite take_app_length' by done. rewrite drop_app_length' by done.
    rewrite shell_registers;
      [|done|done|done|intros n _; apply not_elem_of_nil].
    cbn [ebind app].
    rewrite (populate_files names folds (fun _ => [])); [done..|].
    apply Forall_forall. intros f Hf.
    eapply Forall_forall in Hfolds as [Hin Hk]; [|exact Hf].
    repeat split; [done| |done].
    eapply Forall_forall in Hplain; [exact Hplain|exact Hin]. }
  split; [done|]. intros Hr.
  rewrite (_build_scores_grouped _ _ _ _ Hg), Hr.
  destruct (aggregate_warns (BaseEstimator.name self) groups w)
    as (w' & Hrun & _).
  exists w'. split; [done|].
  unfold reduce_table, groups. rewrite <- !list_fmap_compose.
  rewrite <- (list_fmap_id names) at 2. by apply fmap_ext_elem.
Qed.

Lemma fold_scores_are_filed_by_estimator_witness :
  grouped (Sample.engine_scores false) Fixtures.scored
  = inr [("est", [Some 2; Some 3])].
Proof.
  apply (fold_scores_are_filed_by_estimator (Sample.engine_scores false)
           ["est"] [Some 1] [("est", "0", Some 2); ("est", "1", Some 3)]
           Sample.w0).
  - reflexivity.
  - reflexivity.
  - apply (bool_decide_eq_true_1 (NoDup _)). reflexivity.
  - by repeat constructor.
  - repeat constructor; simpl; by left.
Defined.

(** ** The text of the diagnostics *)











(** ** From [fit] to [predict] *)

(** The task of a full-data fit without preprocessing whose estimator can be
    fitted caches the fitted object. *)
Lemma full_fit_is_cached fuel dir case inst_name inst X y col b name ivals
    attr scorer w f :
  est_fit inst X (Some y) = inr f ->
  fit_est fuel dir case inst_name inst X y None (None, None, col) b false
    name ivals attr scorer w
  = (Ok tt,
     with_cache w
       (<[ekey dir case inst_name
          := EPayload inst_name (Some f) (None, col) None]> (cache w))).
Proof.
  intros Hf. unfold fit_est.
  change (_slice_array X (Some y) None) with
    (inr (X, Some y, None) : exn + (matrix * option (list Z) * option (list Z))).
  rewrite (bind_Ok _ _ _ _ _ (lift_inr _ _)).
  unfold bind at 1. unfold ret at 1. unfold transform_loop.
  unfold bind at 1. unfold ret at 1.
  rewrite (bind_Ok _ _ _ _ _ (_fit_est_ok _ _ _ b inst_name case name _ w Hf)).
  unfold bind at 1. unfold ret at 1.
  rewrite (bind_Ok _ _ _ _ _ (format_inr _ _ _ _ (ekey_format case inst_name))).
  reflexivity.
Qed.

(** X17.  From [fit] to [predict], for a layer of one estimator without
    preprocessing or scorer, when no other worker is writing: if the
    estimator can be fitted on the data, [fit] returns, leaving the matrix as
    it was, and [predict] on the fitted layer calls the prediction method of
    exactly the object that [fit] got from the estimator, on the new data,
    and writes what it returns to the estimator's column. *)
Theorem predict_uses_what_fit_learned (fuel : nat)
    (self : BaseEstimator.slots) (X : matrix) (y : list Z) (dir : string)
    (n : string) (inst : estimator) (f : fitted_est) (col : Z) (w : world) :
  BaseEstimator.dual self = true ->
  BaseEstimator.t self = None ->
  BaseEstimator.e self = [(None, None, None, [(n, inst)])] ->
  BaseEstimator.c self !! (None, n) = Some col ->
  BaseEstimator.scorer self = None ->
  Layer.n_pred (BaseEstimator.layer self) = 1%nat ->
  pending w = [] ->
  (length y <= length X)%nat ->
  est_fit inst X (Some y) = inr f ->
  exists self' w',
    BaseEstimator.fit fuel self X y dir w = (Ok self', w')
    /\ P w' = P w
    /\ forall X' v,
         getattr_call (Some f)
           (if BaseEstimator.proba self then "predict_proba" else "predict")
           X' = inr (Vec v) ->
         length v = length (P w) ->
         Forall (fun row => is_Some (wrap_index (length row) col)) (P w) ->
         let run := BaseEstimator.predict self' X' w' in
         run.1 = Ok tt
         /\ forall (r : nat) val, v !! r = Some val ->
              cell (P run.2) r col = Some val.
Proof.
  intros Hdual Ht He Hc Hsc Hn Hpend Hy Hf.
  set (w1 := with_cache w
               (<[ekey dir None n := EPayload n (Some f) (None, col) None]>
                  (cache w))).
  set (self' := BaseEstimator.with_layer self
                  (Layer.set_fitted None
                     (EList [(None, (n, Some f, (None, col)))]) None
                     (BaseEstimator.layer self))).
  assert (BaseEstimator.fit fuel self X y dir w = (Ok self', w1)) as Hfit.
  { unfold BaseEstimator.fit. rewrite Hdual, Ht, He.
    rewrite decide_False by lia.
    change (tasks_of [(None, None, None, [(n, inst)])])
      with [(@None string, @None index_spec, @None index_spec, n, inst)].
    erewrite bind_Ok; last first.
    { erewrite bind_Ok; last reflexivity.
      cbn [for_each].
      erewrite bind_Ok; last first.
      { unfold BaseEstimator.c_lookup. rewrite Hc.
        erewrite bind_Ok; last by apply lift_inr.
        by apply full_fit_is_cached. }
      reflexivity. }
    unfold BaseEstimator._assemble. rewrite Ht, He, Hsc.
    erewrite bind_Ok; last reflexivity.
    erewrite bind_Ok; last first.
    { apply _assemble_e_one. rewrite fs_no_pending by done.
      apply lookup_insert_eq. }
    reflexivity. }
  exists self', w1. split; [done|]. split; [done|].
  intros X' v Hp Hlen Hcol run. subst run.
  assert (BaseEstimator.predict self' X' w1
          = predict_est None [] n (Some f) X' SharedP col
              (BaseEstimator.name self)
              (if BaseEstimator.proba self then "predict_proba"
               else "predict") w1) as ->.
  { unfold BaseEstimator.predict, BaseEstimator._check_fitted,
      check_is_fitted, BaseEstimator._retrieve, get_estimators_. simpl.
    rewrite Hn. simpl. unfold bind, ret. simpl. unfold bind. cbv beta.
    by destruct (predict_est None [] n (Some f) X' SharedP col _ _ w1)
      as [[[]|?|] ?]. }
  erewrite predict_est_writes; [|reflexivity|exact Hp].
  change (P w1) with (P w).
  destruct (setitem_col_all_rows (P w) col v Hlen Hcol) as [P1 HP1].
  simpl assign. rewrite HP1. simpl. split; [done|]. intros r val Hv.
  assert (r < length (P w))%nat as Hr.
  { apply lookup_lt_Some in Hv. lia. }
  eapply (setitem_col_cells _ _ _ _ _ HP1) with (k := r).
  - unfold all_rows. rewrite length_arange. lia.
  - apply NoDup_wrap_all_rows.
  - by apply lookup_all_rows.
  - done.
  - rewrite wrap_index_in_range by lia. f_equal. lia.
Qed.

Lemma predict_uses_what_fit_learned_witness :
  exists self' w',
    BaseEstimator.fit 0 Fixtures.engine_one Sample.X Sample.y "cache"
      Sample.w0 = (Ok self', w')
    /\ P w' = P Sample.w0
    /\ forall X' v,
         getattr_call (Some Sample.first_col) "predict" X' = inr (Vec v) ->
         length v = length (P Sample.w0) ->
         Forall (fun row => is_Some (wrap_index (length row) 0))
           (P Sample.w0) ->
         let run := BaseEstimator.predict self' X' w' in
         run.1 = Ok tt
         /\ forall (r : nat) val, v !! r = Some val ->
              cell (P run.2) r 0 = Some val.
Proof.
  apply (predict_uses_what_fit_learned 0 Fixtures.engine_one Sample.X
           Sample.y "cache" "good" Sample.good_est Sample.first_col 0
           Sample.w0); first [reflexivity|simpl; lia].
Defined.

(** ** What an estimator task learns and how it is scored *)

(** X18.  An estimator task fits its estimator on the training rows of its
    index, transformed by the cached steps of its case (by nothing without
    preprocessing), with the labels of those rows, and caches the object the
    fit returned.  A full-data task caches no score.  A fold task caches the
    value the scorer gives for the labels of the held-out rows and the
    predictions for the transformed held-out rows, or [None] when there is
    no scorer or the scorer raises.  Neither warns or waits. *)
Theorem estimator_task_fits_and_scores (fuel : nat) (dir : string)
    (case : option string) (inst_name : string) (inst : estimator)
    (X : matrix) (y : list Z) (idx0 : option index_spec) (col : Z)
    (raise_on_exception preprocess : bool) (name : option string)
    (ivals : Z * Z) (attr : string) (scorer : option scorer_t) (w : world)
    (x x1 : matrix) (z i0 : option (list Z))
    (steps : list (string * fitted_tr)) (f : fitted_est) :
  _slice_array X (Some y) idx0 = inr (x, z, i0) ->
  (if preprocess then fs w !! tkey dir case = Some (TPayload steps)
   else steps = []) ->
  apply_steps steps x = inr x1 ->
  est_fit inst x1 z = inr f ->
  (fit_est fuel dir case inst_name inst X y None (idx0, None, col)
     raise_on_exception preprocess name ivals attr scorer w
   = (Ok tt,
      with_cache w
        (<[ekey dir case inst_name
           := EPayload inst_name (Some f) (None, col) None]> (cache w))))
  /\ (forall tei x2 z2 rows x2' p P1,
        _slice_array X (Some y) (Some tei) = inr (x2, z2, Some rows) ->
        apply_steps steps x2 = inr x2' ->
        getattr_call (Some f) attr x2' = inr p ->
        assign (P w)
          ((fun i => i - (Z.of_nat (length X) - Z.of_nat (length (P w))))
           <$> rows) col p = inr P1 ->
        fit_est fuel dir case inst_name inst X y (Some SharedP)
          (idx0, Some tei, col) raise_on_exception preprocess name ivals attr
          scorer w
        = (Ok tt,
           with_cache (with_P w P1)
             (<[ekey dir case inst_name
                := EPayload inst_name (Some f) (Some tei, col)
                     (match scorer with
                      | Some sc => match sc z2 p with
                                   | inr s => Some s
                                   | inl _ => None
                                   end
                      | None => None
                      end)]> (cache w)))).
Proof.
  intros Hs Hsteps Hx Hf. split.
  - unfold fit_est. rewrite Hs.
    rewrite (bind_Ok _ _ _ _ _ (lift_inr _ _)).
    rewrite (bind_Ok _ _ _ _ _ (fit_est_steps fuel dir case ivals
                                  raise_on_exception preprocess steps w
                                  Hsteps)).
    rewrite (bind_Ok _ _ _ _ _ (transform_loop_ok _ _ case name _ w Hx)).
    rewrite (bind_Ok _ _ _ _ _ (_fit_est_ok _ _ _ _ _ _ _ _ w Hf)).
    unfold bind at 1. unfold ret at 1.
    rewrite (bind_Ok _ _ _ _ _ (format_inr _ _ _ _
                                  (ekey_format case inst_name))).
    reflexivity.
  - intros tei x2 z2 rows x2' p P1 Hs2 Hx2 Hp Ha.
    erewrite fit_est_writes; eauto. by rewrite Ha.
Qed.

Lemma estimator_task_fits_and_scores_witness :
  cache
    (fit_est 0 "cache" None "good__0" Sample.good_est Sample.X Sample.y
       (Some SharedP) (Some (Range 1 3), Some (Range 0 1), 1) false false
       (Some "layer-1") (1, 6000) "predict" (Some Sample.mean_scorer)
       Sample.w0).2
  !! ekey "cache" None "good__0"
  = Some (EPayload "good__0" (Some Sample.first_col) (Some (Range 0 1), 1)
            (Some 1)).
Proof.
  destruct (estimator_task_fits_and_scores 0 "cache" None "good__0"
              Sample.good_est Sample.X Sample.y (Some (Range 1 3)) 1 false
              false (Some "layer-1") (1, 6000) "predict"
              (Some Sample.mean_scorer) Sample.w0 [[2]; [3]] [[2]; [3]]
              (Some [0; 1]) (Some [1; 2]) [] Sample.first_col
              eq_refl eq_refl eq_refl eq_refl) as [_ Hfold].
  rewrite (Hfold (Range 0 1) [[1]] (Some [1]) [0] [[1]] (Vec [1])
             [[0; 1]; [0; 0]; [0; 0]] eq_refl eq_refl eq_refl eq_refl).
  reflexivity.
Defined.

(** ** Assembling from an incomplete cache *)

Lemma map_M_first_failure {A B} (g : A -> M B) (c : exn_class) l w :
  Forall (fun a => (exists b, g a w = (Ok b, w))
                   \/ exists e, g a w = (Raise e, w) /\ exn_cls e = c) l ->
  Exists (fun a => exists e, g a w = (Raise e, w)) l ->
  exists e, map_M g l w = (Raise e, w) /\ exn_cls e = c.
Proof.
  induction l as [|a l IH]; intros Hall Hex; [by apply Exists_nil in Hex|].
  apply Forall_cons in Hall as [Ha Hall]. simpl.
  destruct Ha as [[b Hb]|(e & He & Hc)].
  - apply Exists_cons in Hex as [[e He]|Hex]; [congruence|].
    destruct (IH Hall Hex) as (e & He & Hc).
    exists e. split; [|done].
    rewrite (bind_Ok _ _ _ _ _ Hb). by rewrite (bind_Raise _ _ _ _ _ He).
  - exists e. split; [|done]. by rewrite (bind_Raise _ _ _ _ _ He).
Qed.

Lemma map_M_all_ok {A B} (g : A -> M B) (h : A -> B) l w :
  Forall (fun a => g a w = (Ok (h a), w)) l ->
  map_M g l w = (Ok (h <$> l), w).
Proof.
  induction 1 as [|a l Ha _ IH]; [done|]. simpl.
  rewrite (bind_Ok _ _ _ _ _ Ha). by rewrite (bind_Ok _ _ _ _ _ IH).
Qed.

Lemma pickle_load_missing f w :
  fs w !! f = None ->
  exists e, pickle_load f w = (Raise e, w) /\ exn_cls e = FileNotFoundError.
Proof. intros H. unfold pickle_load. rewrite H. by eexists. Qed.

(** X19.  [_assemble] does not wait.  Without a list of preprocessing cases
    it returns [None] and reads nothing.  With one it returns, case by case
    and in order, what the file of each case holds, when every file is
    there; when the file of some case is missing (and, for the estimators,
    no file holds a list of steps) it raises [FileNotFoundError] at once.
    In every case the world stays as it was. *)
Theorem assemble_needs_every_file (dir : string) (w : world) :
  _assemble_t dir None w = (Ok None, w)
  /\ (forall (l : list t_item) (held : option string -> payload),
        Forall (fun tup : t_item =>
                  fs w !! tkey dir tup.1.1.1 = Some (held tup.1.1.1)) l ->
        _assemble_t dir (Some l) w
        = (Ok (Some ((fun tup : t_item => (tup.1.1.1, held tup.1.1.1))
                     <$> l)), w))
  /\ (forall l : list t_item,
        Exists (fun tup : t_item => fs w !! tkey dir tup.1.1.1 = None) l ->
        raised_class (_assemble_t dir (Some l) w) = Some FileNotFoundError
        /\ (_assemble_t dir (Some l) w).2 = w)
  /\ (forall e : list e_item,
        Forall (fun task : est_task =>
                  forall steps,
                    fs w !! task_key dir task <> Some (TPayload steps))
               (tasks_of e) ->
        Exists (fun task : est_task => fs w !! task_key dir task = None)
               (tasks_of e) ->
        raised_class (_assemble_e dir e w) = Some FileNotFoundError
        /\ (_assemble_e dir e w).2 = w).
Proof.
  split; [done|]. split; [|split].
  - intros l held Hall. unfold _assemble_t.
    erewrite bind_Ok; last first.
    { apply (map_M_all_ok _ (fun tup : t_item => (tup.1.1.1, held tup.1.1.1))).
      eapply Forall_impl; [exact Hall|].
      intros [[[case tri] tei] il] Hfs. simpl in *.
      rewrite (bind_Ok _ _ _ _ _ (format_inr _ _ _ w (tkey_format2 case))).
      by rewrite (bind_Ok _ _ _ _ _ (pickle_load_found _ _ _ Hfs)). }
    reflexivity.
  - intros l Hex. unfold _assemble_t.
    match goal with
    | |- context [map_M ?g l] =>
        destruct (map_M_first_failure g FileNotFoundError l w)
          as (e & He & Hc)
    end.
    + apply Forall_forall. intros [[[case tri] tei] il] _.
      rewrite (bind_Ok _ _ _ _ _ (format_inr _ _ _ w (tkey_format2 case))).
      destruct (fs w !! path_join dir (py_str (case_arg case) ++ "__t"))
        as [v|] eqn:E.
      * left. exists (case, v).
        by rewrite (bind_Ok _ _ _ _ _ (pickle_load_found _ _ _ E)).
      * right. destruct (pickle_load_missing _ _ E) as (e & He & Hc).
        exists e. by rewrite (bind_Raise _ _ _ _ _ He).
    + eapply Exists_impl; [exact Hex|].
      intros [[[case tri] tei] il] Hfs. simpl in Hfs. unfold tkey in Hfs.
      rewrite (bind_Ok _ _ _ _ _ (format_inr _ _ _ w (tkey_format2 case))).
      destruct (pickle_load_missing _ _ Hfs) as (e & He & Hc).
      exists e. by rewrite (bind_Raise _ _ _ _ _ He).
    + rewrite (bind_Raise _ _ _ _ _ He). unfold raised_class. simpl.
      by rewrite Hc.
  - intros e Hkind Hex. unfold _assemble_e. rewrite assemble_items.
    match goal with
    | |- context [map_M ?g ?l] =>
        destruct (map_M_first_failure g FileNotFoundError l w)
          as (e' & He & Hc)
    end.
    + apply Forall_fmap. eapply Forall_impl; [exact Hkind|].
      intros [[[[case tri] tei] n] inst] Hk. simpl.
      unfold task_key, ekey in Hk. simpl in Hk.
      rewrite (bind_Ok _ _ _ _ _ (format_inr _ _ _ w (ekey_format3 case n))).
      destruct (fs w !! path_join dir
                  (py_str (case_arg case) ++ "__" ++ n ++ "__e"))
        as [[steps|n' est idx s]|] eqn:E.
      * by destruct (Hk steps).
      * left. rewrite (bind_Ok _ _ _ _ _ (pickle_load_found _ _ _ E)).
        destruct case; by eexists.
      * right. destruct (pickle_load_missing _ _ E) as (e0 & He & Hc).
        exists e0. by rewrite (bind_Raise _ _ _ _ _ He).
    + apply Exists_fmap. eapply Exists_impl; [exact Hex|].
      intros [[[[case tri] tei] n] inst] Hfs. simpl.
      unfold task_key, ekey in Hfs. simpl in Hfs.
      rewrite (bind_Ok _ _ _ _ _ (format_inr _ _ _ w (ekey_format3 case n))).
      destruct (pickle_load_missing _ _ Hfs) as (e0 & He & Hc).
      exists e0. by rewrite (bind_Raise _ _ _ _ _ He).
    + rewrite (bind_Raise _ _ _ _ _ He). unfold raised_class. simpl.
      by rewrite Hc.
Qed.

Lemma assemble_needs_every_file_witness :
  let l : list t_item := [(Some "c", None, None, [])] in
  _assemble_t "cache" (Some l) (Sample.w_steps [("plus1", Sample.plus1)])
  = (Ok (Some [(Some "c", TPayload [("plus1", Sample.plus1)])]),
     Sample.w_steps [("plus1", Sample.plus1)])
  /\ raised_class (_assemble_t "cache" (Some l) Sample.w0)
     = Some FileNotFoundError
  /\ raised_class
       (_assemble_e "cache" (BaseEstimator.e Sample.engine_full) Sample.w0)
     = Some FileNotFoundError.
Proof.
  intros l.
  destruct (assemble_needs_every_file "cache"
              (Sample.w_steps [("plus1", Sample.plus1)]))
    as (_ & Hall & _).
  destruct (assemble_needs_every_file "cache" Sample.w0)
    as (_ & _ & Ht & He).
  split; [|split].
  - apply (Hall l (fun _ => TPayload [("plus1", Sample.plus1)])).
    repeat constructor.
  - apply (Ht l). by repeat constructor.
  - apply (He (BaseEstimator.e Sample.engine_full)).
    + by repeat constructor.
    + by repeat constructor.
Defined.

(** ** The estimator tasks of a dual fit do not wait *)

Lemma for_each_invariant {A} (Inv : world -> Prop) (f : A -> M unit) l :
  (forall a w, Inv w -> Inv (f a w).2) ->
  forall w, Inv w -> Inv (for_each f l w).2.
Proof.
  intros Hf. induction l as [|a l IH]; intros w Hw; [done|]. simpl.
  unfold bind. specialize (Hf a w Hw).
  destruct (f a w) as [[u|e|] w1]; simpl in *; [by apply IH|done..].
Qed.

Lemma extends_file w w' f :
  extends w w' -> is_Some (cache w !! f) -> is_Some (cache w' !! f).
Proof.
  intros (_ & Hdom & _) Hf. apply elem_of_dom. apply Hdom.
  by apply elem_of_dom.
Qed.

(** After the transformer tasks of a fit that went through, the file of
    every case is in the cache. *)
Lemma trans_tasks_files dir X y name (tl : list t_item) : forall w w',
  for_each (fun tup : t_item =>
              let '(case, tri, _, instance_list) := tup in
              fit_trans dir case instance_list X y tri name) tl w
  = (Ok tt, w') ->
  Forall (fun tup : t_item => is_Some (cache w' !! tkey dir tup.1.1.1)) tl.
Proof.
  induction tl as [|[[[case tri] tei] il] tl IH]; intros w w' H; [done|].
  apply for_each_Ok_cons in H as (w1 & Ha & H).
  constructor; [|by eapply IH].
  eapply extends_file.
  - assert (grows (for_each (fun tup : t_item =>
                               let '(case, tri, _, instance_list) := tup in
                               fit_trans dir case instance_list X y tri name)
                     tl)) as Hg.
    { apply grows_for_each. intros [[[c0 t0] e0] i0]. apply grows_fit_trans. }
    specialize (Hg w1). by rewrite H in Hg.
  - apply fit_trans_persists in Ha as (? & ? & ? & out & _ & _ & _ & ->).
    simpl. rewrite lookup_insert_eq. by eexists.
Qed.

(** An estimator task whose steps are in the cache lets no time pass. *)
Lemma fit_est_no_wait fuel dir case inst_name inst X y pred idx
    raise_on_exception preprocess name ivals attr scorer w :
  pending w = [] ->
  (preprocess = true -> is_Some (cache w !! tkey dir case)) ->
  clock (fit_est fuel dir case inst_name inst X y pred idx raise_on_exception
           preprocess name ivals attr scorer w).2 = clock w.
Proof.
  intros Hpend Hfile. unfold fit_est. destruct idx as [[idx0 idx1] idx2].
  destruct (_slice_array X (Some y) idx0) as [e|[[x z] i]]; [done|].
  rewrite (bind_Ok _ _ _ _ _ (lift_inr _ _)).
  assert (exists r,
            (if preprocess then
               let* k := format "%s__t" [case_arg case] in
               let* v := _load_trans fuel (path_join dir k) case ivals
                           raise_on_exception in
               as_steps v
             else ret []) w = (r, w)) as [r Hr].
  { destruct preprocess; [|by eexists].
    destruct (Hfile eq_refl) as [v Hv].
    rewrite <- fs_no_pending in Hv by done.
    erewrite bind_Ok; last by apply format_inr, tkey_format.
    erewrite bind_Ok; last by apply _load_trans_readable.
    destruct v; by eexists. }
  unfold bind at 1. rewrite Hr. destruct r as [steps|e|]; [|done..].
  match goal with
  | |- clock (?m w).2 = clock w =>
      assert (preserves clock m) as Hm; [|apply Hm]
  end.
  unfold _fit_est, _predict_est, warn, pred_shape0, isub, shape_of,
    assign_rows, read_P, write_P, pickle_save.
  frame.
Qed.

Lemma for_each_invariant_in {A} (Inv : world -> Prop) (f : A -> M unit) l :
  (forall a w, a ∈ l -> Inv w -> Inv (f a w).2) ->
  forall w, Inv w -> Inv (for_each f l w).2.
Proof.
  induction l as [|a l IH]; intros Hf w Hw; [done|]. simpl.
  unfold bind. pose proof (Hf a w ltac:(by left) Hw) as Ha.
  destruct (f a w) as [[u|e|] w1]; simpl in *; [|done..].
  apply IH; [|done]. intros b w0 Hb. apply Hf. by right.
Qed.

Lemma bind_clock {A B} (m : M A) (k : A -> M B) w c :
  clock (m w).2 = c -> (forall a, preserves clock (k a)) ->
  clock (bind m k w).2 = c.
Proof.
  intros Hm Hk. unfold bind. destruct (m w) as [[a|e|] w1]; simpl in *;
    [|done..].
  by rewrite Hk.
Qed.

(** X20.  In a dual fit the transformer tasks all come before the estimator
    tasks, so when no other worker is writing and every estimator task
    belongs to a case with a transformer task, no estimator task ever waits
    for its steps: however the fit ends, no time has passed by then. *)
Theorem dual_fit_never_waits (fuel : nat) (self : BaseEstimator.slots)
    (X : matrix) (y : list Z) (dir : string) (w : world) :
  BaseEstimator.dual self = true ->
  pending w = [] ->
  (forall tl, BaseEstimator.t self = Some tl ->
     Forall (fun task : est_task =>
               task.1.1.1.1 ∈ (fun tup : t_item => tup.1.1.1) <$> tl)
            (tasks_of (BaseEstimator.e self))) ->
  clock (BaseEstimator.fit fuel self X y dir w).2 = clock w.
Proof.
  intros Hdual Hpend Hcases. unfold BaseEstimator.fit. rewrite Hdual.
  set (y' := if decide (length X < length y)%nat
             then drop (length y - length X) y else y).
  apply bind_clock.
  2:{ intros _. unfold BaseEstimator._assemble, _assemble_t, _assemble_e,
        split_loaded, BaseEstimator._build_scores, _mean_score, warn.
      frame. }
  set (trans := match BaseEstimator.t self with
                | Some tl =>
                    for_each (fun tup : t_item =>
                                let '(case, tri, _, instance_list) := tup in
                                fit_trans dir case instance_list X y' tri
                                  (BaseEstimator.name self)) tl
                | None => ret tt
                end).
  assert (preserves clock trans) as Htc.
  { subst trans. unfold fit_trans, pickle_save. frame. }
  assert (grows trans) as Htg.
  { subst trans. destruct (BaseEstimator.t self); [|by apply grows_keeps].
    apply grows_for_each. intros [[[c0 t0] e0] i0]. apply grows_fit_trans. }
  unfold bind at 1. specialize (Htc w). specialize (Htg w).
  destruct (trans w) as [[[]|e0|] w1] eqn:Et; simpl in Htc, Htg; [|done..].
  set (Inv := fun w0 : world =>
                clock w0 = clock w /\ pending w0 = []
                /\ forall tl, BaseEstimator.t self = Some tl ->
                     Forall (fun tup : t_item =>
                               is_Some (cache w0 !! tkey dir tup.1.1.1)) tl).
  assert (Inv w1) as Hw1.
  { split; [done|]. split; [destruct Htg as [Hp _]; congruence|].
    intros tl Htl. subst trans. rewrite Htl in Et.
    by eapply trans_tasks_files. }
  match goal with
  | |- clock (for_each ?f ?l w1).2 = clock w =>
      apply (for_each_invariant_in Inv f l); [|exact Hw1]
  end.
  intros [[[[case tri] tei] n] inst] w0 Hin (Hc & Hp & Hfiles).
  assert (forall m : M unit,
            clock (m w0).2 = clock w0 -> grows m -> Inv (m w0).2) as Hstep.
  { intros m Hmc Hmg. destruct (Hmg w0) as [Hp' Hdom].
    split; [congruence|]. split; [congruence|].
    intros tl Htl. eapply Forall_impl; [exact (Hfiles tl Htl)|].
    intros tup Htup. eapply extends_file; [apply Hmg|exact Htup]. }
  apply Hstep;
    [|apply grows_bind; [apply grows_lift|intros; apply grows_fit_est]].
  unfold BaseEstimator.c_lookup.
  destruct (BaseEstimator.c self !! (case, n)) as [col|]; [|done].
  cbn [or_raise]. rewrite (bind_Ok _ _ _ _ _ (lift_inr _ _)).
  apply fit_est_no_wait; [done|].
  intros Hpre. apply bool_decide_eq_true in Hpre as [tl Htl].
  specialize (Hcases tl Htl). specialize (Hfiles tl Htl).
  eapply Forall_forall in Hcases; [|exact Hin]. simpl in Hcases.
  apply list_elem_of_fmap in Hcases as (tup & -> & Htup).
  by eapply Forall_forall in Hfiles.
Qed.

(** With no fuel at all for polling, the fit of a case with one step and one
    estimator goes through. *)
Lemma dual_fit_never_waits_witness :
  let run := BaseEstimator.fit 0 Fixtures.engine_prep Sample.X Sample.y
               "cache" Sample.w0 in
  clock run.2 = clock Sample.w0 /\ ended run.1 = true.
Proof.
  intros run. split; [|reflexivity].
  apply (dual_fit_never_waits 0 Fixtures.engine_prep Sample.X Sample.y
           "cache" Sample.w0); [reflexivity|reflexivity|].
  intros tl Htl. inversion Htl; subst tl. repeat constructor.
Defined.

(** ** Tasks that write different columns *)

Lemma shape_length (P1 P2 : matrix) :
  shape P1 = shape P2 -> length P1 = length P2.
Proof.
  intros H. apply (f_equal length) in H. unfold shape in H.
  by rewrite !length_fmap in H.
Qed.

(** Two matrices of the same dimensions with the same cells are equal. *)
Lemma matrix_ext (P1 P2 : matrix) :
  shape P1 = shape P2 ->
  (forall r c, 0 <= c -> cell P1 r c = cell P2 r c) -> P1 = P2.
Proof.
  intros Hs Hc. apply list_eq. intros r.
  assert (shape P1 !! r = shape P2 !! r) as Hr by (by rewrite Hs).
  unfold shape in Hr. rewrite !list_lookup_fmap in Hr.
  destruct (P1 !! r) as [row1|] eqn:E1, (P2 !! r) as [row2|] eqn:E2;
    simpl in Hr; try discriminate; [|done].
  f_equal. inversion Hr as [Hlen]. apply list_eq. intros j.
  destruct (decide (j < length row1)%nat) as [Hj|Hj].
  - specialize (Hc r (Z.of_nat j) ltac:(lia)). unfold cell in Hc.
    rewrite E1, E2 in Hc. simpl in Hc.
    rewrite !wrap_index_in_range in Hc by lia. simpl in Hc.
    by rewrite Nat2Z.id in Hc.
  - rewrite !lookup_ge_None_2 by lia. done.
Qed.

Lemma set_cells_valid cells : forall P0 P1,
  set_cells P0 cells = Some P1 ->
  Forall (fun c : nat * Z * Z =>
            exists len, shape P0 !! c.1.1 = Some len
                        /\ is_Some (wrap_index len c.1.2)) cells.
Proof.
  induction cells as [|[[r c] v] cells IH]; intros P0 P1 H; [done|].
  simpl in H. destruct (set_cell P0 r c v) as [P2|] eqn:E; [|discriminate].
  simpl in H. constructor.
  - unfold set_cell in E. destruct (P0 !! r) as [row|] eqn:Er; [|discriminate].
    simpl in E. destruct (wrap_index (length row) c) as [j|] eqn:Ej;
      [|discriminate].
    exists (length row). simpl. split; [|by eexists].
    unfold shape. by rewrite list_lookup_fmap, Er.
  - rewrite <- (set_cell_shape _ _ _ _ _ E). by eapply IH.
Qed.

(** Whether an assignment goes through depends on the dimensions only. *)
Lemma setitem_col_shape_only P0 P0' rows col v P1 :
  shape P0 = shape P0' ->
  setitem_col P0 rows col v = inr P1 ->
  exists P1', setitem_col P0' rows col v = inr P1'.
Proof.
  intros Hs H. unfold setitem_col in *.
  rewrite <- (shape_length _ _ Hs).
  destruct (mapM (wrap_index (length P0)) rows) as [rs|]; [|discriminate].
  simpl in *. destruct (broadcast (length rs) v) as [e|vs]; [discriminate|].
  simpl in *.
  destruct (set_cells P0 _) as [P2|] eqn:E; [|discriminate].
  apply set_cells_valid in E. rewrite Hs in E.
  destruct (set_cells_succeeds _ _ E) as [P1' ->]. by eexists.
Qed.

Lemma setitem_col_other_column P0 rows col v P1 r c' :
  setitem_col P0 rows col v = inr P1 -> 0 <= col -> 0 <= c' -> c' <> col ->
  cell P1 r c' = cell P0 r c'.
Proof.
  unfold setitem_col. intros H Hcol Hc' Hne.
  destruct (mapM _ rows) as [rs|]; [|discriminate]. simpl in H.
  destruct (broadcast _ _) as [e|vs]; [discriminate|]. simpl in H.
  destruct (set_cells P0 _) as [P2|] eqn:E; [|discriminate].
  inversion H; subst P2.
  eapply set_cells_other; [exact E| |done|].
  - apply Forall_forall. intros [[r1 c1] v1] Hin.
    apply list_elem_of_fmap in Hin as ([r2 x2] & Heq & Hin).
    by inversion Heq; subst.
  - intros Hin. apply list_elem_of_fmap in Hin as ([[r1 c1] v1] & Heq & Hin).
    apply list_elem_of_fmap in Hin as ([r2 x2] & Heq' & Hin).
    inversion Heq'; subst. simpl in Heq. by inversion Heq.
Qed.

Lemma set_cells_column_agree col cells : forall P0 P0' P1 P1',
  Forall (fun c : nat * Z * Z => c.1.2 = col) cells ->
  set_cells P0 cells = Some P1 -> set_cells P0' cells = Some P1' ->
  (forall r, cell P0 r col = cell P0' r col) ->
  forall r, cell P1 r col = cell P1' r col.
Proof.
  induction cells as [|[[r0 c0] v0] cells IH];
    intros P0 P0' P1 P1' Hcol H H' Hagree.
  - by inversion H; inversion H'; subst.
  - apply Forall_cons in Hcol as [Hc0 Hcol]. simpl in Hc0. subst c0.
    simpl in H, H'.
    destruct (set_cell P0 r0 col v0) as [P2|] eqn:E; [|discriminate].
    destruct (set_cell P0' r0 col v0) as [P2'|] eqn:E'; [|discriminate].
    simpl in H, H'. eapply (IH P2 P2'); try done.
    intros r. destruct (decide (r0 = r)) as [<-|Hne].
    + by rewrite (set_cell_same _ _ _ _ _ E), (set_cell_same _ _ _ _ _ E').
    + unfold cell.
      rewrite (set_cell_other_row _ _ _ _ _ _ E Hne).
      rewrite (set_cell_other_row _ _ _ _ _ _ E' Hne).
      apply Hagree.
Qed.

Lemma setitem_col_column_agree P0 P0' rows col v P1 P1' :
  shape P0 = shape P0' ->
  setitem_col P0 rows col v = inr P1 -> setitem_col P0' rows col v = inr P1' ->
  (forall r, cell P0 r col = cell P0' r col) ->
  forall r, cell P1 r col = cell P1' r col.
Proof.
  intros Hs H H' Hagree. unfold setitem_col in *.
  rewrite <- (shape_length _ _ Hs) in H'.
  destruct (mapM (wrap_index (length P0)) rows) as [rs|]; [|discriminate].
  simpl in *. destruct (broadcast (length rs) v) as [e|vs]; [discriminate|].
  simpl in *.
  destruct (set_cells P0 _) as [P2|] eqn:E; [|discriminate].
  destruct (set_cells P0' _) as [P2'|] eqn:E'; [|discriminate].
  inversion H; inversion H'; subst.
  eapply set_cells_column_agree; [|exact E|exact E'|exact Hagree].
  apply Forall_forall. intros [[r1 c1] v1] Hin.
  apply list_elem_of_fmap in Hin as ([r2 x2] & Heq & Hin).
  by inversion Heq.
Qed.

(** Assignments to two different columns can be made in either order. *)
Lemma setitem_col_commute P0 rA colA vA rB colB vB PA PB :
  0 <= colA -> 0 <= colB -> colA <> colB ->
  setitem_col P0 rA colA vA = inr PA ->
  setitem_col P0 rB colB vB = inr PB ->
  exists Q, setitem_col PB rA colA vA = inr Q
            /\ setitem_col PA rB colB vB = inr Q.
Proof.
  intros HA HB Hne HPA HPB.
  pose proof (assign_shape P0 rA colA (Vec vA) PA HPA) as HsA.
  pose proof (assign_shape P0 rB colB (Vec vB) PB HPB) as HsB.
  destruct (setitem_col_shape_only P0 PB rA colA vA PA) as [Q1 HQ1];
    [done|done|].
  destruct (setitem_col_shape_only P0 PA rB colB vB PB) as [Q2 HQ2];
    [done|done|].
  pose proof (assign_shape PB rA colA (Vec vA) Q1 HQ1) as Hs1.
  pose proof (assign_shape PA rB colB (Vec vB) Q2 HQ2) as Hs2.
  exists Q1. split; [done|]. rewrite HQ2. f_equal. symmetry.
  apply matrix_ext; [congruence|]. intros r c Hc.
  destruct (decide (c = colA)) as [->|HcA].
  - rewrite (setitem_col_other_column _ _ _ _ _ r colA HQ2) by done.
    eapply (setitem_col_column_agree PB P0); [done|exact HQ1|exact HPA|].
    intros r'. by eapply setitem_col_other_column.
  - rewrite (setitem_col_other_column _ _ _ _ _ r c HQ1) by done.
    destruct (decide (c = colB)) as [->|HcB].
    + symmetry.
      eapply (setitem_col_column_agree PA P0); [done|exact HQ2|exact HPB|].
      intros r'. by eapply setitem_col_other_column.
    + rewrite (setitem_col_other_column _ _ _ _ _ r c HQ2) by done.
      rewrite (setitem_col_other_column _ _ _ _ _ r c HPA) by done.
      by rewrite (setitem_col_other_column _ _ _ _ _ r c HPB) by done.
Qed.

(** X21.  The order of the tasks does not matter.  Two fold tasks of a fit
    without preprocessing whose estimators can be fitted and predict one
    value for each held-out row, with different columns and different cache
    files: when each of them goes through from a given state, they go
    through one after the other in either order, and both orders end in the
    same state: the same matrix, the same cache. *)
Theorem fold_tasks_commute (fuel : nat) (dir : string) (X : matrix)
    (y : list Z) (raise_on_exception : bool) (name : option string)
    (ivals : Z * Z) (attr : string) (scorer : option scorer_t) (w : world)
    (caseA caseB : option string) (nA nB : string) (instA instB : estimator)
    (idxA idxB : option index_spec) (teiA teiB : index_spec) (colA colB : Z)
    (xA xB x2A x2B : matrix) (zA zB iA iB z2A z2B : option (list Z))
    (fA fB : fitted_est) (rowsA rowsB vA vB : list Z) :
  _slice_array X (Some y) idxA = inr (xA, zA, iA) ->
  est_fit instA xA zA = inr fA ->
  _slice_array X (Some y) (Some teiA) = inr (x2A, z2A, Some rowsA) ->
  getattr_call (Some fA) attr x2A = inr (Vec vA) ->
  _slice_array X (Some y) idxB = inr (xB, zB, iB) ->
  est_fit instB xB zB = inr fB ->
  _slice_array X (Some y) (Some teiB) = inr (x2B, z2B, Some rowsB) ->
  getattr_call (Some fB) attr x2B = inr (Vec vB) ->
  0 <= colA -> 0 <= colB -> colA <> colB ->
  ekey dir caseA nA <> ekey dir caseB nB ->
  let A := fit_est fuel dir caseA nA instA X y (Some SharedP)
             (idxA, Some teiA, colA) raise_on_exception false name ivals attr
             scorer in
  let B := fit_est fuel dir caseB nB instB X y (Some SharedP)
             (idxB, Some teiB, colB) raise_on_exception false name ivals attr
             scorer in
  (A w).1 = Ok tt -> (B w).1 = Ok tt ->
  ((let* _ := A in B) w).1 = Ok tt
  /\ (let* _ := A in B) w = (let* _ := B in A) w.
Proof.
  intros HsA HfA Hs2A HpA HsB HfB Hs2B HpB HcA HcB Hne Hkey A B HAw HBw.
  pose proof (fun w' =>
                fit_est_writes fuel dir caseA nA instA X y idxA teiA colA
                  raise_on_exception false name ivals attr scorer w' xA zA iA
                  [] xA fA x2A z2A rowsA x2A (Vec vA) HsA eq_refl eq_refl HfA
                  Hs2A eq_refl HpA) as HA.
  pose proof (fun w' =>
                fit_est_writes fuel dir caseB nB instB X y idxB teiB colB
                  raise_on_exception false name ivals attr scorer w' xB zB iB
                  [] xB fB x2B z2B rowsB x2B (Vec vB) HsB eq_refl eq_refl HfB
                  Hs2B eq_refl HpB) as HB.
  fold A in HA. fold B in HB.
  fold (ekey dir caseA nA) in HA. fold (ekey dir caseB nB) in HB.
  rewrite HA in HAw. rewrite HB in HBw.
  set (d := Z.of_nat (length X) - Z.of_nat (length (P w))) in *.
  destruct (assign (P w) ((fun i => i - d) <$> rowsA) colA (Vec vA))
    as [e|PA] eqn:EA; [discriminate|].
  destruct (assign (P w) ((fun i => i - d) <$> rowsB) colB (Vec vB))
    as [e|PB] eqn:EB; [discriminate|].
  destruct (setitem_col_commute (P w) ((fun i => i - d) <$> rowsA) colA vA
              ((fun i => i - d) <$> rowsB) colB vB PA PB)
    as (Q & HQ1 & HQ2); try done.
  pose proof (shape_length _ _ (assign_shape _ _ _ _ _ EA)) as HlA.
  pose proof (shape_length _ _ (assign_shape _ _ _ _ _ EB)) as HlB.
  assert ((let* _ := A in B) w
          = (Ok tt,
             with_cache (with_P w Q)
               (<[ekey dir caseB nB
                  := EPayload nB (Some fB) (Some teiB, colB)
                       (try_score scorer z2B (Vec vB))]>
                  (<[ekey dir caseA nA
                     := EPayload nA (Some fA) (Some teiA, colA)
                          (try_score scorer z2A (Vec vA))]> (cache w)))))
    as HAB.
  { unfold bind. rewrite HA. fold d. rewrite EA. rewrite HB. simpl P.
    rewrite HlA. fold d. simpl assign. by rewrite HQ2. }
  assert ((let* _ := B in A) w
          = (Ok tt,
             with_cache (with_P w Q)
               (<[ekey dir caseA nA
                  := EPayload nA (Some fA) (Some teiA, colA)
                       (try_score scorer z2A (Vec vA))]>
                  (<[ekey dir caseB nB
                     := EPayload nB (Some fB) (Some teiB, colB)
                          (try_score scorer z2B (Vec vB))]> (cache w)))))
    as HBA.
  { unfold bind. rewrite HB. fold d. rewrite EB. rewrite HA. simpl P.
    rewrite HlB. fold d. simpl assign. by rewrite HQ1. }
  rewrite HAB, HBA. split; [done|].
  by rewrite insert_insert_ne.
Qed.

(** Fold 0 predicts row 0 into column 0 and fold 1 predicts row 2 into
    column 1. *)
Lemma fold_tasks_commute_witness :
  let A := fit_est 0 "cache" None "good__0" Sample.good_est Sample.X Sample.y
             (Some SharedP) (Some (Range 1 3), Some (Range 0 1), 0) false
             false (Some "layer-1") (1, 6000) "predict" None in
  let B := fit_est 0 "cache" None "good__1" Sample.good_est Sample.X Sample.y
             (Some SharedP) (Some (Range 0 2), Some (Range 2 3), 1) false
             false (Some "layer-1") (1, 6000) "predict" None in
  ((let* _ := A in B) Sample.w0).1 = Ok tt
  /\ (let* _ := A in B) Sample.w0 = (let* _ := B in A) Sample.w0.
Proof.
  apply (fold_tasks_commute 0 "cache" Sample.X Sample.y false
           (Some "layer-1") (1, 6000) "predict" None Sample.w0 None None
           "good__0" "good__1" Sample.good_est Sample.good_est
           (Some (Range 1 3)) (Some (Range 0 2)) (Range 0 1) (Range 2 3) 0 1
           [[2]; [3]] [[1]; [2]] [[1]] [[3]] (Some [0; 1]) (Some [1; 0])
           (Some [1; 2]) (Some [0; 1]) (Some [1]) (Some [1])
           Sample.first_col Sample.first_col [0] [2] [1] [3]);
    first [reflexivity|lia|by intros H; vm_compute in H].
Defined.
